(** * conversordetributos: DARF extraction and CNAB-240 remittance encoding

    A shallow embedding of [src/utils/remittance.ts] (the Encoder) and of
    [src/app/api/darfs/parse/route.ts] (the Extractor).

    JavaScript strings are sequences of UTF-16 code units: a string is a
    [list N], and [length] is the [.length] of the source.  String
    literals of the source are written [js "..."]. *)

From Stdlib Require Import Ascii String.
From Stdlib Require Import List ZArith NArith Lia Bool Arith.
Import ListNotations.

(** ** JavaScript strings *)

Module JsString.

Definition char16 := N.
Definition jsstring := list char16.

Definition js (s : string) : jsstring :=
  List.map N_of_ascii (list_ascii_of_string s).

Definition isDigit (c : char16) : bool := ((48 <=? c) && (c <=? 57))%N.

(** [WhiteSpace] and [LineTerminator] of ECMA-262: what [trim] strips
    and what the class [\s] matches. *)
Definition isSpace (c : char16) : bool :=
  ((9 <=? c) && (c <=? 13) || (c =? 32) || (c =? 160) || (c =? 5760)
   || (8192 <=? c) && (c <=? 8202) || (c =? 8232) || (c =? 8233)
   || (c =? 8239) || (c =? 8287) || (c =? 12288) || (c =? 65279))%N.

Fixpoint dropWhile (p : char16 -> bool) (s : jsstring) : jsstring :=
  match s with
  | c :: s' => if p c then dropWhile p s' else s
  | [] => []
  end.

(** [String.prototype.trim]. *)
Definition trim (s : jsstring) : jsstring :=
  rev (dropWhile isSpace (rev (dropWhile isSpace s))).

(** The filler of [padStart] and [padEnd]: the pad string repeated and
    cut to [n] code units ([cur] is what is left of the current copy). *)
Fixpoint cycleFill (n : nat) (cur filler : jsstring) : jsstring :=
  match n with
  | O => []
  | S n' =>
      match cur with
      | c :: cur' => c :: cycleFill n' cur' filler
      | [] =>
          match filler with
          | c :: cur' => c :: cycleFill n' cur' filler
          | [] => []
          end
      end
  end.

(** [String.prototype.padStart]: nothing is added when the string is
    long enough or the pad string is empty. *)
Definition padStart (s : jsstring) (size : nat) (filler : jsstring) : jsstring :=
  if (size <=? length s)%nat then s
  else cycleFill (size - length s) filler filler ++ s.

Definition padEnd (s : jsstring) (size : nat) (filler : jsstring) : jsstring :=
  if (size <=? length s)%nat then s
  else s ++ cycleFill (size - length s) filler filler.

(** A relative index of [slice]: negative ones count from the end. *)
Definition relIndex (len : nat) (i : Z) : nat :=
  if (i <? 0)%Z then Z.to_nat (Z.max (Z.of_nat len + i) 0)
  else Nat.min (Z.to_nat i) len.

(** [String.prototype.slice(start, end)]; [None] is an omitted [end]. *)
Definition slice (s : jsstring) (start : Z) (stop : option Z) : jsstring :=
  let len := length s in
  let from := relIndex len start in
  let to := match stop with Some e => relIndex len e | None => len end in
  firstn (to - from) (skipn from s).

(** [Array.prototype.join]. *)
Fixpoint join (sep : jsstring) (parts : list jsstring) : jsstring :=
  match parts with
  | [] => []
  | [p] => p
  | p :: rest => p ++ sep ++ join sep rest
  end.

Fixpoint startsWith (pre s : jsstring) : bool :=
  match pre, s with
  | [], _ => true
  | p :: pre', c :: s' => (p =? c)%N && startsWith pre' s'
  | _ :: _, [] => false
  end.

(** [String.prototype.includes]. *)
Fixpoint includes (s needle : jsstring) : bool :=
  startsWith needle s ||
  match s with
  | [] => false
  | _ :: s' => includes s' needle
  end.

(** [String(n)] for a non-negative integer: its decimal digits. *)
Fixpoint digitsFuel (fuel : nat) (n : N) (acc : jsstring) : jsstring :=
  match fuel with
  | O => acc
  | S fuel' =>
      let acc' := (48 + n mod 10)%N :: acc in
      if (n <? 10)%N then acc' else digitsFuel fuel' (n / 10)%N acc'
  end.

Definition digitsOfN (n : N) : jsstring :=
  digitsFuel (S (N.to_nat (N.log2 n))) n [].

(** The number a string of decimal digits denotes. *)
Definition valueOfDigits (s : jsstring) : N :=
  fold_left (fun acc c => (10 * acc + (c - 48))%N) s 0%N.

End JsString.
Import JsString.

(** ** JavaScript numbers

    A [number] of the source is an IEEE 754 binary64 value.  Every finite
    double is an integer multiple of [2^-1074], so a finite value is kept
    as that integer: [Fin z] is [z * 2^-1074].  [Fin 0] is [+0] and
    [NegZero] is [-0].  An operation computes the exact result and rounds
    it to the nearest double, ties to the even significand. *)

Module Number.

Local Open Scope Z_scope.

Inductive number :=
| NaN
| Inf (neg : bool)
| NegZero
| Fin (z : Z).

(** [Fin scale] is the number 1. *)
Definition scale : Z := 2 ^ 1074.

(** The first magnitude that rounds to an infinity: [2^1024]. *)
Definition overflow : Z := 2 ^ 2098.

Definition ofInt (k : Z) : number := Fin (k * scale).

Definition isNeg (x : number) : bool :=
  match x with
  | NaN => false
  | Inf s => s
  | NegZero => true
  | Fin z => z <? 0
  end.

Definition magnitude (x : number) : Z :=
  match x with
  | Fin z => Z.abs z
  | _ => 0
  end.

Definition isZero (x : number) : bool :=
  match x with
  | NegZero => true
  | Fin z => z =? 0
  | _ => false
  end.

(** [n / d] rounded to the nearest integer, ties to the even one
    ([0 <= n], [0 < d]). *)
Definition divHalfEven (n d : Z) : Z :=
  let q := n / d in
  let r := n mod d in
  if 2 * r <? d then q
  else if d <? 2 * r then q + 1
  else if Z.even q then q else q + 1.

(** [n / d] rounded to a double, in units of [2^-1074]: below [2^53]
    units the doubles are the integers, and a value of [53 + k] bits is
    rounded to a multiple of [2^k]. *)
Definition roundScaled (n d : Z) : Z :=
  let k := Z.max 0 (Z.log2 (n / d) - 52) in
  divHalfEven n (d * 2 ^ k) * 2 ^ k.

(** The double nearest to [(-1)^neg * (n / d) * 2^-1074]. *)
Definition ofRatio (neg : bool) (n d : Z) : number :=
  let z := roundScaled n d in
  if overflow <=? z then Inf neg
  else if z =? 0 then (if neg then NegZero else Fin 0)
  else Fin (if neg then - z else z).

(** The operator [+]. *)
Definition add (x y : number) : number :=
  match x, y with
  | NaN, _ => NaN
  | _, NaN => NaN
  | Inf a, Inf b => if Bool.eqb a b then Inf a else NaN
  | Inf a, _ => Inf a
  | _, Inf b => Inf b
  | NegZero, NegZero => NegZero
  | NegZero, Fin z => Fin z
  | Fin z, NegZero => Fin z
  | Fin a, Fin b => ofRatio (a + b <? 0) (Z.abs (a + b)) 1
  end.

(** The operator [*]. *)
Definition mul (x y : number) : number :=
  match x, y with
  | NaN, _ => NaN
  | _, NaN => NaN
  | Inf a, _ => if isZero y then NaN else Inf (xorb a (isNeg y))
  | _, Inf b => if isZero x then NaN else Inf (xorb (isNeg x) b)
  | _, _ => ofRatio (xorb (isNeg x) (isNeg y)) (magnitude x * magnitude y) scale
  end.

(** [Math.round]: the nearest integer, a tie going towards [+Infinity];
    a result of zero from a negative argument is [-0]. *)
Definition mathRound (x : number) : number :=
  match x with
  | Fin z =>
      let r := (2 * z + scale) / (2 * scale) in
      if (r =? 0) && (z <? 0) then NegZero else Fin (r * scale)
  | _ => x
  end.

(** [Number.isNaN]. *)
Definition isNaN (x : number) : bool :=
  match x with
  | NaN => true
  | _ => false
  end.

Definition digitsOfZ (n : Z) : jsstring := digitsOfN (Z.to_N n).

(** *** [Number::toString]: the shortest decimal that reads back *)

(** The decimal exponent [n] of [z * 2^-1074]: [10^(n-1) <= value < 10^n]
    ([0 < z]). *)
Fixpoint leadingZeros (fuel : nat) (z : Z) (m : Z) : Z :=
  match fuel with
  | O => m
  | S fuel' =>
      if scale <=? z * 10 ^ (m + 1) then m else leadingZeros fuel' z (m + 1)
  end.

Definition decimalExponent (z : Z) : Z :=
  if scale <=? z then Z.of_nat (length (digitsOfZ (z / scale)))
  else - leadingZeros 400 z 0.

(** [z * 2^-1074 * 10^e] as a fraction. *)
Definition timesPow10 (z e : Z) : Z * Z :=
  if 0 <=? e then (z * 10 ^ e, scale) else (z, scale * 10 ^ (- e)).

(** The double that the decimal [s * 10^e] denotes. *)
Definition ofDecimal (neg : bool) (s e : Z) : number :=
  if 0 <=? e then ofRatio neg (s * 10 ^ e * scale) 1
  else ofRatio neg (s * scale) (10 ^ (- e)).

(** The digits [s] of [k] places for [z]: the nearer of the two
    [k]-digit decimals around the value that reads back as [z], if one
    does. *)
Definition digitsAt (z n k : Z) : option Z :=
  let '(num, den) := timesPow10 z (k - n) in
  let lo := num / den in
  let hi := lo + 1 in
  let r := num mod den in
  let okLo := match ofDecimal false lo (n - k) with Fin y => y =? z | _ => false end in
  let okHi := match ofDecimal false hi (n - k) with Fin y => y =? z | _ => false end in
  let preferLo := (2 * r <? den) || ((2 * r =? den) && Z.even lo) in
  match okLo, okHi with
  | true, true => Some (if preferLo then lo else hi)
  | true, false => Some lo
  | false, true => Some hi
  | false, false => None
  end.

Fixpoint shortestFrom (fuel : nat) (z n k : Z) : Z * Z :=
  match fuel with
  | O => (0, k)
  | S fuel' =>
      match digitsAt z n k with
      | Some s => (s, k)
      | None => shortestFrom fuel' z n (k + 1)
      end
  end.

Definition zeros (n : Z) : jsstring := repeat 48%N (Z.to_nat n).

(** The digits [s] (of [k] places) and the exponent [n] of ECMA-262's
    [Number::toString] for a positive finite [z * 2^-1074]. *)
Definition shortestDecimal (z : Z) : Z * Z * Z :=
  let n0 := decimalExponent z in
  let '(s0, k) := shortestFrom 17 z n0 1 in
  (* the digits [10^k] are the digit [1] one exponent higher *)
  if s0 =? 10 ^ k then (10 ^ (k - 1), k, n0 + 1) else (s0, k, n0).

Definition formatDecimal (s k n : Z) : jsstring :=
  let ds := digitsOfZ s in
  if (k <=? n) && (n <=? 21) then ds ++ zeros (n - k)
  else if (0 <? n) && (n <=? 21) then
    firstn (Z.to_nat n) ds ++ js "." ++ skipn (Z.to_nat n) ds
  else if (-6 <? n) && (n <=? 0) then js "0." ++ zeros (- n) ++ ds
  else
    let e := n - 1 in
    let exponent :=
      js "e" ++ (if e <? 0 then js "-" else js "+") ++ digitsOfZ (Z.abs e) in
    if k =? 1 then ds ++ exponent
    else firstn 1 ds ++ js "." ++ skipn 1 ds ++ exponent.

(** The text of a positive finite [z * 2^-1074].  An integer below
    [2^53] is a double, and the shortest decimal that reads back as it
    is the integer itself: its text is its decimal digits. *)
Definition positiveToString (z : Z) : jsstring :=
  if (z mod scale =? 0) && (z / scale <? 2 ^ 53) then digitsOfZ (z / scale)
  else let '(s, k, n) := shortestDecimal z in formatDecimal s k n.

(** [String(x)] and [x.toString()] for a number. *)
Definition numberToString (x : number) : jsstring :=
  match x with
  | NaN => js "NaN"
  | Inf false => js "Infinity"
  | Inf true => js "-Infinity"
  | NegZero => js "0"
  | Fin z =>
      if z =? 0 then js "0"
      else if z <? 0 then js "-" ++ positiveToString (- z)
      else positiveToString z
  end.

(** *** Reading a number: [parseFloat] and [Number(string)] *)

Fixpoint takeWhile (p : char16 -> bool) (s : jsstring) : jsstring :=
  match s with
  | c :: s' => if p c then c :: takeWhile p s' else []
  | [] => []
  end.

Definition digitValue (c : char16) : Z := Z.of_N (c - 48).

Definition valueOfDigitsZ (s : jsstring) : Z := Z.of_N (valueOfDigits s).

(** [ExponentPart]: [e] or [E], an optional sign and at least one
    digit; the exponent read and what follows it. *)
Definition scanExponent (s : jsstring) : Z * jsstring :=
  match s with
  | c :: s1 =>
      if (c =? 101)%N || (c =? 69)%N then
        let '(neg, s2) :=
          match s1 with
          | d :: s2 =>
              if (d =? 45)%N then (true, s2)
              else if (d =? 43)%N then (false, s2)
              else (false, s1)
          | [] => (false, s1)
          end in
        let ds := takeWhile isDigit s2 in
        match ds with
        | [] => (0, s)
        | _ =>
            let e := valueOfDigitsZ ds in
            ((if neg then - e else e), skipn (length ds) s2)
        end
      else (0, s)
  | [] => (0, s)
  end.

(** [StrUnsignedDecimalLiteral]: the longest prefix of [s] that is one,
    as its value and what follows it. *)
Definition scanUnsigned (neg : bool) (s : jsstring) : option (number * jsstring) :=
  if startsWith (js "Infinity") s then Some (Inf neg, skipn 8 s)
  else
    let ints := takeWhile isDigit s in
    let s1 := skipn (length ints) s in
    let '(fracs, s2) :=
      match s1 with
      | c :: s1' =>
          if (c =? 46)%N then
            let fracs := takeWhile isDigit s1' in
            (fracs, skipn (length fracs) s1')
          else ([], s1)
      | [] => ([], s1)
      end in
    match ints, fracs with
    | [], [] => None
    | _, _ =>
        let '(e, s3) := scanExponent s2 in
        Some (ofDecimal neg (valueOfDigitsZ (ints ++ fracs))
                (e - Z.of_nat (length fracs)), s3)
    end.

(** [StrDecimalLiteral]: an optional sign and an unsigned literal. *)
Definition scanDecimal (s : jsstring) : option (number * jsstring) :=
  match s with
  | c :: s' =>
      if (c =? 45)%N then scanUnsigned true s'
      else if (c =? 43)%N then scanUnsigned false s'
      else scanUnsigned false s
  | [] => None
  end.

(** [parseFloat]: leading white space is skipped and the longest
    prefix that is a decimal literal is read; [NaN] when there is none. *)
Definition parseFloat (s : jsstring) : number :=
  match scanDecimal (dropWhile isSpace s) with
  | Some (x, _) => x
  | None => NaN
  end.

Definition digitOfRadix (radix : N) (c : char16) : option N :=
  let v :=
    if isDigit c then Some (c - 48)%N
    else if ((97 <=? c) && (c <=? 102))%N then Some (c - 87)%N
    else if ((65 <=? c) && (c <=? 70))%N then Some (c - 55)%N
    else None in
  match v with
  | Some d => if (d <? radix)%N then Some d else None
  | None => None
  end.

Fixpoint valueOfRadix (radix : N) (s : jsstring) (acc : N) : option N :=
  match s with
  | [] => Some acc
  | c :: s' =>
      match digitOfRadix radix c with
      | Some d => valueOfRadix radix s' (radix * acc + d)%N
      | None => None
      end
  end.

(** [NonDecimalIntegerLiteral]: [0x], [0o] and [0b] literals. *)
Definition scanNonDecimal (s : jsstring) : option number :=
  match s with
  | c0 :: c :: ((_ :: _) as ds) =>
      let radix :=
        if negb (c0 =? 48)%N then None
        else if (c =? 120)%N || (c =? 88)%N then Some 16%N
        else if (c =? 111)%N || (c =? 79)%N then Some 8%N
        else if (c =? 98)%N || (c =? 66)%N then Some 2%N
        else None in
      match radix with
      | Some r =>
          match valueOfRadix r ds 0%N with
          | Some v => Some (ofRatio false (Z.of_N v * scale) 1)
          | None => None
          end
      | None => None
      end
  | _ => None
  end.

(** [Number(s)] for a string: the whole trimmed string is a numeric
    literal, or the result is [NaN]; the empty string is [0]. *)
Definition numberOfString (s : jsstring) : number :=
  match trim s with
  | [] => Fin 0
  | t =>
      match scanNonDecimal t with
      | Some x => x
      | None =>
          match scanDecimal t with
          | Some (x, []) => x
          | _ => NaN
          end
      end
  end.

(** [Number.prototype.toFixed]: [f] digits after the point, the nearest
    such decimal, the larger magnitude on a tie; a magnitude of [10^21]
    or more is printed as [String] prints it. *)
Definition toFixed (x : number) (f : nat) : jsstring :=
  match x with
  | NaN | Inf _ => numberToString x
  | NegZero | Fin _ =>
      let a := magnitude x in
      let sign := if isNeg x && negb (isZero x) then js "-" else [] in
      if 10 ^ 21 * scale <=? a then sign ++ positiveToString a
      else
        let n := (2 * a * 10 ^ Z.of_nat f + scale) / (2 * scale) in
        let m := digitsOfZ n in
        let m := zeros (Z.of_nat f + 1 - Z.of_nat (length m)) ++ m in
        match f with
        | O => sign ++ m
        | _ =>
            sign ++ firstn (length m - f) m ++ js "." ++ skipn (length m - f) m
        end
  end.

End Number.
Import Number.

(** The two powers are kept folded while terms are compared. *)
Global Opaque scale overflow.

(** ** The data model: [src/types/darf.ts] *)

Record DarfRecord := {
  id : jsstring;
  nome : jsstring;
  periodoApuracao : jsstring;
  cnpj : jsstring;
  codigoReceita : jsstring;
  numeroReferencia : jsstring;
  dataVencimento : jsstring;
  valorPrincipal : number;
  valorMulta : number;
  valorJuros : number;
  valorTotal : number
}.

Module Company.
Record CompanyInfo := {
  banco : jsstring;
  agencia : jsstring;
  dvAgencia : jsstring;
  conta : jsstring;
  dvConta : jsstring;
  convenio : jsstring;
  empresa : jsstring;
  cnpj : jsstring
}.
End Company.
Definition CompanyInfo : Type := Company.CompanyInfo.

(** ** The host: what the source takes from the platform

    A [Date] is read through its local-time getters.  [now t] is what
    the [t]-th [new Date()] of a run returns; [toUpperCase] is
    [String.prototype.toUpperCase] and [dateFormat] is the [format] of
    the [Intl.DateTimeFormat] of [DATE_FORMATTER]. *)

Record JsDate := {
  getDate : Z;
  getMonth : Z;
  getFullYear : Z;
  getHours : Z;
  getMinutes : Z
}.

Record Host := {
  toUpperCase : jsstring -> jsstring;
  dateFormat : JsDate -> jsstring;
  now : nat -> JsDate
}.

(** A computation that reads the clock: from the number of readings so
    far to a result and the number of readings after it. *)
Definition Clock (A : Type) : Type := nat -> A * nat.

Definition ret {A} (a : A) : Clock A := fun t => (a, t).

Definition bind {A B} (m : Clock A) (f : A -> Clock B) : Clock B :=
  fun t => let '(a, t') := m t in f a t'.

Notation "x <- m ;; k" := (bind m (fun x => k))
  (at level 61, m at next level, right associativity).

(** [new Date()]. *)
Definition newDate (H : Host) : Clock JsDate := fun t => (now H t, S t).

(** [String(k)] for an integer [k]. *)
Definition intToString (k : Z) : jsstring :=
  if (k <? 0)%Z then js "-" ++ digitsOfZ (- k) else digitsOfZ k.

(** ** The Encoder: [src/utils/remittance.ts] *)


Module Remittance.

Inductive Align := AlignLeft | AlignRight.

(** The optional third argument of [padValue]. *)
Record PadOptions := { align : option Align; filler : option jsstring }.

Definition padValue (value : jsstring) (size : nat) (options : option PadOptions)
  : jsstring :=
  let align :=
    match options with
    | Some {| align := Some a |} => a
    | _ => AlignLeft
    end in
  let filler :=
    match options with
    | Some {| filler := Some f |} => f
    | _ => match align with AlignLeft => js " " | AlignRight => js "0" end
    end in
  match align with
  | AlignRight => slice (padStart value size filler) (- Z.of_nat size) None
  | AlignLeft => slice (padEnd value size filler) 0 (Some (Z.of_nat size))
  end.

(** The option object [{ align: "right", filler: "0" }] of the source. *)
Definition rightZero : option PadOptions :=
  Some {| align := Some AlignRight; filler := Some (js "0") |}.

Definition sanitizeNumber (value : jsstring) : jsstring :=
  filter isDigit value.

(** The argument of [formatDateToCnab]: [string | Date]. *)
Inductive DateArg :=
| OfString (s : jsstring)
| OfDate (d : JsDate).

(** [/^\d{8}$/.test]. *)
Definition isEightDigits (s : jsstring) : bool :=
  (length s =? 8)%nat && forallb isDigit s.

Definition isDateSep (c : char16) : bool := ((c =? 47) || (c =? 45))%N.

(** The pattern [(\d{2})[\/-](\d{2})[\/-](\d{4})] at the start of [s]:
    the three groups. *)
Definition dateAt (s : jsstring) : option (jsstring * jsstring * jsstring) :=
  match s with
  | d1 :: d2 :: s1 :: m1 :: m2 :: s2 :: y1 :: y2 :: y3 :: y4 :: _ =>
      if forallb isDigit [d1; d2; m1; m2; y1; y2; y3; y4]
         && isDateSep s1 && isDateSep s2
      then Some ([d1; d2], [m1; m2], [y1; y2; y3; y4])
      else None
  | _ => None
  end.

(** [cleaned.match(/(\d{2})[\/-](\d{2})[\/-](\d{4})/)]: the leftmost
    place where the pattern matches. *)
Fixpoint matchDate (s : jsstring) : option (jsstring * jsstring * jsstring) :=
  match dateAt s with
  | Some groups => Some groups
  | None =>
      match s with
      | [] => None
      | _ :: s' => matchDate s'
      end
  end.

(** The template literal of the [Date] branch of [formatDateToCnab]:
    the day and the month padded to two digits, then the year. *)
Definition ddmmyyyy (d : JsDate) : jsstring :=
  padStart (intToString (getDate d)) 2 (js "0")
  ++ padStart (intToString (getMonth d + 1)) 2 (js "0")
  ++ intToString (getFullYear d).

(** The template literal of [fileTime]: the hours and the minutes,
    each padded to two digits. *)
Definition fileTimeOf (creationDate : JsDate) : jsstring :=
  padStart (intToString (getHours creationDate)) 2 (js "0")
  ++ padStart (intToString (getMinutes creationDate)) 2 (js "0").

Section Encoder.

Variable H : Host.

(** [formatDateToCnab] calls itself; [fuel] bounds the depth of the
    calls, and [None] is a run that needs more. *)
Fixpoint formatDateToCnabFuel (fuel : nat) (date : DateArg)
  : Clock (option jsstring) :=
  match fuel with
  | O => ret None
  | S fuel' =>
      match date with
      | OfDate d => ret (Some (ddmmyyyy d))
      | OfString s =>
          let cleaned := trim s in
          if isEightDigits cleaned then ret (Some cleaned)
          else
            match matchDate cleaned with
            | Some (day, month, year) => ret (Some (day ++ month ++ year))
            | None =>
                d <- newDate H ;; formatDateToCnabFuel fuel' (OfDate d)
            end
      end
  end.

(** Two levels of calls are all a run needs. *)
Definition formatDateToCnab (date : DateArg) : Clock jsstring :=
  r <- formatDateToCnabFuel 2 date ;;
  ret (match r with Some s => s | None => [] end).

(** [value ?? 0] is [value]: the amounts of a [DarfRecord] are numbers. *)
Definition toCnabNumber (value : number) (length : nat) : jsstring :=
  let cents := mathRound (mul value (ofInt 100)) in
  padValue (numberToString cents) length rightZero.

Definition buildLine (parts : list jsstring) : jsstring :=
  let line := concat parts in
  if (240 <=? length line)%nat then slice line 0 (Some 240%Z)
  else padEnd line 240 (js " ").

(** [a || b] on strings: the empty string is the only falsy one. *)
Definition orElse (a b : jsstring) : jsstring :=
  match a with
  | [] => b
  | _ => a
  end.

Definition natToString (n : nat) : jsstring := digitsOfN (N.of_nat n).

(** The line of one record, from its dates as encoded. *)
Definition detailOf (sequential : nat) (darf : DarfRecord)
  (period vencimento : jsstring) : jsstring :=
  let referencia := padValue (sanitizeNumber (numeroReferencia darf)) 25 rightZero in
  buildLine [
    js "3";
    padValue (js "0001") 4 rightZero;
    padValue (natToString sequential) 5 rightZero;
    js "A";
    padValue (sanitizeNumber (cnpj darf)) 15 rightZero;
    padValue (toUpperCase H (nome darf)) 30 None;
    padValue (codigoReceita darf) 6 rightZero;
    referencia;
    period;
    vencimento;
    toCnabNumber (valorPrincipal darf) 15;
    toCnabNumber (valorMulta darf) 15;
    toCnabNumber (valorJuros darf) 15;
    toCnabNumber (valorTotal darf) 15;
    padValue (js " ") 81 None
  ].

(** The callback of [darfs.map]: the due date is encoded first, then
    the period; [sequential] is the counter before its [++]. *)
Definition detailLine (creationDate : JsDate) (sequential : nat) (darf : DarfRecord)
  : Clock jsstring :=
  vencimento <- formatDateToCnab (OfString (dataVencimento darf)) ;;
  period <- formatDateToCnab
              (OfString (orElse (periodoApuracao darf) (dateFormat H creationDate))) ;;
  ret (detailOf sequential darf period vencimento).

(** [darfs.map] with the counter [sequential] threaded through. *)
Fixpoint detailLinesFrom (creationDate : JsDate) (sequential : nat)
  (darfs : list DarfRecord) : Clock (list jsstring) :=
  match darfs with
  | [] => ret []
  | darf :: rest =>
      line <- detailLine creationDate sequential darf ;;
      lines <- detailLinesFrom creationDate (S sequential) rest ;;
      ret (line :: lines)
  end.

(** [darfs.reduce((total, darf) => total + field(darf), 0)]. *)
Definition total (field : DarfRecord -> number) (darfs : list DarfRecord) : number :=
  fold_left (fun total darf => add total (field darf)) darfs (Fin 0).

Definition crlf : jsstring := [13; 10]%N.

(** The fields of the company, as [generateSantanderRemittance] pads
    them. *)
Definition bancoOf (company : CompanyInfo) : jsstring :=
  padValue (sanitizeNumber (orElse (Company.banco company) (js "033"))) 3 rightZero.

Definition agenciaOf (company : CompanyInfo) : jsstring :=
  padValue (sanitizeNumber (Company.agencia company)) 4 rightZero.

Definition dvAgenciaOf (company : CompanyInfo) : jsstring :=
  padValue (sanitizeNumber (Company.dvAgencia company)) 1 rightZero.

Definition contaOf (company : CompanyInfo) : jsstring :=
  padValue (sanitizeNumber (Company.conta company)) 9 rightZero.

Definition dvContaOf (company : CompanyInfo) : jsstring :=
  padValue (sanitizeNumber (Company.dvConta company)) 1 rightZero.

Definition convenioOf (company : CompanyInfo) : jsstring :=
  padValue (sanitizeNumber (Company.convenio company)) 20 rightZero.

Definition cnpjOf (company : CompanyInfo) : jsstring :=
  padValue (sanitizeNumber (Company.cnpj company)) 14 rightZero.

Definition companyNameOf (company : CompanyInfo) : jsstring :=
  padValue (toUpperCase H (Company.empresa company)) 30 None.

Definition headerArquivo (company : CompanyInfo) (fileDate fileTime : jsstring)
  : jsstring :=
  buildLine [
    js "0";
    js "1";
    bancoOf company;
    js "00000";
    padValue (js " ") 9 None;
    convenioOf company;
    padValue (js " ") 5 None;
    padValue (cnpjOf company) 14 rightZero;
    padValue (js " ") 20 None;
    companyNameOf company;
    padValue (js "BANCO SANTANDER") 30 None;
    fileDate;
    fileTime;
    padValue (js "1") 6 rightZero;
    padValue (js " ") 71 None
  ].

Definition headerLote (company : CompanyInfo) (fileDate : jsstring)
  (darfs : list DarfRecord) : jsstring :=
  buildLine [
    js "1";
    bancoOf company;
    padValue (js "0001") 4 rightZero;
    js "1";
    js "J";
    padValue (js " ") 2 None;
    padValue (js "040") 3 None;
    padValue (js " ") 1 None;
    padValue (js " ") 1 None;
    padValue (convenioOf company) 20 rightZero;
    padValue (js " ") 5 None;
    agenciaOf company;
    dvAgenciaOf company;
    contaOf company;
    padValue (js " ") 1 None;
    dvContaOf company;
    companyNameOf company;
    padValue (js " ") 40 None;
    padValue (js " ") 30 None;
    fileDate;
    padValue (js " ") 8 None;
    padValue (padStart (natToString (length darfs)) 5 (js "0")) 6 rightZero;
    padValue (js " ") 99 None
  ].

Definition trailerLote (darfs : list DarfRecord) (detailLines : list jsstring)
  : jsstring :=
  let totalPrincipal := total valorPrincipal darfs in
  let totalMulta := total valorMulta darfs in
  let totalJuros := total valorJuros darfs in
  let totalGeral := total valorTotal darfs in
  buildLine [
    js "5";
    padValue (js "0001") 4 rightZero;
    padValue (natToString (length detailLines + 2)) 6 rightZero;
    toCnabNumber totalPrincipal 18;
    toCnabNumber totalMulta 18;
    toCnabNumber totalJuros 18;
    toCnabNumber totalGeral 18;
    padValue (js " ") 145 None
  ].

Definition trailerArquivo (detailLines : list jsstring) : jsstring :=
  buildLine [
    js "9";
    padValue (js "0001") 6 rightZero;
    padValue (natToString (length detailLines + 4)) 6 rightZero;
    padValue (js " ") 213 None
  ].

(** The array [lines] of [generateSantanderRemittance]. *)
Definition remittanceLines (company : CompanyInfo) (darfs : list DarfRecord)
  : Clock (list jsstring) :=
  creationDate <- newDate H ;;
  fileDate <- formatDateToCnab (OfDate creationDate) ;;
  let fileTime := fileTimeOf creationDate in
  detailLines <- detailLinesFrom creationDate 1 darfs ;;
  ret ([headerArquivo company fileDate fileTime; headerLote company fileDate darfs]
       ++ detailLines
       ++ [trailerLote darfs detailLines; trailerArquivo detailLines]).

Definition generateSantanderRemittance (company : CompanyInfo)
  (darfs : list DarfRecord) : Clock jsstring :=
  lines <- remittanceLines company darfs ;;
  ret (join crlf lines).

End Encoder.

End Remittance.
Import Remittance.

(** ** Regular expressions

    The patterns of the Extractor are run by a backtracking matcher
    that follows ECMA-262: alternatives in order, greedy quantifiers
    that give back one iteration at a time, and no iteration that
    matches the empty string once the minimum is reached.  A state is
    the text before the position (reversed), the text after it and the
    groups captured so far. *)

Module Regex.

Inductive regex :=
| Eps
| Chr (p : char16 -> bool)
| Seq (r1 r2 : regex)
| Alt (r1 r2 : regex)
| Rep (min : nat) (max : option nat) (r : regex)
| Group (i : nat) (r : regex)
| Bol
| Eol
| WordBoundary
| Ahead (r : regex).

Record mstate := {
  before : jsstring;
  after : jsstring;
  caps : list (nat * jsstring)
}.

(** The word characters of [\b]. *)
Definition isWord (c : char16) : bool :=
  (isDigit c || (65 <=? c) && (c <=? 90) || (97 <=? c) && (c <=? 122)
   || (c =? 95))%N.

Definition wordAt (s : jsstring) : bool :=
  match s with
  | c :: _ => isWord c
  | [] => false
  end.

Fixpoint run (r : regex) (k : mstate -> option mstate) (st : mstate)
  : option mstate :=
  match r with
  | Eps => k st
  | Chr p =>
      match after st with
      | c :: rest =>
          if p c
          then k {| before := c :: before st; after := rest; caps := caps st |}
          else None
      | [] => None
      end
  | Seq r1 r2 => run r1 (run r2 k) st
  | Alt r1 r2 =>
      match run r1 k st with
      | Some res => Some res
      | None => run r2 k st
      end
  | Rep min max r' =>
      (fix rep (fuel min : nat) (max : option nat) (st : mstate) {struct fuel}
         : option mstate :=
         match fuel with
         | O => None
         | S fuel' =>
             match max with
             | Some O => k st
             | _ =>
                 let again := fun st' =>
                   if (min =? 0)%nat && (length (after st') =? length (after st))%nat
                   then None
                   else rep fuel' (Nat.pred min) (option_map Nat.pred max) st' in
                 match min with
                 | S _ => run r' again st
                 | O =>
                     match run r' again st with
                     | Some res => Some res
                     | None => k st
                     end
                 end
             end
         end) (min + length (after st) + 1)%nat min max st
  | Group i r' =>
      run r'
        (fun st' =>
           k {| before := before st';
                after := after st';
                caps := (i, firstn (length (after st) - length (after st')) (after st))
                        :: caps st' |})
        st
  | Bol => match before st with [] => k st | _ => None end
  | Eol => match after st with [] => k st | _ => None end
  | WordBoundary =>
      if xorb (wordAt (before st)) (wordAt (after st)) then k st else None
  | Ahead r' =>
      match run r' Some st with
      | Some st' =>
          k {| before := before st; after := after st; caps := caps st' |}
      | None => None
      end
  end.

(** A match that starts at the position between [before] and [after]. *)
Definition matchAt (r : regex) (before after : jsstring) : option mstate :=
  run r Some {| before := before; after := after; caps := [] |}.

(** The leftmost match: [RegExp.prototype.exec] of a pattern that is
    neither global nor sticky. *)
Fixpoint search (r : regex) (before after : jsstring) : option mstate :=
  match matchAt r before after with
  | Some st => Some st
  | None =>
      match after with
      | [] => None
      | c :: rest => search r (c :: before) rest
      end
  end.

Definition exec (r : regex) (s : jsstring) : option mstate := search r [] s.

(** Group [i] of a match; a group that took no part is [None]. *)
Fixpoint group (i : nat) (caps : list (nat * jsstring)) : option jsstring :=
  match caps with
  | [] => None
  | (j, text) :: rest => if (i =? j)%nat then Some text else group i rest
  end.

(** [s.replace(r, replacement)] for a global [r] and a replacement text
    without [$] patterns. *)
Fixpoint replaceFuel (fuel : nat) (r : regex) (replacement before after : jsstring)
  : jsstring :=
  match fuel with
  | O => after
  | S fuel' =>
      let step :=
        match after with
        | [] => []
        | c :: rest => c :: replaceFuel fuel' r replacement (c :: before) rest
        end in
      match matchAt r before after with
      | Some st =>
          if (length (Regex.after st) <? length after)%nat
          then replacement
               ++ replaceFuel fuel' r replacement (Regex.before st) (Regex.after st)
          else replacement ++ step
      | None => step
      end
  end.

Definition replaceAll (r : regex) (replacement s : jsstring) : jsstring :=
  replaceFuel (S (length s)) r replacement [] s.

(** [s.split(r)] for a pattern without groups: [piece] is the text
    since the last separator, reversed. *)
Fixpoint splitFuel (fuel : nat) (r : regex) (piece before after : jsstring)
  : list jsstring :=
  match fuel with
  | O => [rev piece ++ after]
  | S fuel' =>
      match after with
      | [] => [rev piece]
      | c :: rest =>
          let advance := splitFuel fuel' r (c :: piece) (c :: before) rest in
          match matchAt r before after with
          | Some st =>
              match piece, (length (Regex.after st) =? length after)%nat with
              | [], true => advance
              | _, _ =>
                  rev piece :: splitFuel fuel' r [] (Regex.before st) (Regex.after st)
              end
          | None => advance
          end
      end
  end.

Definition split (r : regex) (s : jsstring) : list jsstring :=
  match s with
  | [] => match matchAt r [] [] with Some _ => [] | None => [[]] end
  | _ => splitFuel (2 * length s + 2) r [] [] s
  end.

(** [seq [r1; ...; rn]] is the pattern [r1 ... rn]. *)
Fixpoint seq (rs : list regex) : regex :=
  match rs with
  | [] => Eps
  | [r] => r
  | r :: rs' => Seq r (seq rs')
  end.

Definition star (r : regex) : regex := Rep 0 None r.
Definition plus (r : regex) : regex := Rep 1 None r.
Definition opt (r : regex) : regex := Rep 0 (Some 1%nat) r.

(** One code unit, by its number. *)
Definition unit (c : char16) : regex := Chr (N.eqb c).

(** One code unit, by its character. *)
Definition lit (c : string) : regex :=
  match js c with
  | [x] => Chr (N.eqb x)
  | _ => Chr (fun _ => false)
  end.

Definition asciiUpper (c : char16) : char16 :=
  if ((97 <=? c) && (c <=? 122))%N then (c - 32)%N else c.

(** A text of ASCII characters under the flag [i]: a letter stands for
    both of its cases.  (A code unit above 127 never canonicalizes to
    an ASCII one.) *)
Definition ciUnit (x : char16) : regex :=
  Chr (fun c => (asciiUpper c =? asciiUpper x)%N).

Definition ci (text : string) : regex := seq (List.map ciUnit (js text)).

Definition digit : regex := Chr isDigit.
Definition space : regex := Chr isSpace.

End Regex.
Import Regex.

(** ** The Extractor: [src/app/api/darfs/parse/route.ts] *)

Module Extractor.

(** [Partial<DarfRecord>], the working record [current]: a field is
    [Some] once it was assigned.  The identifier is never assigned. *)
Record PartialDarf := {
  p_nome : option jsstring;
  p_periodoApuracao : option jsstring;
  p_cnpj : option jsstring;
  p_codigoReceita : option jsstring;
  p_numeroReferencia : option jsstring;
  p_dataVencimento : option jsstring;
  p_valorPrincipal : option number;
  p_valorMulta : option number;
  p_valorJuros : option number;
  p_valorTotal : option number
}.

(** The object [{}]. *)
Definition emptyDarf : PartialDarf :=
  {| p_nome := None; p_periodoApuracao := None; p_cnpj := None;
     p_codigoReceita := None; p_numeroReferencia := None;
     p_dataVencimento := None; p_valorPrincipal := None;
     p_valorMulta := None; p_valorJuros := None; p_valorTotal := None |}.

Definition isSome {A} (o : option A) : bool :=
  match o with
  | Some _ => true
  | None => false
  end.

(** [Object.keys(current).length > 0]. *)
Definition hasKeys (c : PartialDarf) : bool :=
  isSome (p_nome c) || isSome (p_periodoApuracao c) || isSome (p_cnpj c)
  || isSome (p_codigoReceita c) || isSome (p_numeroReferencia c)
  || isSome (p_dataVencimento c) || isSome (p_valorPrincipal c)
  || isSome (p_valorMulta c) || isSome (p_valorJuros c)
  || isSome (p_valorTotal c).

Inductive FieldKey :=
| Nome | PeriodoApuracao | Cnpj | CodigoReceita | NumeroReferencia
| DataVencimento.

Inductive NumericKey := ValorPrincipal | ValorMulta | ValorJuros | ValorTotal.

Definition jsEqb (a b : jsstring) : bool :=
  (length a =? length b)%nat && startsWith a b.

(** The lookup of a key in an object literal: the first entry. *)
Fixpoint lookup {A} (table : list (jsstring * A)) (key : jsstring) : option A :=
  match table with
  | [] => None
  | (k, v) :: rest => if jsEqb k key then Some v else lookup rest key
  end.

Definition numericFields : list (jsstring * NumericKey) :=
  [(js "07", ValorPrincipal); (js "08", ValorMulta); (js "09", ValorJuros);
   (js "10", ValorTotal)].

Definition textFields : list (jsstring * FieldKey) :=
  [(js "01", Nome); (js "02", PeriodoApuracao); (js "03", Cnpj);
   (js "04", CodigoReceita); (js "05", NumeroReferencia);
   (js "06", DataVencimento)].

Definition fieldOrder : list jsstring :=
  [js "01"; js "02"; js "03"; js "04"; js "05"; js "06"; js "07"; js "08";
   js "09"; js "10"].

(** [current[key] = value] for a text key. *)
Definition setText (c : PartialDarf) (key : FieldKey) (value : jsstring)
  : PartialDarf :=
  match key with
  | Nome =>
      {| p_nome := Some value; p_periodoApuracao := p_periodoApuracao c;
         p_cnpj := p_cnpj c; p_codigoReceita := p_codigoReceita c;
         p_numeroReferencia := p_numeroReferencia c;
         p_dataVencimento := p_dataVencimento c;
         p_valorPrincipal := p_valorPrincipal c; p_valorMulta := p_valorMulta c;
         p_valorJuros := p_valorJuros c; p_valorTotal := p_valorTotal c |}
  | PeriodoApuracao =>
      {| p_nome := p_nome c; p_periodoApuracao := Some value;
         p_cnpj := p_cnpj c; p_codigoReceita := p_codigoReceita c;
         p_numeroReferencia := p_numeroReferencia c;
         p_dataVencimento := p_dataVencimento c;
         p_valorPrincipal := p_valorPrincipal c; p_valorMulta := p_valorMulta c;
         p_valorJuros := p_valorJuros c; p_valorTotal := p_valorTotal c |}
  | Cnpj =>
      {| p_nome := p_nome c; p_periodoApuracao := p_periodoApuracao c;
         p_cnpj := Some value; p_codigoReceita := p_codigoReceita c;
         p_numeroReferencia := p_numeroReferencia c;
         p_dataVencimento := p_dataVencimento c;
         p_valorPrincipal := p_valorPrincipal c; p_valorMulta := p_valorMulta c;
         p_valorJuros := p_valorJuros c; p_valorTotal := p_valorTotal c |}
  | CodigoReceita =>
      {| p_nome := p_nome c; p_periodoApuracao := p_periodoApuracao c;
         p_cnpj := p_cnpj c; p_codigoReceita := Some value;
         p_numeroReferencia := p_numeroReferencia c;
         p_dataVencimento := p_dataVencimento c;
         p_valorPrincipal := p_valorPrincipal c; p_valorMulta := p_valorMulta c;
         p_valorJuros := p_valorJuros c; p_valorTotal := p_valorTotal c |}
  | NumeroReferencia =>
      {| p_nome := p_nome c; p_periodoApuracao := p_periodoApuracao c;
         p_cnpj := p_cnpj c; p_codigoReceita := p_codigoReceita c;
         p_numeroReferencia := Some value;
         p_dataVencimento := p_dataVencimento c;
         p_valorPrincipal := p_valorPrincipal c; p_valorMulta := p_valorMulta c;
         p_valorJuros := p_valorJuros c; p_valorTotal := p_valorTotal c |}
  | DataVencimento =>
      {| p_nome := p_nome c; p_periodoApuracao := p_periodoApuracao c;
         p_cnpj := p_cnpj c; p_codigoReceita := p_codigoReceita c;
         p_numeroReferencia := p_numeroReferencia c;
         p_dataVencimento := Some value;
         p_valorPrincipal := p_valorPrincipal c; p_valorMulta := p_valorMulta c;
         p_valorJuros := p_valorJuros c; p_valorTotal := p_valorTotal c |}
  end.

(** [current[key] = value] for a numeric key. *)
Definition setNumber (c : PartialDarf) (key : NumericKey) (value : number)
  : PartialDarf :=
  match key with
  | ValorPrincipal =>
      {| p_nome := p_nome c; p_periodoApuracao := p_periodoApuracao c;
         p_cnpj := p_cnpj c; p_codigoReceita := p_codigoReceita c;
         p_numeroReferencia := p_numeroReferencia c;
         p_dataVencimento := p_dataVencimento c;
         p_valorPrincipal := Some value; p_valorMulta := p_valorMulta c;
         p_valorJuros := p_valorJuros c; p_valorTotal := p_valorTotal c |}
  | ValorMulta =>
      {| p_nome := p_nome c; p_periodoApuracao := p_periodoApuracao c;
         p_cnpj := p_cnpj c; p_codigoReceita := p_codigoReceita c;
         p_numeroReferencia := p_numeroReferencia c;
         p_dataVencimento := p_dataVencimento c;
         p_valorPrincipal := p_valorPrincipal c; p_valorMulta := Some value;
         p_valorJuros := p_valorJuros c; p_valorTotal := p_valorTotal c |}
  | ValorJuros =>
      {| p_nome := p_nome c; p_periodoApuracao := p_periodoApuracao c;
         p_cnpj := p_cnpj c; p_codigoReceita := p_codigoReceita c;
         p_numeroReferencia := p_numeroReferencia c;
         p_dataVencimento := p_dataVencimento c;
         p_valorPrincipal := p_valorPrincipal c; p_valorMulta := p_valorMulta c;
         p_valorJuros := Some value; p_valorTotal := p_valorTotal c |}
  | ValorTotal =>
      {| p_nome := p_nome c; p_periodoApuracao := p_periodoApuracao c;
         p_cnpj := p_cnpj c; p_codigoReceita := p_codigoReceita c;
         p_numeroReferencia := p_numeroReferencia c;
         p_dataVencimento := p_dataVencimento c;
         p_valorPrincipal := p_valorPrincipal c; p_valorMulta := p_valorMulta c;
         p_valorJuros := p_valorJuros c; p_valorTotal := Some value |}
  end.

Definition dot : regex := lit ".".

(** [sanitizeLine]: [/\s+/g], [/\.\.+/g] and [/\s:/g], then [trim]. *)
Definition sanitizeLine (line : jsstring) : jsstring :=
  trim
    (replaceAll (Seq space (lit ":")) (js ":")
       (replaceAll (Seq dot (plus dot)) (js " ")
          (replaceAll (plus space) (js " ") line))).

Definition isMoneyChar (c : char16) : bool :=
  (isDigit c || (c =? 44) || (c =? 46) || (c =? 45))%N.

(** [/\.(?=\d{3}(\D|$))/]: a period before three digits and then a
    non-digit or the end. *)
Definition thousandsPeriod : regex :=
  Seq dot
    (Ahead (Seq (Rep 3 (Some 3%nat) digit)
              (Group 1 (Alt (Chr (fun c => negb (isDigit c))) Eol)))).

(** The text [normalizeNumber] hands to [parseFloat]:
    [/[^0-9,.-]/g], [/\.(?=\d{3}(\D|$))/g] and [/,/g]. *)
Definition sanitized (value : jsstring) : jsstring :=
  replaceAll (lit ",") (js ".")
    (replaceAll thousandsPeriod []
       (replaceAll (Chr (fun c => negb (isMoneyChar c))) [] value)).

Definition normalizeNumber (value : jsstring) : number :=
  let parsed := parseFloat (sanitized value) in
  if isNaN parsed then ofInt 0 else numberOfString (toFixed parsed 2).

(** [lines[index]?.trim()]. *)
Definition trimmedAt (lines : list jsstring) (index : nat) : option jsstring :=
  option_map trim (nth_error lines index).

Definition extractValue (lines : list jsstring) (index : nat) : jsstring :=
  let current := match trimmedAt lines index with Some s => s | None => [] end in
  match current with
  | _ :: _ => current
  | [] =>
      match trimmedAt lines (index + 1) with
      | Some next => next
      | None => []
      end
  end.

(** [(?:^|\n)\s*(?:DOCUMENTO DE ARRECADA[...][...]O|DARF)\b] under the
    flag [i].  The two classes are the code units the source file
    holds: [C], U+00C3, U+2021 and [A], U+00C3, U+0192, each with its
    other case. *)
Definition classC (c : char16) : bool :=
  ((asciiUpper c =? 67) || (c =? 195) || (c =? 227) || (c =? 8225))%N.

Definition classA (c : char16) : bool :=
  ((asciiUpper c =? 65) || (c =? 195) || (c =? 227) || (c =? 402) || (c =? 401))%N.

Definition darfMarker : regex :=
  seq [Alt Bol (unit 10%N);
       star space;
       Alt (seq [ci "DOCUMENTO DE ARRECADA"; Chr classC; Chr classA; ci "O"])
           (ci "DARF");
       WordBoundary].

(** [(?:^|\n)0?1\s+NOME] under the flag [i]. *)
Definition nomeMarker : regex :=
  seq [Alt Bol (unit 10%N);
       opt (lit "0"); lit "1"; plus space; ci "NOME"].

Definition nonEmpty (s : jsstring) : bool :=
  match s with
  | [] => false
  | _ => true
  end.

Definition parseBlocks (text : jsstring) : list jsstring :=
  let cleanedText := replaceAll (unit 13%N) [] text in
  let candidateSplits :=
    filter nonEmpty (List.map trim (split darfMarker cleanedText)) in
  if (1 <? length candidateSplits)%nat then candidateSplits
  else
    let fallback :=
      filter (fun block => existsb (fun code => includes block code) fieldOrder)
        (List.map trim
           (List.map
              (fun '(index, block) =>
                 match index with
                 | O => block
                 | _ => js "01 NOME " ++ block
                 end)
              (combine (List.seq 0 (length (split nomeMarker cleanedText)))
                 (split nomeMarker cleanedText)))) in
    match fallback with
    | [] => [cleanedText]
    | _ => fallback
    end.

(** The pattern of a field line under the flags [i] and [u]:
    [^0?(\d{1,2})\s*[-:]*\s*([A-Z...\s]+)(?:[:\-]\s*|\s{2,}|\s)], then a
    third group of any characters up to the end of the line.  The label class holds [A-Z], U+00C3,
    U+2021, U+0192 and the white space; with case folding it takes the
    small letters, U+017F, U+212A, U+00E3 and U+0191 too.  [.] takes
    any code unit but a line terminator, and [$] ends the line. *)
Definition isLabelChar (c : char16) : bool :=
  ((65 <=? asciiUpper c) && (asciiUpper c <=? 90) || (c =? 383) || (c =? 8490)
   || (c =? 195) || (c =? 227) || (c =? 8225) || (c =? 402) || (c =? 401)
   || isSpace c)%N.

Definition isDashColon (c : char16) : bool := ((c =? 45) || (c =? 58))%N.

Definition isLineTerminator (c : char16) : bool :=
  ((c =? 10) || (c =? 13) || (c =? 8232) || (c =? 8233))%N.

Definition fieldPattern : regex :=
  seq [Bol;
       opt (lit "0");
       Group 1 (Rep 1 (Some 2%nat) digit);
       star space;
       star (Chr isDashColon);
       star space;
       Group 2 (plus (Chr isLabelChar));
       Alt (Seq (Chr isDashColon) (star space)) (Alt (Rep 2 None space) space);
       Group 3 (star (Chr (fun c => negb (isLineTerminator c))));
       Eol].

Definition orEmpty (o : option jsstring) : jsstring :=
  match o with
  | Some s => s
  | None => []
  end.

Definition orZero (o : option number) : number :=
  match o with
  | Some x => x
  | None => ofInt 0
  end.

(** The record both [darfs.push] calls build. *)
Definition complete (ident : jsstring) (c : PartialDarf) : DarfRecord :=
  {| id := ident;
     nome := orEmpty (p_nome c);
     periodoApuracao := orEmpty (p_periodoApuracao c);
     cnpj := orEmpty (p_cnpj c);
     codigoReceita := orEmpty (p_codigoReceita c);
     numeroReferencia := orEmpty (p_numeroReferencia c);
     dataVencimento := orEmpty (p_dataVencimento c);
     valorPrincipal := orZero (p_valorPrincipal c);
     valorMulta := orZero (p_valorMulta c);
     valorJuros := orZero (p_valorJuros c);
     valorTotal := orZero (p_valorTotal c) |}.

Section Scan.

(** [randomUUID n] is the identifier the [n]-th call of [randomUUID()]
    returns. *)
Variable randomUUID : nat -> jsstring.

(** The state of the scan: the working record, the array [darfs] and
    the number of identifiers drawn. *)
Record ScanState := {
  current : PartialDarf;
  darfs : list DarfRecord;
  drawn : nat
}.

(** [darfs.push({ id: randomUUID(), ... })]. *)
Definition push (st : ScanState) : ScanState :=
  {| current := current st;
     darfs := darfs st ++ [complete (randomUUID (drawn st)) (current st)];
     drawn := S (drawn st) |}.

Definition withCurrent (st : ScanState) (c : PartialDarf) : ScanState :=
  {| current := c; darfs := darfs st; drawn := drawn st |}.

(** What a matched line does, from its code and its value. *)
Definition applyField (code value : jsstring) (st : ScanState) : ScanState :=
  let st1 :=
    match lookup textFields code with
    | Some key => withCurrent st (setText (current st) key value)
    | None =>
        match lookup numericFields code with
        | Some key =>
            withCurrent st (setNumber (current st) key (normalizeNumber value))
        | None => st
        end
    end in
  if jsEqb code (js "10") then
    withCurrent (if hasKeys (current st1) then push st1 else st1) emptyDarf
  else st1.

(** One turn of the loop over [lines], at index [i]. *)
Definition scanLine (lines : list jsstring) (i : nat) (st : ScanState) : ScanState :=
  match nth_error lines i with
  | None => st
  | Some line =>
      match exec fieldPattern line with
      | None => st
      | Some m =>
          let codeRaw := orEmpty (group 1 (caps m)) in
          let valueRaw := group 3 (caps m) in
          let code := padStart codeRaw 2 (js "0") in
          let value := orEmpty (option_map trim valueRaw) in
          let value :=
            match value with
            | [] => extractValue lines (i + 1)
            | _ => value
            end in
          applyField code value st
      end
  end.

(** [for (let i = 0; i < lines.length; i++)]: [todo] turns are left. *)
Fixpoint scanFrom (lines : list jsstring) (i todo : nat) (st : ScanState)
  : ScanState :=
  match todo with
  | O => st
  | S todo' => scanFrom lines (S i) todo' (scanLine lines i st)
  end.

Definition blockLines (block : jsstring) : list jsstring :=
  filter nonEmpty (List.map sanitizeLine (split (plus (unit 10%N)) block)).

(** The body of [for (const block of blocks)]: [out] is [darfs] and the
    number of identifiers drawn. *)
Definition scanBlock (out : list DarfRecord * nat) (block : jsstring)
  : list DarfRecord * nat :=
  let lines := blockLines block in
  match lines with
  | [] => out
  | _ =>
      let st :=
        scanFrom lines 0 (length lines)
          {| current := emptyDarf; darfs := fst out; drawn := snd out |} in
      let st :=
        if hasKeys (current st) && negb (isSome (p_valorTotal (current st)))
        then push st else st in
      (darfs st, drawn st)
  end.

Definition parseDarfs (text : jsstring) : list DarfRecord :=
  fst (fold_left scanBlock (parseBlocks text) ([], O)).

End Scan.

End Extractor.
Import Extractor.

(** ** Amounts

    The vocabulary of the amounts of a record. *)

(** The double nearest to [k] hundredths: an amount of [k] cents. *)
Definition amount (k : Z) : number := ofDecimal false k (-2).

(** The four amounts of a record, and where the lines carry them: 15
    code units each in a detail line, 18 each in the batch trailer. *)
Inductive AmountKind := Principal | Multa | Juros | Geral.

Definition amountOf (a : AmountKind) (darf : DarfRecord) : number :=
  match a with
  | Principal => valorPrincipal darf
  | Multa => valorMulta darf
  | Juros => valorJuros darf
  | Geral => valorTotal darf
  end.

Definition detailOffset (a : AmountKind) : nat :=
  match a with
  | Principal => 103
  | Multa => 118
  | Juros => 133
  | Geral => 148
  end.

Definition trailerOffset (a : AmountKind) : nat :=
  match a with
  | Principal => 11
  | Multa => 29
  | Juros => 47
  | Geral => 65
  end.

Definition sumZ (l : list Z) : Z := fold_right Z.add 0%Z l.

(** The number a field of digits denotes. *)
Definition centsIn (f : jsstring) : Z := Z.of_N (valueOfDigits f).

(** ** A host for the examples

    [toUpperCase] on ASCII text, the [dd/mm/yyyy] of the [pt-BR] date
    format, and a clock that reads 2 November 2026, 09:05. *)

Definition asciiToUpperCase (s : jsstring) : jsstring := List.map asciiUpper s.

Definition ptBR (d : JsDate) : jsstring :=
  padStart (intToString (getDate d)) 2 (js "0") ++ js "/"
  ++ padStart (intToString (getMonth d + 1)) 2 (js "0") ++ js "/"
  ++ intToString (getFullYear d).

Definition sampleDate : JsDate :=
  {| getDate := 2; getMonth := 10; getFullYear := 2026;
     getHours := 9; getMinutes := 5 |}.

Definition sampleHost : Host :=
  {| toUpperCase := asciiToUpperCase;
     dateFormat := ptBR;
     now := fun _ => sampleDate |}.

Definition sampleUUID (n : nat) : jsstring := js "id-" ++ natToString n.

Definition sampleCompany : CompanyInfo :=
  {| Company.banco := [];
     Company.agencia := js "1234";
     Company.dvAgencia := js "5";
     Company.conta := js "130001234";
     Company.dvConta := js "7";
     Company.convenio := js "00331234";
     Company.empresa := js "Acme Ltda";
     Company.cnpj := js "12.345.678/0001-90" |}.

(** A record of 1500.00 with a penalty of 10.00 and interest of 5.00. *)
Definition sampleDarf : DarfRecord :=
  {| id := js "id-0";
     nome := js "Joao da Silva";
     periodoApuracao := js "31/01/2024";
     cnpj := js "12.345.678/0001-90";
     codigoReceita := js "0561";
     numeroReferencia := js "123456";
     dataVencimento := js "20/02/2024";
     valorPrincipal := ofDecimal false 150000 (-2);
     valorMulta := ofDecimal false 1000 (-2);
     valorJuros := ofDecimal false 500 (-2);
     valorTotal := ofDecimal false 151500 (-2) |}.

(** A record with the four amounts given in cents. *)
Definition darfOf (ident : jsstring) (principal multa juros geral : Z) : DarfRecord :=
  {| id := ident;
     nome := js "Maria Souza";
     periodoApuracao := js "31/01/2024";
     cnpj := js "12.345.678/0001-90";
     codigoReceita := js "0561";
     numeroReferencia := js "123456";
     dataVencimento := js "20/02/2024";
     valorPrincipal := amount principal;
     valorMulta := amount multa;
     valorJuros := amount juros;
     valorTotal := amount geral |}.

(** The two records of the end-to-end scenario: 1500.00, and 250.00
    with a penalty of 10.00 and interest of 5.00. *)
Definition scenario : list DarfRecord :=
  [darfOf (js "a") 150000 0 0 150000; darfOf (js "b") 25000 1000 500 26500].

Definition scenarioCents (a : AmountKind) (darf : DarfRecord) : Z :=
  if jsEqb (id darf) (js "a") then
    match a with Principal => 150000 | Multa => 0 | Juros => 0 | Geral => 150000 end
  else
    match a with Principal => 25000 | Multa => 1000 | Juros => 500 | Geral => 26500 end.

(** Three amounts that fit their fields and whose floating-point sum
    is a cent above their sum. *)
Definition largeDarfs : list DarfRecord :=
  [darfOf (js "a") 910196486841222 0 0 0;
   darfOf (js "b") 980759313000780 0 0 0;
   darfOf (js "c") 657349539977816 0 0 0].

(** A record whose name holds a line break. *)
Definition brokenDarf : DarfRecord :=
  {| id := js "id-1";
     nome := js "Joao" ++ crlf ++ js "da Silva";
     periodoApuracao := js "31/01/2024";
     cnpj := js "12.345.678/0001-90";
     codigoReceita := js "0561";
     numeroReferencia := js "123456";
     dataVencimento := js "20/02/2024";
     valorPrincipal := ofInt 0;
     valorMulta := ofInt 0;
     valorJuros := ofInt 0;
     valorTotal := ofInt 0 |}.

(** ** Vocabulary of the specification *)

(** Trimming the leading zeros of a padded field: what a reader of the
    file does to get the digits back. *)
Definition trimLeadingZeros (s : jsstring) : jsstring := dropWhile (N.eqb 48) s.

(** The rightmost [w] code units of a string. *)
Definition rightmost (w : nat) (s : jsstring) : jsstring := skipn (length s - w) s.

(** The field of [len] code units at offset [off] of a line. *)
Definition field (off len : nat) (line : jsstring) : jsstring :=
  firstn len (skipn off line).

Definition isLineBreak (c : char16) : bool := ((c =? 13) || (c =? 10))%N.

(** A text without carriage return and line feed. *)
Definition noBreak (s : jsstring) : bool := forallb (fun c => negb (isLineBreak c)) s.

(** [s.split("\r\n")]: [piece] is the text since the last separator,
    reversed. *)
Fixpoint splitCRLF (piece s : jsstring) : list jsstring :=
  match s with
  | [] => [rev piece]
  | c :: s' =>
      if (c =? 13)%N then
        match s' with
        | d :: s'' =>
            if (d =? 10)%N then rev piece :: splitCRLF [] s''
            else splitCRLF (c :: piece) s'
        | [] => splitCRLF (c :: piece) s'
        end
      else splitCRLF (c :: piece) s'
  end.

(** The hundredths nearest to a magnitude of [a * 2^-1074], the larger
    on a tie: the integer that [toFixed(2)] prints. *)
Definition hundredths (a : Z) : Z := (2 * a * 100 + scale) / (2 * scale).

(** A period that stands before exactly three digits and then a
    non-digit or the end of the text. *)
Definition beforeThreeDigits (rest : jsstring) : bool :=
  match rest with
  | d1 :: d2 :: d3 :: tail =>
      isDigit d1 && isDigit d2 && isDigit d3
      && match tail with
         | [] => true
         | c :: _ => negb (isDigit c)
         end
  | _ => false
  end.

(** A replacement that looks at one code unit and at the text after
    it: every code unit that [q] accepts gives way to [replacement]. *)
Fixpoint replaceUnits (q : char16 -> jsstring -> bool) (replacement s : jsstring)
  : jsstring :=
  match s with
  | [] => []
  | c :: rest =>
      if q c rest then replacement ++ replaceUnits q replacement rest
      else c :: replaceUnits q replacement rest
  end.

(** A pattern that takes one code unit, looking at what follows it. *)
Definition takesOne (r : regex) (q : char16 -> jsstring -> bool) : Prop :=
  forall before after,
    option_map (fun st => (Regex.before st, Regex.after st)) (matchAt r before after)
    = match after with
      | c :: rest => if q c rest then Some (c :: before, rest) else None
      | [] => None
      end.

(** The text without its thousands-separator periods. *)
Definition dropThousands (s : jsstring) : jsstring :=
  replaceUnits (fun c rest => (46 =? c)%N && beforeThreeDigits rest) [] s.

Definition commaToPeriod (c : char16) : char16 :=
  if (44 =? c)%N then 46%N else c.


(** The fragments of the fallback split of [parseBlocks], the marker
    put back before every fragment but the first. *)
Definition reattached (fragments : list jsstring) : list jsstring :=
  match fragments with
  | [] => []
  | first :: others => first :: List.map (app (js "01 NOME ")) others
  end.

(** A block holds one of the ten field codes. *)
Definition holdsFieldCode (block : jsstring) : bool :=
  existsb (fun code => includes block code) fieldOrder.

Definition lf : jsstring := [10%N].

(** The text of two slips, each closed by its total; the second slip
    names neither a tax number nor a due date. *)
Definition twoSlips : jsstring :=
  join lf
    [js "DARF";
     js "01 NOME: JOAO DA SILVA";
     js "03 CNPJ: 12.345.678/0001-90";
     js "06 DATA DE VENCIMENTO: 20/02/2024";
     js "07 VALOR DO PRINCIPAL ....... R$ 1.500,00";
     js "08 VALOR DA MULTA: 10,00";
     js "10 VALOR TOTAL: 1.510,00";
     js "DARF";
     js "01 NOME: MARIA SOUZA";
     js "07 VALOR DO PRINCIPAL: 250,00";
     js "10 VALOR TOTAL: 250,00"].

(** A date the clock can read in a year of four digits. *)
Definition validDate (d : JsDate) : Prop :=
  (1 <= getDate d <= 31 /\ 0 <= getMonth d <= 11
   /\ 1000 <= getFullYear d <= 9999)%Z.

(** ** Vocabulary of the fields *)

(** A field of [w] digits: the digits of a text after the zeros that
    fill the field, the rightmost [w] code units of them. *)
Definition zeroFilled (w : nat) (s : jsstring) : jsstring :=
  rightmost w (repeat 48%N w ++ s).

(** A field of [w] code units of text: the text and the spaces that
    fill the field, the first [w] code units of them. *)
Definition spaceFilled (w : nat) (s : jsstring) : jsstring :=
  firstn w (s ++ repeat 32%N w).

(** The eight digits [formatDateToCnab] reads in a text, when it reads
    them without the clock. *)
Definition dateDigits (s : jsstring) : option jsstring :=
  if isEightDigits (trim s) then Some (trim s)
  else
    match matchDate (trim s) with
    | Some (day, month, year) => Some (day ++ month ++ year)
    | None => None
    end.

(** A clock that reads valid dates and times of day. *)
Definition validTime (d : JsDate) : Prop :=
  (0 <= getHours d <= 23 /\ 0 <= getMinutes d <= 59)%Z.

(** The unary minus of a number. *)
Definition negate (x : number) : number :=
  match x with
  | NaN => NaN
  | Inf s => Inf (negb s)
  | NegZero => Fin 0
  | Fin z => if (z =? 0)%Z then NegZero else Fin (- z)
  end.

(** ** Vocabulary of the scan *)

(** The identifiers of the records are the identifiers drawn so far,
    in the order they were drawn. *)
Definition idsDrawn (randomUUID : nat -> jsstring) (st : ScanState) : Prop :=
  List.map id (darfs st) = List.map randomUUID (List.seq 0 (drawn st)).

(** A state of the matcher that is reached from another one by reading
    on in the text. *)
Definition reads (st st' : mstate) : Prop :=
  exists taken,
    Regex.after st = taken ++ Regex.after st'
    /\ Regex.before st' = rev taken ++ Regex.before st.

(** A text that stands somewhere in another text. *)
Definition infix (part whole : jsstring) : Prop :=
  exists before after, whole = before ++ part ++ after.

(** The loop of a quantifier in [run], by its fuel. *)
Definition repFuel (r' : regex) (k : mstate -> option mstate)
  : nat -> nat -> option nat -> mstate -> option mstate :=
  fix rep (fuel min : nat) (max : option nat) (st : mstate) {struct fuel}
    : option mstate :=
    match fuel with
    | O => None
    | S fuel' =>
        match max with
        | Some O => k st
        | _ =>
            let again := fun st' =>
              if (min =? 0)%nat
                 && (length (Regex.after st') =? length (Regex.after st))%nat
              then None
              else rep fuel' (Nat.pred min) (option_map Nat.pred max) st' in
            match min with
            | S _ => run r' again st
            | O =>
                match run r' again st with
                | Some res => Some res
                | None => k st
                end
            end
        end
    end.

(** The state of the matcher after the code units [taken]. *)
Definition advance (taken : jsstring) (st : mstate) (rest : jsstring) : mstate :=
  {| Regex.before := rev taken ++ Regex.before st;
     Regex.after := rest;
     caps := caps st |}.


(** ** Vocabulary of [sanitizeLine] *)

(** What becomes of a run of code units of one class (kept reversed)
    when it ends: a run of at least [least] code units gives way to
    the replacement, a shorter one stays. *)
Definition closeRun (least : nat) (replacement run : jsstring) : jsstring :=
  match run with
  | [] => []
  | _ => if (least <=? length run)%nat then replacement else rev run
  end.

(** Every run of at least [least] code units of the class [p] gives
    way to the replacement. *)
Fixpoint squeeze (p : char16 -> bool) (least : nat) (replacement run s : jsstring)
  : jsstring :=
  match s with
  | [] => closeRun least replacement run
  | c :: s' =>
      if p c then squeeze p least replacement (c :: run) s'
      else closeRun least replacement run ++ c :: squeeze p least replacement [] s'
  end.

(** Every white space that stands before a colon goes. *)
Fixpoint tighten (s : jsstring) : jsstring :=
  match s with
  | [] => []
  | c :: rest =>
      match rest with
      | d :: rest' =>
          if isSpace c && (d =? 58)%N then 58%N :: tighten rest'
          else c :: tighten rest
      | [] => [c]
      end
  end.

(** A code unit that is the space U+0020, if it is a white space at
    all. *)
Definition plainSpace (c : char16) : Prop := isSpace c = true -> c = 32%N.

(** A text without two periods in a row. *)
Fixpoint noDoublePeriod (s : jsstring) : bool :=
  match s with
  | [] => true
  | c :: rest =>
      match rest with
      | d :: _ => negb ((c =? 46)%N && (d =? 46)%N) && noDoublePeriod rest
      | [] => true
      end
  end.

(** ** Vocabulary of the amounts as they are written *)

(** An amount as it is written in Brazil: the digits of the whole part,
    the groups of three digits that follow it after a period each, a
    comma and the two digits of the cents. *)
Definition written (first : jsstring) (groups : list jsstring) (cents : jsstring)
  : jsstring :=
  first ++ concat (List.map (app [46%N]) groups) ++ [44%N] ++ cents.

(** The digits of an amount as it is written. *)
Definition digitsWritten (first : jsstring) (groups : list jsstring)
  (cents : jsstring) : jsstring :=
  first ++ concat groups ++ cents.

(** A period that [normalizeNumber] drops. *)
Definition thousandsAt (c : char16) (rest : jsstring) : bool :=
  (46 =? c)%N && beforeThreeDigits rest.

Definition threeDigits (g : jsstring) : bool :=
  (length g =? 3)%nat && forallb isDigit g.

(** ** The page

    The functions of the component [Home] that prepare the records,
    check the company and add up the summary, and the handler that
    generates the file. *)

Module Page.

(** [value.replace] with [/\D/g] and the empty string: every code unit
    that is no digit is dropped. *)
Definition sanitizeDocument (value : jsstring) : jsstring :=
  replaceAll (Chr (fun c => negb (isDigit c))) [] value.

(** A record as [handleFileUpload] keeps it: [{ ...darf, cnpj:
    sanitizeDocument(darf.cnpj) }]. *)
Definition received (darf : DarfRecord) : DarfRecord :=
  {| id := id darf;
     nome := nome darf;
     periodoApuracao := periodoApuracao darf;
     cnpj := sanitizeDocument (cnpj darf);
     codigoReceita := codigoReceita darf;
     numeroReferencia := numeroReferencia darf;
     dataVencimento := dataVencimento darf;
     valorPrincipal := valorPrincipal darf;
     valorMulta := valorMulta darf;
     valorJuros := valorJuros darf;
     valorTotal := valorTotal darf |}.

(** [if (!value) missing.push(label)]. *)
Definition missing (value label : jsstring) : list jsstring :=
  match value with
  | [] => [label]
  | _ => []
  end.

(** The labels are the code units the source file holds. *)
Definition validateCompany (company : CompanyInfo) : list jsstring :=
  missing (Company.banco company) (js "Banco")
  ++ missing (Company.agencia company) (js "Ag" ++ [195; 170]%N ++ js "ncia")
  ++ missing (Company.dvAgencia company) (js "DV da ag" ++ [195; 170]%N ++ js "ncia")
  ++ missing (Company.conta company) (js "Conta")
  ++ missing (Company.dvConta company) (js "D" ++ [195; 173]%N ++ js "gito da conta")
  ++ missing (Company.convenio company) (js "Conv" ++ [195; 170]%N ++ js "nio")
  ++ missing (Company.empresa company) (js "Empresa")
  ++ missing (Company.cnpj company) (js "CNPJ").

(** An entry of the map [byCodigo]. *)
Record CodeGroup := {
  g_codigoReceita : jsstring;
  g_quantidade : number;
  g_valorPrincipal : number;
  g_valorMulta : number;
  g_valorJuros : number;
  g_valorTotal : number
}.

(** The state of [darfs.forEach]: the five totals and the map, its
    entries in the order they were inserted. *)
Record Tally := {
  t_guias : number;
  t_principal : number;
  t_multa : number;
  t_juros : number;
  t_geral : number;
  byCodigo : list (jsstring * CodeGroup)
}.

(** [byCodigo.set(key, group)]: the entry of a key that is there is
    replaced in its place, a new key goes last. *)
Fixpoint mapSet (m : list (jsstring * CodeGroup)) (key : jsstring) (g : CodeGroup)
  : list (jsstring * CodeGroup) :=
  match m with
  | [] => [(key, g)]
  | (k, v) :: rest =>
      if jsEqb k key then (k, g) :: rest else (k, v) :: mapSet rest key g
  end.

(** The callback of [darfs.forEach]. *)
Definition tally (s : Tally) (darf : DarfRecord) : Tally :=
  let existing :=
    match lookup (byCodigo s) (codigoReceita darf) with
    | Some g => g
    | None =>
        {| g_codigoReceita := codigoReceita darf; g_quantidade := ofInt 0;
           g_valorPrincipal := ofInt 0; g_valorMulta := ofInt 0;
           g_valorJuros := ofInt 0; g_valorTotal := ofInt 0 |}
    end in
  let existing :=
    {| g_codigoReceita := g_codigoReceita existing;
       g_quantidade := add (g_quantidade existing) (ofInt 1);
       g_valorPrincipal := add (g_valorPrincipal existing) (valorPrincipal darf);
       g_valorMulta := add (g_valorMulta existing) (valorMulta darf);
       g_valorJuros := add (g_valorJuros existing) (valorJuros darf);
       g_valorTotal := add (g_valorTotal existing) (valorTotal darf) |} in
  {| t_guias := add (t_guias s) (ofInt 1);
     t_principal := add (t_principal s) (valorPrincipal darf);
     t_multa := add (t_multa s) (valorMulta darf);
     t_juros := add (t_juros s) (valorJuros darf);
     t_geral := add (t_geral s) (valorTotal darf);
     byCodigo := mapSet (byCodigo s) (codigoReceita darf) existing |}.

Record Summary := {
  totalGuias : number;
  totalPrincipal : number;
  totalMulta : number;
  totalJuros : number;
  totalGeral : number;
  porCodigo : list CodeGroup
}.

(** The value of [useMemo]: the totals and [Array.from(byCodigo.values())]. *)
Definition summary (darfs : list DarfRecord) : Summary :=
  let s :=
    fold_left tally darfs
      {| t_guias := ofInt 0; t_principal := ofInt 0; t_multa := ofInt 0;
         t_juros := ofInt 0; t_geral := ofInt 0; byCodigo := [] |} in
  {| totalGuias := t_guias s;
     totalPrincipal := t_principal s;
     totalMulta := t_multa s;
     totalJuros := t_juros s;
     totalGeral := t_geral s;
     porCodigo := List.map snd (byCodigo s) |}.

(** What [handleGenerateRemittance] does: it sets a message and
    returns, or it hands a file to the browser and sets a message. *)
Inductive Outcome :=
| Refused (message : jsstring)
| Downloaded (name content message : jsstring).

Section Handler.

Variable H : Host.

(** [Date.prototype.toISOString]. *)
Variable toISOString : JsDate -> jsstring.

(** The class [[-:T]]. *)
Definition isStampSeparator (c : char16) : bool :=
  ((c =? 45) || (c =? 58) || (c =? 84))%N.

Definition handleGenerateRemittance (company : CompanyInfo)
  (darfs : list DarfRecord) : Clock Outcome :=
  let missingFields := validateCompany company in
  match missingFields with
  | _ :: _ =>
      ret (Refused (js "Preencha os campos obrigat" ++ [195; 179]%N ++ js "rios: "
                    ++ join (js ", ") missingFields ++ js "."))
  | [] =>
      match darfs with
      | [] =>
          ret (Refused (js "Importe um PDF com ao menos uma guia de DARF antes de gerar a remessa."))
      | _ =>
          remittance <- generateSantanderRemittance H company darfs ;;
          stamp <- newDate H ;;
          let timestamp :=
            slice (replaceAll (Chr isStampSeparator) [] (toISOString stamp))
              0 (Some 14%Z) in
          ret (Downloaded (js "REM_" ++ timestamp ++ js ".rem") remittance
                 (js "Arquivo de remessa gerado com sucesso!"))
      end
  end.

End Handler.

End Page.

(** ** The route: [POST] of [src/app/api/darfs/parse/route.ts] *)

Module Route.



Section Post.

(** The uploaded file, and its text as [pdfParse] extracts it from the
    bytes of the file; [None] is a call that throws. *)
Variable File : Type.
Variable pdfText : File -> option jsstring.
Variable randomUUID : nat -> jsstring.


End Post.

End Route.

(** ** Vocabulary of the summary *)

(** The revenue codes of a list of records, each once, in the order
    they first appear. *)
Definition codesOf (darfs : list DarfRecord) : list jsstring :=
  fold_left
    (fun codes darf =>
       if existsb (jsEqb (codigoReceita darf)) codes then codes
       else codes ++ [codigoReceita darf])
    darfs [].

(** The records of one revenue code. *)
Definition ofCode (code : jsstring) (darfs : list DarfRecord) : list DarfRecord :=
  filter (fun darf => jsEqb (codigoReceita darf) code) darfs.

(** The number of the records of a list, as the page counts them:
    one more for every record. *)
Definition counted (darfs : list DarfRecord) : number :=
  fold_left (fun n _ => add n (ofInt 1)) darfs (ofInt 0).

(** The group of one revenue code: the records counted and their
    amounts added up in the order of the list. *)
Definition groupOf (code : jsstring) (darfs : list DarfRecord) : Page.CodeGroup :=
  {| Page.g_codigoReceita := code;
     Page.g_quantidade := counted darfs;
     Page.g_valorPrincipal := total valorPrincipal darfs;
     Page.g_valorMulta := total valorMulta darfs;
     Page.g_valorJuros := total valorJuros darfs;
     Page.g_valorTotal := total valorTotal darfs |}.

(** ** Vocabulary of the page and of the route *)

Definition holdsText (value : jsstring) : bool :=
  match value with
  | [] => false
  | _ => true
  end.

(** Every field of the company holds some text. *)
Definition filled (company : CompanyInfo) : bool :=
  forallb holdsText
    [Company.banco company; Company.agencia company; Company.dvAgencia company;
     Company.conta company; Company.dvConta company; Company.convenio company;
     Company.empresa company; Company.cnpj company].

(** The fields of the company that hold no text. *)
Definition emptyFields (company : CompanyInfo) : nat :=
  length
    (filter (fun value => negb (holdsText value))
       [Company.banco company; Company.agencia company; Company.dvAgencia company;
        Company.conta company; Company.dvConta company; Company.convenio company;
        Company.empresa company; Company.cnpj company]).

(** A company with every field filled in, and a clock in ISO 8601. *)
Definition completeCompany : CompanyInfo :=
  {| Company.banco := js "033";
     Company.agencia := js "1234";
     Company.dvAgencia := js "5";
     Company.conta := js "130001234";
     Company.dvConta := js "7";
     Company.convenio := js "00331234";
     Company.empresa := js "Acme Ltda";
     Company.cnpj := js "12.345.678/0001-90" |}.

Definition sampleISO (d : JsDate) : jsstring := js "2024-03-15T10:30:45.123Z".

(** ** Vocabulary of a guide *)








(** ** Vocabulary of the lines and of the dates *)

(** A text in which no carriage return stands immediately before a
    line feed. *)
Fixpoint noCRLF (s : jsstring) : bool :=
  match s with
  | [] => true
  | c :: rest =>
      match rest with
      | d :: _ => negb ((c =? 13) && (d =? 10))%N
      | [] => true
      end && noCRLF rest
  end.

(** A record whose name holds a carriage return and a line feed that
    do not stand together. *)
Definition loneBreakDarf : DarfRecord :=
  {| id := js "id-2";
     nome := js "Joao" ++ [13%N] ++ js "da" ++ [10%N] ++ js "Silva";
     periodoApuracao := js "31/01/2024";
     cnpj := js "12.345.678/0001-90";
     codigoReceita := js "0561";
     numeroReferencia := js "123456";
     dataVencimento := js "20/02/2024";
     valorPrincipal := ofInt 0;
     valorMulta := ofInt 0;
     valorJuros := ofInt 0;
     valorTotal := ofInt 0 |}.

(** A text that begins with a date as it is written: two digits, a
    slash or a dash, two digits, a slash or a dash, and four digits;
    [day], [month] and [year] are its digits. *)
Definition beginsWithDate (w day month year : jsstring) : Prop :=
  exists d1 d2 s1 m1 m2 s2 y1 y2 y3 y4 rest,
    w = d1 :: d2 :: s1 :: m1 :: m2 :: s2 :: y1 :: y2 :: y3 :: y4 :: rest
    /\ day = [d1; d2] /\ month = [m1; m2] /\ year = [y1; y2; y3; y4]
    /\ forallb isDigit (day ++ month ++ year) = true
    /\ (s1 = 47%N \/ s1 = 45%N) /\ (s2 = 47%N \/ s2 = 45%N).

(** A date is written in the text [s] from its index [k] on. *)
Definition holdsDateAt (k : nat) (s : jsstring) : Prop :=
  exists day month year, beginsWithDate (skipn k s) day month year.

(** Eight digits that write the date [d] as DDMMYYYY: the day, the
    month counted from one, and the year. *)
Definition writesDate (digits : jsstring) (d : JsDate) : Prop :=
  length digits = 8%nat /\ forallb isDigit digits = true
  /\ Z.of_N (valueOfDigits (field 0 2 digits)) = getDate d
  /\ Z.of_N (valueOfDigits (field 2 2 digits)) = (getMonth d + 1)%Z
  /\ Z.of_N (valueOfDigits (field 4 4 digits)) = getFullYear d.

(** A text [formatDateToCnab] reads a date in: trimmed, it is eight
    digits, or a date is written in it at some place. *)
Definition readable (s : jsstring) : Prop :=
  (length (trim s) = 8%nat /\ forallb isDigit (trim s) = true)
  \/ exists k, holdsDateAt k (trim s).

(** The dates of a record that hold no date: the due date, and the
    assessment period or, when it is empty, the creation date as the
    host formats it. *)
Definition unreadDates (H : Host) (creationDate : JsDate) (darf : DarfRecord) : nat :=
  (if isSome (dateDigits (dataVencimento darf)) then 0 else 1)
  + (if isSome (dateDigits (orElse (periodoApuracao darf)
                              (dateFormat H creationDate)))
     then 0 else 1).

(** A record whose due date holds no date. *)
Definition undatedDarf : DarfRecord :=
  {| id := js "id-3";
     nome := js "Maria Souza";
     periodoApuracao := js "31/01/2024";
     cnpj := js "12.345.678/0001-90";
     codigoReceita := js "0561";
     numeroReferencia := js "123456";
     dataVencimento := js "a definir";
     valorPrincipal := ofInt 0;
     valorMulta := ofInt 0;
     valorJuros := ofInt 0;
     valorTotal := ofInt 0 |}.

(** * Properties *)

(** ** Strings and padding *)

Section Padding.

Lemma cycleFill_length (n : nat) (cur filler : jsstring) :
  filler <> [] -> length (cycleFill n cur filler) = n.
Proof.
  intros Hne. revert cur.
  induction n as [|n IH]; intros cur; simpl; [reflexivity|].
  destruct cur as [|c cur'].
  - destruct filler as [|c f']; [contradiction|]. simpl. now rewrite IH.
  - simpl. now rewrite IH.
Qed.

Lemma cycleFill_single (c : char16) (n : nat) (cur : jsstring) :
  (cur = [] \/ cur = [c]) -> cycleFill n cur [c] = repeat c n.
Proof.
  revert cur. induction n as [|n IH]; intros cur Hcur; simpl; [reflexivity|].
  destruct Hcur as [-> | ->]; rewrite IH; auto.
Qed.

Lemma padStart_length (s : jsstring) (n : nat) (filler : jsstring) :
  filler <> [] -> length (padStart s n filler) = Nat.max n (length s).
Proof.
  intros Hne. unfold padStart.
  destruct (n <=? length s)%nat eqn:E.
  - apply Nat.leb_le in E. lia.
  - apply Nat.leb_gt in E. rewrite length_app, cycleFill_length by assumption. lia.
Qed.

Lemma padEnd_length (s : jsstring) (n : nat) (filler : jsstring) :
  filler <> [] -> length (padEnd s n filler) = Nat.max n (length s).
Proof.
  intros Hne. unfold padEnd.
  destruct (n <=? length s)%nat eqn:E.
  - apply Nat.leb_le in E. lia.
  - apply Nat.leb_gt in E. rewrite length_app, cycleFill_length by assumption. lia.
Qed.

(** [s.slice(-n)] keeps the last [n] code units, and all of [s] when
    [n] is [0]. *)
Lemma slice_last (s : jsstring) (n : nat) :
  slice s (- Z.of_nat n) None = match n with O => s | _ => rightmost n s end.
Proof.
  unfold slice, relIndex, rightmost.
  destruct n as [|n].
  - simpl. rewrite Nat.sub_0_r. apply firstn_all.
  - replace (- Z.of_nat (S n) <? 0)%Z with true by (symmetry; apply Z.ltb_lt; lia).
    replace (Z.to_nat (Z.max (Z.of_nat (length s) + - Z.of_nat (S n)) 0))
      with (length s - S n)%nat by lia.
    rewrite firstn_all2; [reflexivity|]. rewrite length_skipn. lia.
Qed.

Lemma slice_first (s : jsstring) (n : nat) :
  slice s 0 (Some (Z.of_nat n)) = firstn n s.
Proof.
  unfold slice, relIndex. simpl.
  destruct (Z.of_nat n <? 0)%Z eqn:E; [apply Z.ltb_lt in E; lia|].
  rewrite Nat2Z.id, Nat.sub_0_r.
  destruct (Nat.le_gt_cases n (length s)).
  - now rewrite Nat.min_l.
  - rewrite Nat.min_r by lia. now rewrite !firstn_all2 by lia.
Qed.

Lemma padValue_right (value : jsstring) (size : nat) (f : jsstring) :
  padValue value size (Some {| align := Some AlignRight; filler := Some f |})
  = match size with
    | O => value
    | _ => rightmost size (padStart value size f)
    end.
Proof.
  unfold padValue. rewrite slice_last. destruct size; [|reflexivity].
  unfold padStart. reflexivity.
Qed.

Lemma padValue_left (value : jsstring) (size : nat) :
  padValue value size None = firstn size (padEnd value size (js " ")).
Proof. unfold padValue. apply slice_first. Qed.

Lemma padValue_right_length (value : jsstring) (size : nat) (f : jsstring) :
  f <> [] -> (0 < size)%nat ->
  length (padValue value size (Some {| align := Some AlignRight; filler := Some f |}))
  = size.
Proof.
  intros Hf Hs. rewrite padValue_right. destruct size; [lia|].
  unfold rightmost. rewrite length_skipn, padStart_length by assumption. lia.
Qed.

Lemma padValue_left_length (value : jsstring) (size : nat) :
  length (padValue value size None) = size.
Proof.
  rewrite padValue_left, length_firstn, padEnd_length by discriminate. lia.
Qed.

Lemma rightZero_length (value : jsstring) (size : nat) :
  (0 < size)%nat -> length (padValue value size rightZero) = size.
Proof. intros Hs. apply padValue_right_length; [discriminate|assumption]. Qed.

(** A value that fits is kept whole, after the zeros that fill the
    field. *)
Lemma rightZero_fits (value : jsstring) (size : nat) :
  (length value <= size)%nat ->
  padValue value size rightZero = repeat 48%N (size - length value) ++ value.
Proof.
  intros Hfit. unfold rightZero. rewrite padValue_right.
  destruct size as [|n].
  - destruct value; [reflexivity|simpl in Hfit; lia].
  - unfold rightmost, padStart.
    destruct (S n <=? length value)%nat eqn:E.
    + apply Nat.leb_le in E. replace (length value - S n)%nat with O by lia.
      replace (S n - length value)%nat with O by lia. reflexivity.
    + apply Nat.leb_gt in E.
      change (js "0") with [48%N]. rewrite cycleFill_single by auto.
      rewrite length_app, repeat_length.
      match goal with
      | |- skipn ?k _ = _ => replace k with O by lia
      end.
      reflexivity.
Qed.

(** A value that is too long loses its first code units. *)
Lemma rightZero_overflow (value : jsstring) (size : nat) :
  (0 < size <= length value)%nat ->
  padValue value size rightZero = rightmost size value.
Proof.
  intros [Hpos Hlong]. unfold rightZero. rewrite padValue_right.
  destruct size as [|n]; [lia|].
  unfold padStart. apply Nat.leb_le in Hlong. now rewrite Hlong.
Qed.

Lemma trimLeadingZeros_zeros (k : nat) (s : jsstring) :
  trimLeadingZeros (repeat 48%N k ++ s) = trimLeadingZeros s.
Proof. induction k as [|k IH]; simpl; auto. Qed.

End Padding.

(** C8: for every width and every string of at most that many code
    units, a digit string in particular, padding it (right-justified,
    zero fill) and trimming the leading zeros gives the string back
    exactly when it does not begin with a zero; and for every width of
    at least one and every longer input, whatever it holds, the
    padding keeps the rightmost code units only. *)
Theorem padValue_roundtrip (w : nat) (d : jsstring) :
  ((length d <= w)%nat ->
   (hd_error d <> Some 48%N -> trimLeadingZeros (padValue d w rightZero) = d)
   /\ (hd_error d = Some 48%N -> trimLeadingZeros (padValue d w rightZero) <> d))
  /\ ((0 < w < length d)%nat -> padValue d w rightZero = rightmost w d).
Proof.
  split.
  - intros Hfit. rewrite rightZero_fits, trimLeadingZeros_zeros by assumption.
    split.
    + intros Hlead. destruct d as [|c d']; [reflexivity|].
      unfold trimLeadingZeros. cbn [dropWhile].
      destruct (N.eqb_spec 48 c) as [<-|]; [elim Hlead|]; reflexivity.
    + intros Hlead Heq. destruct d as [|c d']; [discriminate|].
      injection Hlead as ->. unfold trimLeadingZeros in Heq. cbn [dropWhile] in Heq.
      change (48 =? 48)%N with true in Heq.
      assert (Hlen : forall s : jsstring,
                (length (dropWhile (N.eqb 48) s) <= length s)%nat).
      { induction s as [|x s IH]; [reflexivity|]. cbn [dropWhile].
        destruct (48 =? x)%N; simpl; lia. }
      specialize (Hlen d'). rewrite Heq in Hlen. simpl in Hlen. lia.
  - intros Hlong. apply rightZero_overflow. lia.
Qed.

Lemma padValue_roundtrip_witness :
  let d := js "1234" in
  trimLeadingZeros (padValue d 6 rightZero) = d
  /\ padValue d 3 rightZero = js "234"
  /\ padValue (js "0123") 2 rightZero = js "23"
  /\ padValue (js "a-b") 2 rightZero = js "-b".
Proof.
  intros d.
  destruct (padValue_roundtrip 6 d) as [Hfit _].
  destruct (padValue_roundtrip 3 d) as [_ Hlong].
  destruct (padValue_roundtrip 2 (js "0123")) as [_ Hzero].
  destruct (padValue_roundtrip 2 (js "a-b")) as [_ Hany].
  split; [|split; [|split]].
  - apply Hfit; [simpl; lia|discriminate].
  - apply Hlong. simpl. lia.
  - apply Hzero. simpl. lia.
  - apply Hany. simpl. lia.
Defined.

(** C8 as the specification words it fails: a digit string that begins
    with a zero does not come back, and a width of zero keeps a longer
    input whole. *)
Lemma padValue_roundtrip_counterexample :
  trimLeadingZeros (padValue (js "007") 5 rightZero) <> js "007"
  /\ trimLeadingZeros (padValue (js "0") 5 rightZero) <> js "0"
  /\ padValue (js "12") 0 rightZero <> rightmost 0 (js "12").
Proof. repeat split; vm_compute; discriminate. Qed.

(** ** Lines of the Encoder *)

Section Lines.

Lemma firstn_repeat (c : char16) (n m : nat) :
  firstn n (repeat c m) = repeat c (Nat.min n m).
Proof.
  revert m. induction n as [|n IH]; intros [|m]; simpl; try reflexivity.
  now rewrite IH.
Qed.

Lemma buildLine_spec (parts : list jsstring) :
  buildLine parts = firstn 240 (concat parts ++ repeat 32%N 240).
Proof.
  unfold buildLine.
  destruct (240 <=? length (concat parts))%nat eqn:E.
  - apply Nat.leb_le in E. change 240%Z with (Z.of_nat 240).
    rewrite slice_first, firstn_app.
    replace (240 - length (concat parts))%nat with O by lia.
    simpl. now rewrite app_nil_r.
  - apply Nat.leb_gt in E. unfold padEnd.
    replace (240 <=? length (concat parts))%nat with false
      by (symmetry; apply Nat.leb_gt; exact E).
    change (js " ") with [32%N]. rewrite cycleFill_single by auto.
    rewrite firstn_app, firstn_all2 by lia. f_equal.
    rewrite firstn_repeat. f_equal. lia.
Qed.

Lemma buildLine_length (parts : list jsstring) : length (buildLine parts) = 240%nat.
Proof.
  rewrite buildLine_spec, length_firstn, length_app, repeat_length. lia.
Qed.

(** A part that lies within the first 240 code units is found at its
    offset. *)
Lemma buildLine_field (pre : list jsstring) (f : jsstring) (post : list jsstring)
  (off : nat) :
  length (concat pre) = off -> (off + length f <= 240)%nat ->
  field off (length f) (buildLine (pre ++ f :: post)) = f.
Proof.
  intros Hoff Hfit. unfold field.
  rewrite buildLine_spec, concat_app, concat_cons, <- !app_assoc.
  rewrite skipn_firstn_comm, skipn_app, Hoff, Nat.sub_diag.
  rewrite skipn_all2 by lia. cbn [skipn app].
  rewrite firstn_firstn, Nat.min_l by lia.
  rewrite firstn_app, Nat.sub_diag, firstn_all. cbn [firstn]. apply app_nil_r.
Qed.

(** A line shorter than 240 code units ends with a filler space. *)
Lemma buildLine_short (parts : list jsstring) :
  (length (concat parts) < 240)%nat ->
  exists body, buildLine parts = body ++ [32%N].
Proof.
  intros Hshort. rewrite buildLine_spec.
  exists (concat parts ++ repeat 32%N (239 - length (concat parts))).
  rewrite firstn_app, firstn_all2 by lia. rewrite <- app_assoc. f_equal.
  rewrite firstn_repeat.
  replace (Nat.min (240 - length (concat parts)) 240)
    with (S (239 - length (concat parts))) by lia.
  rewrite <- repeat_cons. reflexivity.
Qed.

End Lines.

(** ** Decimal digits *)

Section Digits.

Lemma digitsFuel_acc (fuel : nat) (n : N) (acc : jsstring) :
  digitsFuel fuel n acc = digitsFuel fuel n [] ++ acc.
Proof.
  revert n acc. induction fuel as [|fuel IH]; intros n acc; simpl; [reflexivity|].
  destruct (n <? 10)%N; [reflexivity|].
  rewrite IH, (IH _ [_]), <- app_assoc. reflexivity.
Qed.

Lemma digitsFuel_enough (f1 f2 : nat) (n : N) (acc : jsstring) :
  (n < 2 ^ N.of_nat (S f1))%N -> (n < 2 ^ N.of_nat (S f2))%N ->
  digitsFuel (S f1) n acc = digitsFuel (S f2) n acc.
Proof.
  revert f2 n acc. induction f1 as [|f1 IH]; intros f2 n acc H1 H2.
  - simpl. destruct (n <? 10)%N eqn:E; [reflexivity|].
    apply N.ltb_ge in E. change (2 ^ N.of_nat 1)%N with 2%N in H1. lia.
  - cbn [digitsFuel]. destruct (n <? 10)%N eqn:E; [reflexivity|].
    apply N.ltb_ge in E.
    destruct f2 as [|f2].
    + change (2 ^ N.of_nat 1)%N with 2%N in H2. lia.
    + assert (Hhalf : forall f, (n < 2 ^ N.of_nat (S (S f)) -> n / 10 < 2 ^ N.of_nat (S f))%N).
      { intros f Hf. rewrite Nat2N.inj_succ, N.pow_succ_r' in Hf.
        apply N.Div0.div_lt_upper_bound. lia. }
      apply IH; apply Hhalf; assumption.
Qed.

Lemma digitsOfN_small (n : N) : (n < 10)%N -> digitsOfN n = [(48 + n)%N].
Proof.
  intros Hn. unfold digitsOfN. simpl.
  replace (n <? 10)%N with true by (symmetry; apply N.ltb_lt; exact Hn).
  now rewrite N.mod_small.
Qed.

Lemma digitsOfN_step (n : N) :
  (10 <= n)%N -> digitsOfN n = digitsOfN (n / 10) ++ [(48 + n mod 10)%N].
Proof.
  intros Hn. unfold digitsOfN. cbn [digitsFuel].
  replace (n <? 10)%N with false by (symmetry; apply N.ltb_ge; exact Hn).
  rewrite digitsFuel_acc. f_equal.
  assert (Hlog : (0 < N.log2 n)%N).
  { apply N.log2_pos. lia. }
  destruct (N.to_nat (N.log2 n)) as [|f] eqn:Ef; [lia|].
  apply digitsFuel_enough.
  - rewrite <- Ef, N2Nat.id. apply N.Div0.div_lt_upper_bound.
    assert (n < 2 ^ N.succ (N.log2 n))%N by (apply N.log2_spec; lia).
    rewrite N.pow_succ_r' in *. lia.
  - rewrite Nat2N.inj_succ, N2Nat.id.
    destruct (N.eq_dec (n / 10) 0) as [->|Hq]; [simpl; lia|].
    apply N.log2_spec. apply N.neq_0_lt_0. exact Hq.
Qed.

(** Induction on the decimal digits of a number. *)
Lemma digits_ind (P : N -> Prop) :
  (forall n, (n < 10)%N -> P n) ->
  (forall n, (10 <= n)%N -> P (n / 10)%N -> P n) ->
  forall n, P n.
Proof.
  intros Hsmall Hstep n.
  induction n as [n IH] using (well_founded_induction N.lt_wf_0).
  destruct (N.lt_ge_cases n 10) as [Hlt|Hge]; [now apply Hsmall|].
  apply Hstep; [exact Hge|]. apply IH. apply N.Div0.div_lt_upper_bound. lia.
Qed.

Lemma valueOfDigits_snoc (s : jsstring) (c : char16) :
  valueOfDigits (s ++ [c]) = (10 * valueOfDigits s + (c - 48))%N.
Proof. unfold valueOfDigits. now rewrite fold_left_app. Qed.

Lemma valueOfDigits_digitsOfN (n : N) : valueOfDigits (digitsOfN n) = n.
Proof.
  induction n as [n Hn|n Hn IH] using digits_ind.
  - rewrite digitsOfN_small by assumption. unfold valueOfDigits.
    cbn [fold_left]. rewrite (N.add_comm 48), N.add_sub. reflexivity.
  - rewrite digitsOfN_step, valueOfDigits_snoc, IH by assumption.
    rewrite (N.add_comm 48), N.add_sub.
    symmetry. apply N.Div0.div_mod.
Qed.

Lemma isDigit_digitsOfN (n : N) : forallb isDigit (digitsOfN n) = true.
Proof.
  assert (Hd : forall m, (m < 10)%N -> isDigit (48 + m)%N = true).
  { intros m Hm. unfold isDigit. apply andb_true_intro.
    split; apply N.leb_le; lia. }
  induction n as [n Hn|n Hn IH] using digits_ind.
  - rewrite digitsOfN_small by assumption. cbn [forallb]. now rewrite Hd.
  - rewrite digitsOfN_step, forallb_app, IH by assumption. cbn [forallb andb].
    rewrite Hd; [reflexivity|]. apply N.mod_lt. lia.
Qed.

(** A number below [10^k] has at most [k] digits. *)
Lemma length_digitsOfN_le (k : nat) (n : N) :
  (0 < k)%nat -> (n < 10 ^ N.of_nat k)%N -> (length (digitsOfN n) <= k)%nat.
Proof.
  revert k. induction n as [n Hn|n Hn IH] using digits_ind; intros k Hk Hlt.
  - rewrite digitsOfN_small by assumption. simpl. lia.
  - rewrite digitsOfN_step, length_app by assumption. simpl.
    destruct k as [|k]; [lia|].
    destruct k as [|k]; [simpl in Hlt; lia|].
    assert (length (digitsOfN (n / 10)) <= S k)%nat; [|lia].
    apply IH; [lia|]. apply N.Div0.div_lt_upper_bound.
    rewrite <- N.pow_succ_r', <- Nat2N.inj_succ. exact Hlt.
Qed.

(** A number of at least [10^k] has more than [k] digits. *)
Lemma length_digitsOfN_gt (k : nat) (n : N) :
  (10 ^ N.of_nat k <= n)%N -> (k < length (digitsOfN n))%nat.
Proof.
  revert k. induction n as [n Hn|n Hn IH] using digits_ind; intros k Hge.
  - rewrite digitsOfN_small by assumption. simpl.
    destruct k as [|k]; [lia|].
    rewrite Nat2N.inj_succ, N.pow_succ_r' in Hge.
    assert (10 ^ N.of_nat k <> 0)%N by (apply N.pow_nonzero; lia).
    lia.
  - rewrite digitsOfN_step, length_app by assumption. simpl.
    destruct k as [|k]; [lia|].
    assert (k < length (digitsOfN (n / 10)))%nat; [|lia].
    apply IH. apply N.div_le_lower_bound; [lia|].
    rewrite <- N.pow_succ_r', <- Nat2N.inj_succ. exact Hge.
Qed.

Lemma valueOfDigits_zeros (k : nat) (s : jsstring) :
  valueOfDigits (repeat 48%N k ++ s) = valueOfDigits s.
Proof.
  unfold valueOfDigits. rewrite fold_left_app. f_equal.
  induction k as [|k IH]; [reflexivity|]. simpl. exact IH.
Qed.

(** A number that fits a zero-padded field is read back from it. *)
Lemma valueOfDigits_rightZero (w : nat) (n : N) :
  (0 < w)%nat -> (n < 10 ^ N.of_nat w)%N ->
  valueOfDigits (padValue (digitsOfN n) w rightZero) = n.
Proof.
  intros Hw Hn.
  rewrite rightZero_fits by (apply length_digitsOfN_le; assumption).
  now rewrite valueOfDigits_zeros, valueOfDigits_digitsOfN.
Qed.

Lemma isDigit_rightZero (w : nat) (s : jsstring) :
  forallb isDigit s = true -> (length s <= w)%nat ->
  forallb isDigit (padValue s w rightZero) = true.
Proof.
  intros Hs Hfit. rewrite rightZero_fits by assumption.
  rewrite forallb_app. apply andb_true_intro. split; [|exact Hs].
  induction (w - length s)%nat; simpl; auto.
Qed.

End Digits.

(** ** Date encoding *)

Section Dates.

Variable H : Host.

(** [formatDateToCnab] without its fuel: the three cases of a string
    and the one case of a date. *)
Lemma formatDateToCnab_eq (date : DateArg) (t : nat) :
  formatDateToCnab H date t =
  match date with
  | OfDate d => (ddmmyyyy d, t)
  | OfString s =>
      if isEightDigits (trim s) then (trim s, t)
      else
        match matchDate (trim s) with
        | Some (day, month, year) => (day ++ month ++ year, t)
        | None => (ddmmyyyy (now H t), S t)
        end
  end.
Proof.
  unfold formatDateToCnab, bind, ret. destruct date as [s|d]; cbn.
  - destruct (isEightDigits (trim s)); [reflexivity|].
    destruct (matchDate (trim s)) as [[[day month] year]|]; reflexivity.
  - reflexivity.
Qed.

Lemma dateAt_some (s day month year : jsstring) :
  dateAt s = Some (day, month, year) ->
  length (day ++ month ++ year) = 8%nat
  /\ forallb isDigit (day ++ month ++ year) = true.
Proof.
  unfold dateAt.
  destruct s as [|d1 [|d2 [|s1 [|m1 [|m2 [|s2 [|y1 [|y2 [|y3 [|y4 rest]]]]]]]]]];
    try discriminate.
  match goal with
  | |- (if ?c then _ else _) = _ -> _ => destruct c eqn:Hc; [|discriminate]
  end.
  apply andb_prop in Hc as [Hc _]. apply andb_prop in Hc as [Hd _].
  intros Heq. injection Heq as <- <- <-. split; [reflexivity|exact Hd].
Qed.

Lemma matchDate_some (s day month year : jsstring) :
  matchDate s = Some (day, month, year) ->
  length (day ++ month ++ year) = 8%nat
  /\ forallb isDigit (day ++ month ++ year) = true.
Proof.
  induction s as [|c s IH]; cbn [matchDate].
  - destruct (dateAt []) as [[[a b] e]|] eqn:E; [|discriminate].
    intros Heq. injection Heq as -> -> ->. eapply dateAt_some; eassumption.
  - destruct (dateAt (c :: s)) as [[[a b] e]|] eqn:E; [|exact IH].
    intros Heq. injection Heq as -> -> ->. eapply dateAt_some; eassumption.
Qed.

Lemma length_digitsOfN_pos (n : N) : (0 < length (digitsOfN n))%nat.
Proof.
  destruct (N.eq_dec n 0) as [->|Hn]; [simpl; lia|].
  apply (length_digitsOfN_gt 0). simpl. lia.
Qed.

(** A number below 100, padded to two digits. *)
Lemma padStart_two_digits (k : Z) :
  (0 <= k < 100)%Z ->
  length (padStart (intToString k) 2 (js "0")) = 2%nat
  /\ forallb isDigit (padStart (intToString k) 2 (js "0")) = true.
Proof.
  intros Hk. unfold intToString.
  replace (k <? 0)%Z with false by (symmetry; apply Z.ltb_ge; lia).
  unfold digitsOfZ.
  assert (Hlen : (length (digitsOfN (Z.to_N k)) <= 2)%nat).
  { apply length_digitsOfN_le; [lia|]. change (10 ^ N.of_nat 2)%N with 100%N. lia. }
  pose proof (length_digitsOfN_pos (Z.to_N k)) as Hpos.
  pose proof (isDigit_digitsOfN (Z.to_N k)) as Hdig.
  split.
  - rewrite padStart_length by discriminate. lia.
  - unfold padStart. destruct (2 <=? length (digitsOfN (Z.to_N k)))%nat; [exact Hdig|].
    change (js "0") with [48%N]. rewrite cycleFill_single by auto.
    rewrite forallb_app, Hdig, andb_true_r.
    induction (2 - length (digitsOfN (Z.to_N k)))%nat; simpl; auto.
Qed.

Lemma year_four_digits (k : Z) :
  (1000 <= k <= 9999)%Z ->
  length (intToString k) = 4%nat /\ forallb isDigit (intToString k) = true.
Proof.
  intros Hk. unfold intToString.
  replace (k <? 0)%Z with false by (symmetry; apply Z.ltb_ge; lia).
  unfold digitsOfZ. split; [|apply isDigit_digitsOfN].
  assert (length (digitsOfN (Z.to_N k)) <= 4)%nat.
  { apply length_digitsOfN_le; [lia|]. change (10 ^ N.of_nat 4)%N with 10000%N. lia. }
  assert (3 < length (digitsOfN (Z.to_N k)))%nat.
  { apply length_digitsOfN_gt. change (10 ^ N.of_nat 3)%N with 1000%N. lia. }
  lia.
Qed.

Lemma padStart_two_value (k : Z) :
  (0 <= k < 100)%Z ->
  Z.of_N (valueOfDigits (padStart (intToString k) 2 (js "0"))) = k.
Proof.
  intros Hk. unfold intToString.
  replace (k <? 0)%Z with false by (symmetry; apply Z.ltb_ge; lia).
  unfold digitsOfZ, padStart.
  destruct (2 <=? length (digitsOfN (Z.to_N k)))%nat.
  - rewrite valueOfDigits_digitsOfN. lia.
  - change (js "0") with [48%N]. rewrite cycleFill_single by auto.
    rewrite valueOfDigits_zeros, valueOfDigits_digitsOfN. lia.
Qed.

Lemma year_value (k : Z) :
  (0 <= k)%Z -> Z.of_N (valueOfDigits (intToString k)) = k.
Proof.
  intros Hk. unfold intToString.
  replace (k <? 0)%Z with false by (symmetry; apply Z.ltb_ge; lia).
  unfold digitsOfZ. rewrite valueOfDigits_digitsOfN. lia.
Qed.

Lemma ddmmyyyy_valid (d : JsDate) :
  validDate d ->
  length (ddmmyyyy d) = 8%nat /\ forallb isDigit (ddmmyyyy d) = true.
Proof.
  intros (Hday & Hmonth & Hyear). unfold ddmmyyyy.
  destruct (padStart_two_digits (getDate d)) as [L1 D1]; [lia|].
  destruct (padStart_two_digits (getMonth d + 1)) as [L2 D2]; [lia|].
  destruct (year_four_digits _ Hyear) as [L3 D3].
  rewrite !length_app, !forallb_app, L1, L2, L3, D1, D2, D3. split; reflexivity.
Qed.

Lemma isSpace_digit (c : char16) : isDigit c = true -> isSpace c = false.
Proof.
  unfold isDigit, isSpace. intros Hd. apply andb_prop in Hd as [H1 H2].
  apply N.leb_le in H1, H2.
  repeat match goal with
         | |- context [(?a <=? ?b)%N] =>
             destruct (N.leb_spec a b); try lia
         | |- context [(?a =? ?b)%N] =>
             destruct (N.eqb_spec a b); try lia
         end;
  reflexivity.
Qed.

Lemma dropWhile_head (p : char16 -> bool) (s : jsstring) :
  (forall c, hd_error s = Some c -> p c = false) -> dropWhile p s = s.
Proof.
  destruct s as [|c s]; [reflexivity|]. intros Hc. simpl.
  now rewrite (Hc c eq_refl).
Qed.

Lemma trim_digits (s : jsstring) : forallb isDigit s = true -> trim s = s.
Proof.
  intros Hs. unfold trim.
  assert (Hhd : forall l c, forallb isDigit l = true -> hd_error l = Some c ->
                            isSpace c = false).
  { intros [|x l] c Hl Hc; [discriminate|]. injection Hc as <-.
    simpl in Hl. apply andb_prop in Hl as [Hx _]. now apply isSpace_digit. }
  rewrite (dropWhile_head isSpace s) by (intros c; apply Hhd; exact Hs).
  rewrite dropWhile_head; [apply rev_involutive|].
  intros c. apply Hhd. rewrite forallb_forall in *. intros x Hx.
  apply Hs. now apply in_rev.
Qed.

Lemma isEightDigits_spec (s : jsstring) :
  isEightDigits s = true -> length s = 8%nat /\ forallb isDigit s = true.
Proof.
  unfold isEightDigits. intros Hs. apply andb_prop in Hs as [Hl Hd].
  apply Nat.eqb_eq in Hl. auto.
Qed.

(** The result of [formatDateToCnab] is eight digits when the dates it
    prints are valid. *)
Lemma formatDateToCnab_digits (date : DateArg) (t : nat) :
  match date with
  | OfDate d => validDate d
  | OfString _ => validDate (now H t)
  end ->
  length (fst (formatDateToCnab H date t)) = 8%nat
  /\ forallb isDigit (fst (formatDateToCnab H date t)) = true.
Proof.
  intros Hvalid. rewrite formatDateToCnab_eq. destruct date as [s|d].
  - destruct (isEightDigits (trim s)) eqn:E8.
    + now apply isEightDigits_spec.
    + destruct (matchDate (trim s)) as [[[day month] year]|] eqn:Em.
      * eapply matchDate_some. exact Em.
      * now apply ddmmyyyy_valid.
  - now apply ddmmyyyy_valid.
Qed.

End Dates.

(** ** Dates as they are written *)

Section WrittenDates.

Variable H : Host.

Lemma dateAt_written (w day month year : jsstring) :
  dateAt w = Some (day, month, year) <-> beginsWithDate w day month year.
Proof.
  split.
  - unfold dateAt.
    destruct w as [|d1 [|d2 [|s1 [|m1 [|m2 [|s2 [|y1 [|y2 [|y3 [|y4 rest]]]]]]]]]];
      try discriminate.
    match goal with
    | |- (if ?c then _ else _) = _ -> _ => destruct c eqn:Hc; [|discriminate]
    end.
    apply andb_prop in Hc as [Hc Hs2]. apply andb_prop in Hc as [Hd Hs1].
    intros Heq. injection Heq as <- <- <-.
    exists d1, d2, s1, m1, m2, s2, y1, y2, y3, y4, rest.
    repeat split; try reflexivity; [exact Hd| |].
    + unfold isDateSep in Hs1. apply orb_prop in Hs1 as [E|E];
        apply N.eqb_eq in E; auto.
    + unfold isDateSep in Hs2. apply orb_prop in Hs2 as [E|E];
        apply N.eqb_eq in E; auto.
  - intros (d1 & d2 & s1 & m1 & m2 & s2 & y1 & y2 & y3 & y4 & rest
            & -> & -> & -> & -> & Hd & Hs1 & Hs2).
    unfold dateAt. cbn [app] in Hd. rewrite Hd.
    assert (E1 : isDateSep s1 = true) by (destruct Hs1 as [->| ->]; reflexivity).
    assert (E2 : isDateSep s2 = true) by (destruct Hs2 as [->| ->]; reflexivity).
    now rewrite E1, E2.
Qed.

Lemma dateAt_nowhere (w : jsstring) :
  ~ (exists day month year, beginsWithDate w day month year) -> dateAt w = None.
Proof.
  intros Hnone. destruct (dateAt w) as [[[day month] year]|] eqn:E; [|reflexivity].
  exfalso. apply Hnone. exists day, month, year. now apply dateAt_written.
Qed.

(** [matchDate] finds the first place a date is written at. *)
Lemma matchDate_first (k : nat) :
  forall s g,
    dateAt (skipn k s) = Some g ->
    (forall j, (j < k)%nat -> dateAt (skipn j s) = None) ->
    matchDate s = Some g.
Proof.
  induction k as [|k IH]; intros s g Hhere Hbefore.
  - cbn [skipn] in Hhere. destruct s; cbn [matchDate]; now rewrite Hhere.
  - destruct s as [|c s]; [discriminate Hhere|].
    pose proof (Hbefore 0%nat ltac:(lia)) as Hfirst. cbn [skipn] in Hfirst.
    cbn [matchDate]. rewrite Hfirst.
    apply IH; [exact Hhere|]. intros j Hj. apply (Hbefore (S j)). lia.
Qed.

Lemma matchDate_nowhere (s : jsstring) :
  (forall j, dateAt (skipn j s) = None) -> matchDate s = None.
Proof.
  induction s as [|c s IH]; intros Hnone.
  - pose proof (Hnone 0%nat) as Hfirst. cbn [skipn] in Hfirst.
    cbn [matchDate]. now rewrite Hfirst.
  - pose proof (Hnone 0%nat) as Hfirst. cbn [skipn] in Hfirst.
    cbn [matchDate]. rewrite Hfirst. apply IH.
    intros j. apply (Hnone (S j)).
Qed.

Lemma ddmmyyyy_writes (d : JsDate) : validDate d -> writesDate (ddmmyyyy d) d.
Proof.
  intros Hvalid. destruct (ddmmyyyy_valid d Hvalid) as [L8 D8].
  destruct Hvalid as (Hday & Hmonth & Hyear).
  split; [exact L8|]. split; [exact D8|].
  destruct (padStart_two_digits (getDate d)) as [L1 _]; [lia|].
  destruct (padStart_two_digits (getMonth d + 1)) as [L2 _]; [lia|].
  pose proof (padStart_two_value (getDate d) ltac:(lia)) as V1.
  pose proof (padStart_two_value (getMonth d + 1)%Z ltac:(lia)) as V2.
  pose proof (year_value (getFullYear d) ltac:(lia)) as V3.
  destruct (year_four_digits _ Hyear) as [L3 _].
  unfold ddmmyyyy, field.
  set (a := padStart (intToString (getDate d)) 2 (js "0")) in *.
  set (b := padStart (intToString (getMonth d + 1)) 2 (js "0")) in *.
  set (c := intToString (getFullYear d)) in *.
  destruct a as [|a1 [|a2 [|? ?]]]; try discriminate L1.
  destruct b as [|b1 [|b2 [|? ?]]]; try discriminate L2.
  destruct c as [|c1 [|c2 [|c3 [|c4 [|? ?]]]]]; try discriminate L3.
  cbn [app skipn firstn]. repeat split; assumption.
Qed.

End WrittenDates.

(** C5: for every due-date string the date encoding returns eight
    digits, whatever the string (the clock reading a date in a
    four-digit year).  A string that, trimmed, is eight digits passes
    through as it is trimmed; else the first place of the string where
    two digits, a slash or a dash, two digits, a slash or a dash and
    four digits are written gives the eight digits, day, month and
    year; and any other string, such as abc, gives the date the clock
    reads, as the two digits of the day, the two of the month and the
    four of the year.  Only in the last case is the clock read. *)
Theorem formatDateToCnab_dueDate (H : Host) (s : jsstring) (t : nat)
  (Hclock : validDate (now H t)) :
  let r := fst (formatDateToCnab H (OfString s) t) in
  let t' := snd (formatDateToCnab H (OfString s) t) in
  (length r = 8%nat /\ forallb isDigit r = true)
  /\ (length s = 8%nat -> forallb isDigit s = true -> r = s)
  /\ (length (trim s) = 8%nat -> forallb isDigit (trim s) = true ->
      r = trim s /\ t' = t)
  /\ (forall k day month year,
        beginsWithDate (skipn k (trim s)) day month year ->
        (forall j, (j < k)%nat -> ~ holdsDateAt j (trim s)) ->
        r = day ++ month ++ year /\ t' = t)
  /\ (length (trim s) <> 8%nat \/ forallb isDigit (trim s) = false ->
      (forall j, ~ holdsDateAt j (trim s)) ->
      writesDate r (now H t) /\ t' = S t)
  /\ writesDate (fst (formatDateToCnab H (OfString (js "abc")) t)) (now H t).
Proof.
  intros r t'.
  assert (Height : length (trim s) = 8%nat -> forallb isDigit (trim s) = true ->
                   r = trim s /\ t' = t).
  { intros Hlen Hdig. subst r t'. rewrite formatDateToCnab_eq.
    unfold isEightDigits. rewrite Hlen, Hdig. now split. }
  split; [|split; [|split; [|split; [|split]]]].
  - apply (formatDateToCnab_digits H (OfString s) t Hclock).
  - intros Hlen Hdig. pose proof (trim_digits s Hdig) as Htrim.
    destruct Height as [Hr _]; [now rewrite Htrim|now rewrite Htrim|].
    now rewrite Hr.
  - exact Height.
  - intros k day month year Hhere Hbefore. subst r t'.
    rewrite formatDateToCnab_eq.
    assert (Hlong : (10 <= length (trim s))%nat).
    { destruct Hhere as (d1 & d2 & s1 & m1 & m2 & s2 & y1 & y2 & y3 & y4 & rest
                         & Hw & _).
      apply (f_equal (@length char16)) in Hw. rewrite length_skipn in Hw.
      cbn [length] in Hw. change char16 with N in *. lia. }
    replace (isEightDigits (trim s)) with false.
    2:{ unfold isEightDigits. symmetry. apply andb_false_intro1.
        apply Nat.eqb_neq. change char16 with N in *. lia. }
    rewrite (matchDate_first k (trim s) (day, month, year)); [now split| |].
    + now apply dateAt_written.
    + intros j Hj. apply dateAt_nowhere. exact (Hbefore j Hj).
  - intros Hnot Hnone. subst r t'. rewrite formatDateToCnab_eq.
    replace (isEightDigits (trim s)) with false.
    2:{ unfold isEightDigits. symmetry. destruct Hnot as [Hlen|Hdig].
        - apply andb_false_intro1. now apply Nat.eqb_neq.
        - now apply andb_false_intro2. }
    rewrite matchDate_nowhere by (intros j; apply dateAt_nowhere; exact (Hnone j)).
    cbn [fst snd]. split; [now apply ddmmyyyy_writes|reflexivity].
  - rewrite formatDateToCnab_eq.
    change (fst (ddmmyyyy (now H t), S t)) with (ddmmyyyy (now H t)).
    now apply ddmmyyyy_writes.
Qed.

Lemma formatDateToCnab_dueDate_witness :
  validDate (now sampleHost 0)
  /\ fst (formatDateToCnab sampleHost (OfString (js "20/02/2024")) 0) = js "20022024"
  /\ fst (formatDateToCnab sampleHost (OfString (js "Venc. 20-02-2024 ")) 0)
     = js "20022024"
  /\ fst (formatDateToCnab sampleHost (OfString (js " 20022024 ")) 0) = js "20022024"
  /\ fst (formatDateToCnab sampleHost (OfString (js "abc")) 0) = js "02112026".
Proof.
  assert (Hclock : validDate (now sampleHost 0)) by (vm_compute; intuition discriminate).
  split; [exact Hclock|]. split; [|split; [|split]].
  - destruct (formatDateToCnab_dueDate sampleHost (js "20/02/2024") 0 Hclock)
      as (_ & _ & _ & Hdate & _).
    apply (Hdate 0%nat (js "20") (js "02") (js "2024")).
    + exists 50%N, 48%N, 47%N, 48%N, 50%N, 47%N, 50%N, 48%N, 50%N, 52%N, [].
      repeat split; auto.
    + intros j Hj. lia.
  - destruct (formatDateToCnab_dueDate sampleHost (js "Venc. 20-02-2024 ") 0 Hclock)
      as (_ & _ & _ & Hdate & _).
    apply (Hdate 6%nat (js "20") (js "02") (js "2024")).
    + exists 50%N, 48%N, 45%N, 48%N, 50%N, 45%N, 50%N, 48%N, 50%N, 52%N, [].
      repeat split; auto.
    + intros j Hj (day & month & year & Hw).
      apply dateAt_written in Hw.
      do 6 (destruct j as [|j]; [discriminate Hw|]). lia.
  - destruct (formatDateToCnab_dueDate sampleHost (js " 20022024 ") 0 Hclock)
      as (_ & _ & Height & _).
    apply Height; reflexivity.
  - reflexivity.
Defined.

(** C10: the date encoding ends on every input: a date is answered by
    the first call, a string by the first call or by the one call it
    makes on the date just read, so two levels of calls always give a
    result; that result is eight digits when the date printed is valid. *)
Theorem formatDateToCnab_terminates (H : Host) (date : DateArg) (t : nat) :
  (forall d, formatDateToCnabFuel H 1 (OfDate d) t = (Some (ddmmyyyy d), t))
  /\ (forall extra,
        formatDateToCnabFuel H (2 + extra) date t
        = (Some (fst (formatDateToCnab H date t)), snd (formatDateToCnab H date t)))
  /\ (match date with
      | OfDate d => validDate d
      | OfString _ => validDate (now H t)
      end ->
      length (fst (formatDateToCnab H date t)) = 8%nat
      /\ forallb isDigit (fst (formatDateToCnab H date t)) = true).
Proof.
  split; [reflexivity|]. split; [|apply formatDateToCnab_digits].
  intros extra. rewrite formatDateToCnab_eq. destruct date as [s|d]; cbn.
  - destruct (isEightDigits (trim s)); [reflexivity|].
    destruct (matchDate (trim s)) as [[[day month] year]|]; reflexivity.
  - reflexivity.
Qed.

Lemma formatDateToCnab_terminates_witness :
  formatDateToCnabFuel sampleHost 2 (OfString (js "abc")) 0 = (Some (js "02112026"), 1%nat)
  /\ formatDateToCnabFuel sampleHost 1 (OfString (js "abc")) 0 = (None, 1%nat)
  /\ length (fst (formatDateToCnab sampleHost (OfString (js "abc")) 0)) = 8%nat.
Proof.
  destruct (formatDateToCnab_terminates sampleHost (OfString (js "abc")) 0)
    as (_ & Hfuel & Hdigits).
  split; [exact (Hfuel 0%nat)|]. split; [reflexivity|].
  apply Hdigits. vm_compute; intuition discriminate.
Defined.

(** ** Texts without line breaks *)

Section NoBreak.

Lemma noBreak_app (a b : jsstring) : noBreak (a ++ b) = noBreak a && noBreak b.
Proof. apply forallb_app. Qed.

Lemma noBreak_digits (s : jsstring) : forallb isDigit s = true -> noBreak s = true.
Proof.
  unfold noBreak. rewrite !forallb_forall. intros Hs c Hc.
  specialize (Hs c Hc). unfold isDigit in Hs. apply andb_prop in Hs as [H1 H2].
  apply N.leb_le in H1, H2. unfold isLineBreak.
  destruct (N.eqb_spec c 13); [lia|]. destruct (N.eqb_spec c 10); [lia|].
  reflexivity.
Qed.

Lemma noBreak_firstn_skipn (n : nat) (s : jsstring) :
  noBreak s = true ->
  noBreak (firstn n s) = true /\ noBreak (skipn n s) = true.
Proof.
  intros Hs. rewrite <- (firstn_skipn n s), noBreak_app in Hs.
  now apply andb_prop in Hs.
Qed.

Lemma noBreak_firstn (n : nat) (s : jsstring) :
  noBreak s = true -> noBreak (firstn n s) = true.
Proof. intros Hs. now apply noBreak_firstn_skipn. Qed.

Lemma noBreak_skipn (n : nat) (s : jsstring) :
  noBreak s = true -> noBreak (skipn n s) = true.
Proof. intros Hs. now apply noBreak_firstn_skipn. Qed.

Lemma noBreak_repeat (c : char16) (n : nat) :
  isLineBreak c = false -> noBreak (repeat c n) = true.
Proof.
  intros Hc. induction n as [|n IH]; [reflexivity|].
  simpl. rewrite Hc. exact IH.
Qed.

Lemma noBreak_cycleFill (n : nat) (cur filler : jsstring) :
  noBreak filler = true -> noBreak cur = true ->
  noBreak (cycleFill n cur filler) = true.
Proof.
  intros Hf. revert cur. induction n as [|n IH]; intros cur Hcur; [reflexivity|].
  cbn [cycleFill]. destruct cur as [|c cur'].
  - destruct filler as [|c f']; [reflexivity|].
    simpl in Hf. apply andb_prop in Hf as [Hc Hf'].
    simpl. rewrite Hc. apply IH. exact Hf'.
  - simpl in Hcur. apply andb_prop in Hcur as [Hc Hcur'].
    simpl. rewrite Hc. apply IH. exact Hcur'.
Qed.

Lemma noBreak_padStart (s : jsstring) (n : nat) (f : jsstring) :
  noBreak f = true -> noBreak s = true -> noBreak (padStart s n f) = true.
Proof.
  intros Hf Hs. unfold padStart. destruct (n <=? length s)%nat; [exact Hs|].
  now rewrite noBreak_app, noBreak_cycleFill, Hs.
Qed.

Lemma noBreak_padEnd (s : jsstring) (n : nat) (f : jsstring) :
  noBreak f = true -> noBreak s = true -> noBreak (padEnd s n f) = true.
Proof.
  intros Hf Hs. unfold padEnd. destruct (n <=? length s)%nat; [exact Hs|].
  now rewrite noBreak_app, noBreak_cycleFill, Hs.
Qed.

Lemma noBreak_slice (s : jsstring) (a : Z) (b : option Z) :
  noBreak s = true -> noBreak (slice s a b) = true.
Proof. intros Hs. unfold slice. now apply noBreak_firstn, noBreak_skipn. Qed.

Lemma noBreak_rightZero (s : jsstring) (n : nat) :
  noBreak s = true -> noBreak (padValue s n rightZero) = true.
Proof.
  intros Hs. unfold padValue, rightZero. now apply noBreak_slice, noBreak_padStart.
Qed.

Lemma noBreak_padLeft (s : jsstring) (n : nat) :
  noBreak s = true -> noBreak (padValue s n None) = true.
Proof.
  intros Hs. unfold padValue. now apply noBreak_slice, noBreak_padEnd.
Qed.

Lemma noBreak_sanitizeNumber (s : jsstring) : noBreak (sanitizeNumber s) = true.
Proof.
  apply noBreak_digits. unfold sanitizeNumber. apply forallb_forall.
  intros c Hc. now apply filter_In in Hc.
Qed.

Lemma noBreak_digitsOfZ (k : Z) : noBreak (digitsOfZ k) = true.
Proof. apply noBreak_digits, isDigit_digitsOfN. Qed.

Lemma noBreak_intToString (k : Z) : noBreak (intToString k) = true.
Proof.
  unfold intToString. destruct (k <? 0)%Z; [|apply noBreak_digitsOfZ].
  rewrite noBreak_app, noBreak_digitsOfZ. reflexivity.
Qed.

Lemma noBreak_zeros (n : Z) : noBreak (zeros n) = true.
Proof. unfold zeros. now apply noBreak_repeat. Qed.

Lemma noBreak_formatDecimal (s k n : Z) : noBreak (formatDecimal s k n) = true.
Proof.
  unfold formatDecimal.
  repeat match goal with
         | |- noBreak (if ?c then _ else _) = true => destruct c
         | |- noBreak (_ ++ _) = true =>
             rewrite noBreak_app; apply andb_true_intro; split
         | |- noBreak (firstn _ _) = true => apply noBreak_firstn
         | |- noBreak (skipn _ _) = true => apply noBreak_skipn
         | |- noBreak (digitsOfZ _) = true => apply noBreak_digitsOfZ
         | |- noBreak (zeros _) = true => apply noBreak_zeros
         | |- noBreak (js _) = true => reflexivity
         end.
Qed.

Lemma noBreak_positiveToString (z : Z) : noBreak (positiveToString z) = true.
Proof.
  unfold positiveToString.
  destruct ((z mod scale =? 0)%Z && (z / scale <? 2 ^ 53)%Z);
    [apply noBreak_digitsOfZ|].
  destruct (shortestDecimal z) as [[s k] n]. apply noBreak_formatDecimal.
Qed.

Lemma noBreak_numberToString (x : number) : noBreak (numberToString x) = true.
Proof.
  destruct x as [|[|]| |z]; try reflexivity. unfold numberToString.
  destruct (z =? 0)%Z; [reflexivity|].
  destruct (z <? 0)%Z; [|apply noBreak_positiveToString].
  rewrite noBreak_app, noBreak_positiveToString. reflexivity.
Qed.

Lemma noBreak_toCnabNumber (x : number) (n : nat) :
  noBreak (toCnabNumber x n) = true.
Proof. apply noBreak_rightZero, noBreak_numberToString. Qed.

Lemma noBreak_concat (parts : list jsstring) :
  Forall (fun p => noBreak p = true) parts -> noBreak (concat parts) = true.
Proof.
  induction 1 as [|p parts Hp _ IH]; [reflexivity|].
  simpl. now rewrite noBreak_app, Hp, IH.
Qed.

Lemma noBreak_buildLine (parts : list jsstring) :
  Forall (fun p => noBreak p = true) parts -> noBreak (buildLine parts) = true.
Proof.
  intros Hparts. rewrite buildLine_spec. apply noBreak_firstn.
  rewrite noBreak_app, (noBreak_concat _ Hparts). now apply noBreak_repeat.
Qed.

(** A text without line breaks holds no separator. *)
Lemma splitCRLF_noBreak (l piece rest : jsstring) :
  noBreak l = true ->
  splitCRLF piece (l ++ rest) = splitCRLF (rev l ++ piece) rest.
Proof.
  revert piece. induction l as [|c l IH]; intros piece Hl; [reflexivity|].
  simpl in Hl. apply andb_prop in Hl as [Hc Hl].
  unfold isLineBreak in Hc. apply negb_true_iff, orb_false_elim in Hc as [Hc _].
  cbn [app splitCRLF]. rewrite Hc, IH by assumption.
  cbn [rev]. now rewrite <- app_assoc.
Qed.

(** Splitting the joined lines gives the lines back. *)
Lemma splitCRLF_join (l : jsstring) (ls : list jsstring) (piece : jsstring) :
  Forall (fun p => noBreak p = true) (l :: ls) ->
  splitCRLF piece (join crlf (l :: ls)) = (rev piece ++ l) :: ls.
Proof.
  revert l piece. induction ls as [|l2 ls IH]; intros l piece Hall.
  - inversion Hall as [|? ? Hl _]; subst. cbn [join].
    rewrite <- (app_nil_r l) at 1. rewrite splitCRLF_noBreak by assumption.
    cbn [splitCRLF]. now rewrite rev_app_distr, rev_involutive.
  - inversion Hall as [|? ? Hl Hrest]; subst.
    change (join crlf (l :: l2 :: ls)) with (l ++ crlf ++ join crlf (l2 :: ls)).
    rewrite splitCRLF_noBreak by assumption.
    unfold crlf. cbn [app splitCRLF N.eqb Pos.eqb].
    rewrite IH by assumption. now rewrite rev_app_distr, rev_involutive.
Qed.

End NoBreak.

(** ** The lines of a remittance *)

Section Remittance.

Variable H : Host.

(** What [darfs.map] returns: one line per record, numbered from the
    starting value of the counter, with the two dates as
    [formatDateToCnab] encodes them. *)
Lemma detailLinesFrom_spec (creationDate : JsDate) (darfs : list DarfRecord)
  (sequential t : nat) :
  length (fst (detailLinesFrom H creationDate sequential darfs t)) = length darfs
  /\ forall i darf,
       nth_error darfs i = Some darf ->
       exists t1 t2,
         nth_error (fst (detailLinesFrom H creationDate sequential darfs t)) i
         = Some (detailOf H (sequential + i) darf
                   (fst (formatDateToCnab H
                           (OfString (orElse (periodoApuracao darf)
                                        (dateFormat H creationDate))) t2))
                   (fst (formatDateToCnab H (OfString (dataVencimento darf)) t1))).
Proof.
  revert sequential t.
  induction darfs as [|darf rest IH]; intros sequential t.
  - split; [reflexivity|]. intros [|i] d Hd; discriminate.
  - cbn [detailLinesFrom]. unfold bind, ret.
    destruct (detailLine H creationDate sequential darf t) as [line t1] eqn:Eline.
    specialize (IH (S sequential) t1).
    destruct (detailLinesFrom H creationDate (S sequential) rest t1) as [lines t2].
    cbn [ret fst] in *. destruct IH as [IHlen IHnth]. split.
    + simpl. now rewrite IHlen.
    + intros [|i] d Hd.
      * injection Hd as <-. unfold detailLine, bind, ret in Eline.
        destruct (formatDateToCnab H (OfString (dataVencimento darf)) t)
          as [v tv] eqn:Ev.
        destruct (formatDateToCnab H
                    (OfString (orElse (periodoApuracao darf)
                                 (dateFormat H creationDate))) tv)
          as [p tp] eqn:Ep.
        injection Eline as <- _. exists t, tv.
        rewrite Ev, Ep, Nat.add_0_r. reflexivity.
      * destruct (IHnth i d Hd) as (t1' & t2' & Hnth).
        exists t1', t2'. cbn [nth_error].
        rewrite Hnth. now rewrite Nat.add_succ_r.
Qed.

(** The array [lines]: the two headers, the detail lines and the two
    trailers. *)
Lemma remittanceLines_eq (company : CompanyInfo) (darfs : list DarfRecord) (t : nat) :
  let details := fst (detailLinesFrom H (now H t) 1 darfs (S t)) in
  fst (remittanceLines H company darfs t)
  = [headerArquivo H company (ddmmyyyy (now H t)) (fileTimeOf (now H t));
     headerLote H company (ddmmyyyy (now H t)) darfs]
    ++ details ++ [trailerLote darfs details; trailerArquivo details].
Proof.
  unfold remittanceLines, bind, ret, newDate.
  rewrite formatDateToCnab_eq.
  destruct (detailLinesFrom H (now H t) 1 darfs (S t)) as [details t'].
  reflexivity.
Qed.

Lemma generateSantanderRemittance_eq (company : CompanyInfo)
  (darfs : list DarfRecord) (t : nat) :
  fst (generateSantanderRemittance H company darfs t)
  = join crlf (fst (remittanceLines H company darfs t)).
Proof.
  unfold generateSantanderRemittance, bind, ret.
  now destruct (remittanceLines H company darfs t).
Qed.

Lemma noBreak_formatDateToCnab (date : DateArg) (t : nat) :
  noBreak (fst (formatDateToCnab H date t)) = true.
Proof.
  assert (Hdate : forall d, noBreak (ddmmyyyy d) = true).
  { intros d. unfold ddmmyyyy.
    rewrite !noBreak_app, !noBreak_padStart, noBreak_intToString;
      auto using noBreak_intToString. }
  rewrite formatDateToCnab_eq. destruct date as [s|d]; [|apply Hdate].
  destruct (isEightDigits (trim s)) eqn:E8.
  - now apply noBreak_digits, isEightDigits_spec.
  - destruct (matchDate (trim s)) as [[[day month] year]|] eqn:Em; [|apply Hdate].
    apply noBreak_digits. eapply matchDate_some. exact Em.
Qed.

Ltac noBreak_parts :=
  repeat match goal with
         | |- Forall _ [] => apply Forall_nil
         | |- Forall _ (_ :: _) => apply Forall_cons
         | |- noBreak (toCnabNumber _ _) = true => apply noBreak_toCnabNumber
         | |- noBreak (padValue _ _ rightZero) = true => apply noBreak_rightZero
         | |- noBreak (padValue _ _ None) = true => apply noBreak_padLeft
         | |- noBreak (sanitizeNumber _) = true => apply noBreak_sanitizeNumber
         | |- noBreak (padStart _ _ _) = true => apply noBreak_padStart
         | |- noBreak (digitsOfN _) = true =>
             apply noBreak_digits, isDigit_digitsOfN
         | |- noBreak (js _) = true => reflexivity
         | |- noBreak _ = true => assumption
         end.

Lemma noBreak_detailOf (sequential : nat) (darf : DarfRecord) (period vencimento : jsstring) :
  noBreak (toUpperCase H (nome darf)) = true ->
  noBreak (codigoReceita darf) = true ->
  noBreak period = true -> noBreak vencimento = true ->
  noBreak (detailOf H sequential darf period vencimento) = true.
Proof.
  intros Hnome Hcodigo Hperiod Hvencimento.
  unfold detailOf, natToString. apply noBreak_buildLine. noBreak_parts.
Qed.

Lemma noBreak_headers (company : CompanyInfo) (darfs : list DarfRecord) (t : nat) :
  noBreak (toUpperCase H (Company.empresa company)) = true ->
  noBreak (headerArquivo H company (ddmmyyyy (now H t)) (fileTimeOf (now H t))) = true
  /\ noBreak (headerLote H company (ddmmyyyy (now H t)) darfs) = true.
Proof.
  intros Hname.
  pose proof (noBreak_formatDateToCnab (OfDate (now H t)) t) as Hdate.
  rewrite formatDateToCnab_eq in Hdate. cbn [fst] in Hdate.
  assert (Htime : noBreak (fileTimeOf (now H t)) = true).
  { unfold fileTimeOf. rewrite noBreak_app, !noBreak_padStart;
      auto using noBreak_intToString. }
  split; unfold headerArquivo, headerLote, bancoOf, agenciaOf, dvAgenciaOf,
    contaOf, dvContaOf, convenioOf, cnpjOf, companyNameOf, natToString;
    apply noBreak_buildLine; noBreak_parts.
Qed.

Lemma noBreak_trailers (darfs : list DarfRecord) (details : list jsstring) :
  noBreak (trailerLote darfs details) = true
  /\ noBreak (trailerArquivo details) = true.
Proof.
  split; unfold trailerLote, trailerArquivo, natToString;
    apply noBreak_buildLine; noBreak_parts.
Qed.

End Remittance.

Section RemittanceLines.

Variable H : Host.

Lemma detailOf_length (sequential : nat) (darf : DarfRecord) (period vencimento : jsstring) :
  length (detailOf H sequential darf period vencimento) = 240%nat.
Proof. apply buildLine_length. Qed.

Lemma buildLine_marker (c : char16) (parts : list jsstring) :
  field 0 1 (buildLine ([c] :: parts)) = [c].
Proof. apply (buildLine_field [] [c] parts); simpl; [reflexivity|lia]. Qed.

(** Every detail line satisfies what every line built by [detailOf]
    from encoded dates satisfies. *)
Lemma detailLines_Forall (P : jsstring -> Prop) (creationDate : JsDate)
  (darfs : list DarfRecord) (sequential t : nat) :
  (forall i darf t1 t2,
      nth_error darfs i = Some darf ->
      P (detailOf H (sequential + i) darf
           (fst (formatDateToCnab H
                   (OfString (orElse (periodoApuracao darf)
                                (dateFormat H creationDate))) t2))
           (fst (formatDateToCnab H (OfString (dataVencimento darf)) t1)))) ->
  Forall P (fst (detailLinesFrom H creationDate sequential darfs t)).
Proof.
  intros HP. destruct (detailLinesFrom_spec H creationDate darfs sequential t)
    as [Hlen Hnth].
  apply Forall_forall. intros line Hin.
  apply In_nth_error in Hin as [i Hi].
  assert (Hlt : (i < length darfs)%nat).
  { rewrite <- Hlen. apply nth_error_Some. now rewrite Hi. }
  destruct (nth_error darfs i) as [darf|] eqn:Ed;
    [|apply nth_error_None in Ed; lia].
  destruct (Hnth i darf Ed) as (t1 & t2 & Hline).
  rewrite Hline in Hi. injection Hi as <-. now apply HP.
Qed.

End RemittanceLines.

(** ** Splitting the text into its lines *)

Section SplitLines.

Lemma noCRLF_noBreak (s : jsstring) : noBreak s = true -> noCRLF s = true.
Proof.
  induction s as [|c s IH]; [reflexivity|]. cbn [noBreak forallb noCRLF].
  intros Hs. apply andb_prop in Hs as [Hc Hs]. rewrite (IH Hs), andb_true_r.
  destruct s as [|d s]; [reflexivity|].
  unfold isLineBreak in Hc. destruct (c =? 13)%N; [discriminate|reflexivity].
Qed.

(** A text without the pair is read through to its end, when no line
    feed follows it. *)
Lemma splitCRLF_noCRLF (l : jsstring) :
  forall piece rest,
    noCRLF l = true ->
    match rest with
    | [] => True
    | d :: _ => d <> 10%N
    end ->
    splitCRLF piece (l ++ rest) = splitCRLF (rev l ++ piece) rest.
Proof.
  induction l as [|c l IH]; intros piece rest Hl Hrest; [reflexivity|].
  cbn [noCRLF] in Hl. apply andb_prop in Hl as [Hpair Hl].
  cbn [app splitCRLF rev]. rewrite <- app_assoc. cbn [app].
  rewrite <- (IH (c :: piece) rest Hl Hrest).
  destruct (N.eqb_spec c 13) as [->|Hc]; [|reflexivity].
  destruct l as [|d l].
  - cbn [app]. destruct rest as [|d rest]; [reflexivity|].
    destruct (N.eqb_spec d 10) as [->|]; [contradiction|reflexivity].
  - cbn [app]. cbn [N.eqb Pos.eqb andb] in Hpair.
    destruct (d =? 10)%N; [discriminate|reflexivity].
Qed.

Lemma splitCRLF_lines (l : jsstring) (ls : list jsstring) (piece : jsstring) :
  Forall (fun line => noCRLF line = true) (l :: ls) ->
  splitCRLF piece (join crlf (l :: ls))
  = (rev piece ++ l) :: match ls with [] => [] | _ => ls end.
Proof.
  revert l piece. induction ls as [|l' ls IH]; intros l piece Hall.
  - inversion Hall as [|? ? Hl _]; subst. cbn [join].
    replace (splitCRLF piece l) with (splitCRLF piece (l ++ []))
      by now rewrite app_nil_r.
    etransitivity; [exact (splitCRLF_noCRLF l piece [] Hl I)|]. cbn [splitCRLF].
    now rewrite rev_app_distr, rev_involutive.
  - inversion Hall as [|? ? Hl Hrest]; subst.
    change (join crlf (l :: l' :: ls)) with (l ++ crlf ++ join crlf (l' :: ls)).
    etransitivity;
      [apply (splitCRLF_noCRLF l piece _ Hl); cbn; discriminate|].
    unfold crlf at 1. cbn [app splitCRLF N.eqb Pos.eqb].
    rewrite (IH l' [] Hrest). cbn [rev app].
    rewrite rev_app_distr, rev_involutive. f_equal. now destruct ls.
Qed.

Lemma noCRLF_snoc (s : jsstring) (c : char16) :
  noCRLF (s ++ [c])
  = noCRLF s
    && negb (match hd_error (rev s) with
             | Some b => (b =? 13)%N
             | None => false
             end && (c =? 10)%N).
Proof.
  induction s as [|x s IH]; [reflexivity|].
  cbn [app noCRLF]. rewrite IH.
  destruct s as [|y s].
  - cbn. destruct (x =? 13)%N, (c =? 10)%N; reflexivity.
  - cbn [app rev]. 
    assert (Hhd : forall a : jsstring, a <> [] -> forall b, hd_error (a ++ b) = hd_error a).
    { intros [|u a] Hne b; [contradiction|reflexivity]. }
    assert (Hne : rev s ++ [y] <> []) by (destruct (rev s); discriminate).
    rewrite (Hhd _ Hne [x]).
    destruct (negb ((x =? 13)%N && (y =? 10)%N)); [|reflexivity].
    cbn [andb]. reflexivity.
Qed.

(** Every piece of a split is a text without the pair. *)
Lemma splitCRLF_pieces (n : nat) :
  forall s piece,
    (length s <= n)%nat ->
    noCRLF (rev piece) = true ->
    ~ (hd_error piece = Some 13%N /\ hd_error s = Some 10%N) ->
    Forall (fun line => noCRLF line = true) (splitCRLF piece s).
Proof.
  induction n as [|n IH]; intros s piece Hlen Hpiece Hlast.
  - destruct s; [|simpl in Hlen; lia]. cbn [splitCRLF]. now constructor.
  - destruct s as [|c s]; [cbn [splitCRLF]; now constructor|].
    cbn [length] in Hlen.
    assert (Hnext : noCRLF (rev (c :: piece)) = true).
    { cbn [rev]. rewrite noCRLF_snoc. apply andb_true_intro.
      split; [exact Hpiece|]. rewrite rev_involutive.
      destruct (hd_error piece) as [b|] eqn:Eb; [|reflexivity].
      destruct (N.eqb_spec b 13) as [->|]; [|reflexivity].
      destruct (N.eqb_spec c 10) as [->|]; [|reflexivity].
      exfalso. apply Hlast. now split. }
    cbn [splitCRLF].
    destruct (N.eqb_spec c 13) as [->|Hc].
    + destruct s as [|d s].
      * apply IH; [simpl; lia|exact Hnext|]. intros [_ Hd]. discriminate.
      * destruct (N.eqb_spec d 10) as [->|Hd].
        -- constructor; [exact Hpiece|].
           apply IH; [simpl in Hlen; lia|reflexivity|]. intros [Hp _]. discriminate.
        -- apply IH; [simpl in *; lia|exact Hnext|].
           intros [_ Hd']. injection Hd' as ->. contradiction.
    + apply IH; [lia|exact Hnext|]. intros [Hp _]. injection Hp as ->. contradiction.
Qed.

(** Splitting the joined lines gives the lines back exactly when no
    line holds the pair. *)
Lemma splitCRLF_join_iff (l : jsstring) (ls : list jsstring) :
  splitCRLF [] (join crlf (l :: ls)) = l :: ls
  <-> Forall (fun line => noCRLF line = true) (l :: ls).
Proof.
  split.
  - intros Hsplit. rewrite <- Hsplit.
    apply (splitCRLF_pieces (length (join crlf (l :: ls)))); [apply Nat.le_refl|reflexivity|].
    intros [Hp _]. discriminate.
  - intros Hall. rewrite (splitCRLF_lines l ls [] Hall). now destruct ls.
Qed.

End SplitLines.

(** C1: for every company and every list of N records the text the
    Encoder returns is the CRLF join of N + 4 lines: file header, batch
    header, N detail lines, batch trailer, file trailer (record types
    0, 1, 3, 5, 9), each of 240 code units; the text ends with a filler
    space, not with a line terminator.  The text splits on CRLF into
    exactly these lines if and only if no line holds a carriage return
    immediately before a line feed; that is so whenever the company
    name and the payer names (upper-cased) and the revenue codes hold
    no carriage return and no line feed. *)
Theorem remittance_lines (H : Host) (company : CompanyInfo)
  (darfs : list DarfRecord) (t : nat) :
  let lines := fst (remittanceLines H company darfs t) in
  let text := fst (generateSantanderRemittance H company darfs t) in
  text = join crlf lines
  /\ length lines = (length darfs + 4)%nat
  /\ Forall (fun line => length line = 240%nat) lines
  /\ List.map (field 0 1) lines
     = [js "0"; js "1"] ++ repeat (js "3") (length darfs) ++ [js "5"; js "9"]
  /\ (exists body, text = body ++ js " ")
  /\ (splitCRLF [] text = lines <-> Forall (fun line => noCRLF line = true) lines)
  /\ (noBreak (toUpperCase H (Company.empresa company)) = true ->
      Forall (fun darf => noBreak (toUpperCase H (nome darf)) = true
                          /\ noBreak (codigoReceita darf) = true) darfs ->
      Forall (fun line => noBreak line = true) lines
      /\ splitCRLF [] text = lines).
Proof.
  intros lines text.
  assert (Htext : text = join crlf lines) by apply generateSantanderRemittance_eq.
  pose proof (remittanceLines_eq H company darfs t) as Hlines.
  cbv zeta in Hlines. fold lines in Hlines.
  set (details := fst (detailLinesFrom H (now H t) 1 darfs (S t))) in *.
  destruct (detailLinesFrom_spec H (now H t) darfs 1 (S t)) as [Hlen _].
  fold details in Hlen.
  split; [exact Htext|]. split; [|split; [|split; [|split; [|split]]]].
  - rewrite Hlines. cbn [app length]. rewrite length_app, Hlen. simpl. lia.
  - rewrite Hlines. repeat apply Forall_cons; try apply buildLine_length.
    apply Forall_app. split.
    + apply detailLines_Forall. intros. apply detailOf_length.
    + repeat apply Forall_cons; try apply Forall_nil;
        unfold trailerLote, trailerArquivo; apply buildLine_length.
  - rewrite Hlines. cbn [app List.map]. rewrite map_app. cbn [List.map].
    unfold headerArquivo, headerLote, trailerLote, trailerArquivo.
    change (js "0") with [48%N]. change (js "1") with [49%N].
    change (js "5") with [53%N]. change (js "9") with [57%N].
    rewrite !buildLine_marker. do 2 f_equal. f_equal.
    rewrite <- Hlen.
    assert (Hmark : Forall (fun line => field 0 1 line = js "3") details).
    { apply detailLines_Forall. intros. apply buildLine_marker. }
    clear -Hmark. induction Hmark as [|line rest Hline _ IH]; [reflexivity|].
    simpl. now rewrite Hline, IH.
  - rewrite Htext, Hlines.
    destruct (buildLine_short
                [js "9"; padValue (js "0001") 6 rightZero;
                 padValue (natToString (length details + 4)) 6 rightZero;
                 padValue (js " ") 213 None]) as [body Hbody].
    { cbn [concat]. rewrite !length_app, !rightZero_length, padValue_left_length by lia.
      simpl. lia. }
    fold (trailerArquivo details) in Hbody.
    assert (Hjoin : forall ls l b, l = b ++ js " " ->
                                   exists b', join crlf (ls ++ [l]) = b' ++ js " ").
    { intros ls l b ->. induction ls as [|x ls IH].
      - exists b. reflexivity.
      - destruct IH as [b' Hb']. cbn [app].
        destruct (ls ++ [b ++ js " "]) as [|y ys] eqn:E.
        + destruct ls; discriminate.
        + exists (x ++ crlf ++ b').
          change (join crlf (x :: y :: ys)) with (x ++ crlf ++ join crlf (y :: ys)).
          rewrite Hb'. now rewrite <- !app_assoc. }
    change ([headerArquivo H company (ddmmyyyy (now H t)) (fileTimeOf (now H t));
             headerLote H company (ddmmyyyy (now H t)) darfs]
            ++ details ++ [trailerLote darfs details; trailerArquivo details])
      with (([headerArquivo H company (ddmmyyyy (now H t)) (fileTimeOf (now H t));
              headerLote H company (ddmmyyyy (now H t)) darfs]
             ++ details) ++ [trailerLote darfs details] ++ [trailerArquivo details]).
    rewrite app_assoc. eapply Hjoin. exact Hbody.
  - rewrite Htext, Hlines. cbn [app]. apply splitCRLF_join_iff.
  - intros Hcompany Hdarfs.
    assert (Hall : Forall (fun line => noBreak line = true) lines).
    { rewrite Hlines. cbn [app].
      destruct (noBreak_headers H company darfs t Hcompany) as [Hh1 Hh2].
      destruct (noBreak_trailers darfs details) as [Ht1 Ht2].
      repeat apply Forall_cons; try assumption.
      apply Forall_app. split; [|repeat apply Forall_cons; auto].
      apply detailLines_Forall. intros i darf t1 t2 Hnth.
      apply nth_error_In in Hnth. rewrite Forall_forall in Hdarfs.
      destruct (Hdarfs darf Hnth) as [Hnome Hcodigo].
      apply noBreak_detailOf; auto using noBreak_formatDateToCnab. }
    split; [exact Hall|].
    rewrite Htext. revert Hall. rewrite Hlines. cbn [app]. intros Hall.
    now apply splitCRLF_join.
Qed.

Lemma remittance_lines_witness :
  let darfs := [sampleDarf; sampleDarf] in
  let text := fst (generateSantanderRemittance sampleHost sampleCompany darfs 0) in
  let lone := fst (generateSantanderRemittance sampleHost sampleCompany
                     [loneBreakDarf] 0) in
  length (splitCRLF [] text) = 6%nat
  /\ Forall (fun line => length line = 240%nat) (splitCRLF [] text)
  /\ noBreak (toUpperCase sampleHost (nome loneBreakDarf)) = false
  /\ List.map (@length char16) (splitCRLF [] lone) = [240; 240; 240; 240; 240]%nat.
Proof.
  intros darfs text lone.
  assert (Hcompany : noBreak (toUpperCase sampleHost (Company.empresa sampleCompany)) = true)
    by reflexivity.
  assert (Hdarfs : Forall (fun darf => noBreak (toUpperCase sampleHost (nome darf)) = true
                                       /\ noBreak (codigoReceita darf) = true) darfs)
    by (repeat constructor).
  destruct (remittance_lines sampleHost sampleCompany darfs 0)
    as (_ & Hlen & Hall & _ & _ & _ & Hsplit).
  destruct (Hsplit Hcompany Hdarfs) as [_ Hlines].
  fold text in Hlines. rewrite Hlines.
  split; [exact Hlen|]. split; [exact Hall|]. split; [reflexivity|].
  destruct (remittance_lines sampleHost sampleCompany [loneBreakDarf] 0)
    as (_ & _ & _ & _ & _ & Hiff & _).
  fold lone in Hiff.
  assert (Hpairs : Forall (fun line => noCRLF line = true)
                     (fst (remittanceLines sampleHost sampleCompany [loneBreakDarf] 0)))
    by (vm_compute; repeat constructor).
  rewrite (proj2 Hiff Hpairs). vm_compute. reflexivity.
Defined.

(** C1 as the specification words it fails: a payer name that holds a
    CRLF puts a line break inside a detail line, and the text of one
    record splits into six pieces, two of them shorter than 240. *)
Lemma remittance_lines_counterexample :
  let text := fst (generateSantanderRemittance sampleHost sampleCompany [brokenDarf] 0) in
  List.map (@length char16) (splitCRLF [] text)
  = [240; 240; 30; 208; 240; 240]%nat.
Proof. vm_compute. reflexivity. Qed.

(** ** Fields of the lines *)

Section Fields.

Variable H : Host.

Lemma buildLine_fieldAt (pre : list jsstring) (f : jsstring) (post : list jsstring)
  (off len : nat) :
  length (concat pre) = off -> length f = len -> (off + len <= 240)%nat ->
  field off len (buildLine (pre ++ f :: post)) = f.
Proof. intros Hoff <- Hfit. now apply buildLine_field. Qed.

Lemma detailOf_sequence (sequential : nat) (darf : DarfRecord) (period vencimento : jsstring) :
  field 5 5 (detailOf H sequential darf period vencimento)
  = padValue (natToString sequential) 5 rightZero.
Proof.
  unfold detailOf.
  apply (buildLine_fieldAt [js "3"; padValue (js "0001") 4 rightZero]);
    [reflexivity|apply rightZero_length; lia|lia].
Qed.

Lemma trailerLote_count (darfs : list DarfRecord) (details : list jsstring) :
  field 5 6 (trailerLote darfs details)
  = padValue (natToString (length details + 2)) 6 rightZero.
Proof.
  unfold trailerLote.
  apply (buildLine_fieldAt [js "5"; padValue (js "0001") 4 rightZero]);
    [reflexivity|apply rightZero_length; lia|lia].
Qed.

Lemma trailerArquivo_count (details : list jsstring) :
  field 7 6 (trailerArquivo details)
  = padValue (natToString (length details + 4)) 6 rightZero.
Proof.
  unfold trailerArquivo.
  apply (buildLine_fieldAt [js "9"; padValue (js "0001") 6 rightZero]);
    [reflexivity|apply rightZero_length; lia|lia].
Qed.

(** Where the lines stand in the array: the detail line of record [i]
    at index [i + 2], the batch trailer and the file trailer after the
    last of them. *)
Lemma remittanceLines_nth (company : CompanyInfo) (darfs : list DarfRecord) (t : nat) :
  let lines := fst (remittanceLines H company darfs t) in
  let details := fst (detailLinesFrom H (now H t) 1 darfs (S t)) in
  length details = length darfs
  /\ nth 0 lines []
     = headerArquivo H company (ddmmyyyy (now H t)) (fileTimeOf (now H t))
  /\ nth 1 lines [] = headerLote H company (ddmmyyyy (now H t)) darfs
  /\ (forall i, (i < length darfs)%nat -> nth (i + 2) lines [] = nth i details [])
  /\ nth (length darfs + 2) lines [] = trailerLote darfs details
  /\ nth (length darfs + 3) lines [] = trailerArquivo details.
Proof.
  intros lines details.
  destruct (detailLinesFrom_spec H (now H t) darfs 1 (S t)) as [Hlen _].
  fold details in Hlen.
  unfold lines. rewrite remittanceLines_eq. fold details.
  split; [exact Hlen|]. split; [reflexivity|]. split; [reflexivity|].
  rewrite <- Hlen. split; [|split].
  - intros i Hi. rewrite Nat.add_comm. cbn [app Nat.add nth].
    now apply app_nth1.
  - rewrite Nat.add_comm. cbn [app Nat.add nth].
    rewrite app_nth2, Nat.sub_diag by lia. reflexivity.
  - rewrite Nat.add_comm. cbn [app Nat.add nth].
    rewrite app_nth2 by lia.
    now replace (S (length details) - length details)%nat with 1%nat by lia.
Qed.

(** The three counters of a file, as the code pads them. *)
Lemma remittance_counters (company : CompanyInfo) (darfs : list DarfRecord) (t : nat) :
  let lines := fst (remittanceLines H company darfs t) in
  field 5 6 (nth (length darfs + 2) lines [])
  = padValue (natToString (length darfs + 2)) 6 rightZero
  /\ field 7 6 (nth (length darfs + 3) lines [])
     = padValue (natToString (length darfs + 4)) 6 rightZero
  /\ forall i, (i < length darfs)%nat ->
       field 5 5 (nth (i + 2) lines [])
       = padValue (natToString (i + 1)) 5 rightZero.
Proof.
  intros lines.
  destruct (remittanceLines_nth company darfs t)
    as (Hlen & _ & _ & Hdetail & Hlote & Harquivo).
  fold lines in Hdetail, Hlote, Harquivo.
  split; [|split].
  - now rewrite Hlote, trailerLote_count, Hlen.
  - now rewrite Harquivo, trailerArquivo_count, Hlen.
  - intros i Hi. rewrite (Hdetail i Hi).
    destruct (detailLinesFrom_spec H (now H t) darfs 1 (S t)) as [_ Hnth].
    destruct (nth_error darfs i) as [darf|] eqn:Ed;
      [|apply nth_error_None in Ed; lia].
    destruct (Hnth i darf Ed) as (t1 & t2 & Hline).
    rewrite (nth_error_nth _ _ _ Hline), detailOf_sequence.
    now rewrite (Nat.add_comm 1 i).
Qed.

Lemma bancoOf_default (company : CompanyInfo) :
  Company.banco company = [] -> bancoOf company = js "033".
Proof. intros Hbanco. unfold bancoOf. now rewrite Hbanco. Qed.

End Fields.

(** C9: when the bank code of the company is the empty string, the
    three characters of the bank code in the file header (offset 2) and
    in the batch header (offset 1) are 033. *)
Theorem banco_default (H : Host) (company : CompanyInfo) (darfs : list DarfRecord)
  (t : nat) (Hbanco : Company.banco company = []) :
  let lines := fst (remittanceLines H company darfs t) in
  field 2 3 (nth 0 lines []) = js "033" /\ field 1 3 (nth 1 lines []) = js "033".
Proof.
  intros lines.
  destruct (remittanceLines_nth H company darfs t) as (_ & Harquivo & Hlote & _).
  fold lines in Harquivo, Hlote. rewrite Harquivo, Hlote.
  unfold headerArquivo, headerLote. rewrite (bancoOf_default company Hbanco).
  split.
  - apply (buildLine_fieldAt [js "0"; js "1"]); [reflexivity|reflexivity|lia].
  - apply (buildLine_fieldAt [js "1"]); [reflexivity|reflexivity|lia].
Qed.

Lemma banco_default_witness :
  Company.banco sampleCompany = []
  /\ let lines := fst (remittanceLines sampleHost sampleCompany [sampleDarf] 0) in
     field 2 3 (nth 0 lines []) = js "033" /\ field 1 3 (nth 1 lines []) = js "033".
Proof.
  split; [reflexivity|].
  exact (banco_default sampleHost sampleCompany [sampleDarf] 0 eq_refl).
Defined.

(** C6: for every list of N records with N + 4 below one million, the
    line count of the batch trailer is N + 2 and the line count of the
    file trailer is N + 4, each as six digits; and the sequence number
    of the detail line of the record at index i is i + 1, as five
    digits, as long as i + 1 is below one hundred thousand.  Beyond
    these bounds each field holds the rightmost six (or five) digits of
    the number only. *)
Theorem remittance_counts (H : Host) (company : CompanyInfo)
  (darfs : list DarfRecord) (t : nat) :
  let lines := fst (remittanceLines H company darfs t) in
  let loteCount := field 5 6 (nth (length darfs + 2) lines []) in
  let fileCount := field 7 6 (nth (length darfs + 3) lines []) in
  let sequence := fun i => field 5 5 (nth (i + 2) lines []) in
  ((N.of_nat (length darfs) + 4 < 1000000)%N ->
   (length loteCount = 6%nat /\ forallb isDigit loteCount = true
    /\ valueOfDigits loteCount = (N.of_nat (length darfs) + 2)%N)
   /\ (length fileCount = 6%nat /\ forallb isDigit fileCount = true
       /\ valueOfDigits fileCount = (N.of_nat (length darfs) + 4)%N))
  /\ (forall i, (i < length darfs)%nat -> (N.of_nat i + 1 < 100000)%N ->
        length (sequence i) = 5%nat /\ forallb isDigit (sequence i) = true
        /\ valueOfDigits (sequence i) = (N.of_nat i + 1)%N)
  /\ ((1000000 <= N.of_nat (length darfs) + 2)%N ->
      loteCount = rightmost 6 (natToString (length darfs + 2)))
  /\ ((1000000 <= N.of_nat (length darfs) + 4)%N ->
      fileCount = rightmost 6 (natToString (length darfs + 4)))
  /\ (forall i, (i < length darfs)%nat -> (100000 <= N.of_nat i + 1)%N ->
        sequence i = rightmost 5 (natToString (i + 1))).
Proof.
  intros lines loteCount fileCount sequence.
  destruct (remittance_counters H company darfs t) as (Hlote & Hfile & Hseq).
  fold lines in Hlote, Hfile, Hseq. fold loteCount in Hlote. fold fileCount in Hfile.
  assert (Hfield : forall w k, (0 < w)%nat -> (N.of_nat k < 10 ^ N.of_nat w)%N ->
            let f := padValue (natToString k) w rightZero in
            length f = w /\ forallb isDigit f = true /\ valueOfDigits f = N.of_nat k).
  { intros w k Hw Hk f. unfold f, natToString. split; [|split].
    - now apply rightZero_length.
    - apply isDigit_rightZero; [apply isDigit_digitsOfN|].
      now apply length_digitsOfN_le.
    - now apply valueOfDigits_rightZero. }
  assert (Hover : forall w k, (0 < w)%nat -> (10 ^ N.of_nat w <= N.of_nat k)%N ->
            padValue (natToString k) w rightZero = rightmost w (natToString k)).
  { intros w k Hw Hk. apply rightZero_overflow. split; [exact Hw|].
    unfold natToString. pose proof (length_digitsOfN_gt w (N.of_nat k) Hk). lia. }
  split; [|split; [|split; [|split]]].
  - intros Hcount. split.
    + rewrite Hlote. replace (N.of_nat (length darfs) + 2)%N
        with (N.of_nat (length darfs + 2)) by lia.
      apply Hfield; [lia|]. change (10 ^ N.of_nat 6)%N with 1000000%N. lia.
    + rewrite Hfile. replace (N.of_nat (length darfs) + 4)%N
        with (N.of_nat (length darfs + 4)) by lia.
      apply Hfield; [lia|]. change (10 ^ N.of_nat 6)%N with 1000000%N. lia.
  - intros i Hi Hsmall. unfold sequence. rewrite (Hseq i Hi).
    replace (N.of_nat i + 1)%N with (N.of_nat (i + 1)) by lia.
    apply Hfield; [lia|]. change (10 ^ N.of_nat 5)%N with 100000%N. lia.
  - intros Hbig. rewrite Hlote. apply Hover; [lia|].
    change (10 ^ N.of_nat 6)%N with 1000000%N. lia.
  - intros Hbig. rewrite Hfile. apply Hover; [lia|].
    change (10 ^ N.of_nat 6)%N with 1000000%N. lia.
  - intros i Hi Hbig. unfold sequence. rewrite (Hseq i Hi). apply Hover; [lia|].
    change (10 ^ N.of_nat 5)%N with 100000%N. lia.
Qed.

Lemma remittance_counts_witness :
  let darfs := [sampleDarf; sampleDarf] in
  let lines := fst (remittanceLines sampleHost sampleCompany darfs 0) in
  valueOfDigits (field 5 6 (nth 4 lines [])) = 4%N
  /\ valueOfDigits (field 7 6 (nth 5 lines [])) = 6%N
  /\ valueOfDigits (field 5 5 (nth 3 lines [])) = 2%N.
Proof.
  intros darfs lines.
  assert (Hcount : (N.of_nat (length darfs) + 4 < 1000000)%N) by reflexivity.
  destruct (remittance_counts sampleHost sampleCompany darfs 0)
    as (Hcounts & Hseq & _).
  destruct (Hcounts Hcount) as ((_ & _ & Hlote) & (_ & _ & Hfile)).
  split; [exact Hlote|]. split; [exact Hfile|].
  apply (Hseq 1%nat); [simpl; lia|reflexivity].
Defined.

(** C6 as the specification words it fails: the fields keep the last
    digits only.  The record of sequence number 100000 carries 00000,
    the batch trailer of 999998 records counts 000000 lines, and so
    does the file trailer of 999996 records. *)
Lemma remittance_counts_counterexample :
  (let darfs := repeat sampleDarf (N.to_nat 100000) in
   let lines := fst (remittanceLines sampleHost sampleCompany darfs 0) in
   field 5 5 (nth (N.to_nat 99999 + 2) lines []) = js "00000")
  /\ (let darfs := repeat sampleDarf (N.to_nat 999998) in
      let lines := fst (remittanceLines sampleHost sampleCompany darfs 0) in
      field 5 6 (nth (length darfs + 2) lines []) = js "000000")
  /\ (let darfs := repeat sampleDarf (N.to_nat 999996) in
      let lines := fst (remittanceLines sampleHost sampleCompany darfs 0) in
      field 7 6 (nth (length darfs + 3) lines []) = js "000000").
Proof.
  assert (Hpad : forall k w text,
            padValue (digitsOfN k) w rightZero = text ->
            forall n, N.of_nat n = k -> padValue (natToString n) w rightZero = text).
  { intros k w text Hk n <-. exact Hk. }
  split; [|split]; intros darfs lines.
  - destruct (remittance_counters sampleHost sampleCompany darfs 0) as (_ & _ & Hseq).
    fold lines in Hseq. rewrite Hseq.
    + apply (Hpad 100000%N); [vm_compute; reflexivity|lia].
    + unfold darfs. rewrite repeat_length. lia.
  - destruct (remittance_counters sampleHost sampleCompany darfs 0) as (Hlote & _).
    fold lines in Hlote. rewrite Hlote.
    apply (Hpad 1000000%N); [vm_compute; reflexivity|].
    unfold darfs. rewrite repeat_length. lia.
  - destruct (remittance_counters sampleHost sampleCompany darfs 0) as (_ & Hfile & _).
    fold lines in Hfile. rewrite Hfile.
    apply (Hpad 1000000%N); [vm_compute; reflexivity|].
    unfold darfs. rewrite repeat_length. lia.
Qed.

(** ** The scan of the Extractor *)

Section ScanFacts.

Variable randomUUID : nat -> jsstring.

Lemma startsWith_eq (a b : jsstring) :
  length a = length b -> startsWith a b = true -> a = b.
Proof.
  revert b. induction a as [|x a IH]; intros [|y b] Hlen Hstart;
    try discriminate; [reflexivity|].
  simpl in Hstart. apply andb_prop in Hstart as [Hxy Hrest].
  apply N.eqb_eq in Hxy. subst y. f_equal. apply IH; [|exact Hrest].
  simpl in Hlen. lia.
Qed.

Lemma jsEqb_eq (a b : jsstring) : jsEqb a b = true <-> a = b.
Proof.
  unfold jsEqb. split.
  - intros Hab. apply andb_prop in Hab as [Hlen Hstart].
    apply Nat.eqb_eq in Hlen. now apply startsWith_eq.
  - intros <-. rewrite Nat.eqb_refl. simpl.
    induction a as [|x a IH]; [reflexivity|]. simpl. now rewrite N.eqb_refl.
Qed.

Lemma jsEqb_sym (a b : jsstring) : jsEqb a b = jsEqb b a.
Proof.
  destruct (jsEqb a b) eqn:Eab, (jsEqb b a) eqn:Eba; try reflexivity.
  - apply jsEqb_eq in Eab. subst b. now rewrite (proj2 (jsEqb_eq a a) eq_refl) in Eba.
  - apply jsEqb_eq in Eba. subst b. now rewrite (proj2 (jsEqb_eq a a) eq_refl) in Eab.
Qed.













End ScanFacts.



(** ** Block segmentation *)

Section Blocks.

Lemma reattach_from (k : nat) (fragments : list jsstring) :
  List.map
    (fun '(index, block) =>
       match index with
       | O => block
       | _ => js "01 NOME " ++ block
       end)
    (combine (List.seq (S k) (length fragments)) fragments)
  = List.map (app (js "01 NOME ")) fragments.
Proof.
  revert k. induction fragments as [|f rest IH]; intros k; [reflexivity|].
  cbn [length List.seq combine List.map]. now rewrite IH.
Qed.

Lemma reattach_spec (fragments : list jsstring) :
  List.map
    (fun '(index, block) =>
       match index with
       | O => block
       | _ => js "01 NOME " ++ block
       end)
    (combine (List.seq 0 (length fragments)) fragments)
  = reattached fragments.
Proof.
  destruct fragments as [|f rest]; [reflexivity|].
  cbn [length List.seq combine List.map reattached]. now rewrite reattach_from.
Qed.

End Blocks.

(** C7: when the split on the marker phrase leaves at most one block,
    the blocks are the fragments of the split on the numbered name
    marker, the marker text put back before every fragment but the
    first, each trimmed, without those that hold none of the ten field
    codes; the whole text (its carriage returns removed) is the one
    block only when no fragment is left.  When the first split leaves
    more than one block, those are the blocks. *)
Theorem parseBlocks_fallback (text : jsstring) :
  let cleaned := replaceAll (unit 13%N) [] text in
  let primary := filter nonEmpty (List.map trim (split darfMarker cleaned)) in
  let kept :=
    filter holdsFieldCode
      (List.map trim (reattached (split nomeMarker cleaned))) in
  ((1 < length primary)%nat -> parseBlocks text = primary)
  /\ ((length primary <= 1)%nat -> kept <> [] -> parseBlocks text = kept)
  /\ ((length primary <= 1)%nat -> kept = [] -> parseBlocks text = [cleaned])
  /\ Forall (fun block => holdsFieldCode block = true) kept.
Proof.
  intros cleaned primary kept.
  assert (Heq : parseBlocks text
                = if (1 <? length primary)%nat then primary
                  else match kept with [] => [cleaned] | _ => kept end).
  { unfold parseBlocks. fold cleaned. fold primary.
    rewrite reattach_spec. reflexivity. }
  split; [|split; [|split]].
  - intros Hmany. rewrite Heq.
    now replace (1 <? length primary)%nat with true by (symmetry; apply Nat.ltb_lt; lia).
  - intros Hfew Hkept. rewrite Heq.
    replace (1 <? length primary)%nat with false by (symmetry; apply Nat.ltb_ge; lia).
    destruct kept; [contradiction|reflexivity].
  - intros Hfew Hkept. rewrite Heq, Hkept.
    now replace (1 <? length primary)%nat with false by (symmetry; apply Nat.ltb_ge; lia).
  - apply Forall_forall. intros block Hin. unfold kept in Hin.
    now apply filter_In in Hin.
Qed.

Lemma parseBlocks_fallback_witness :
  let text := js "01 NOME A" ++ lf ++ js "07 VALOR 1,00" ++ lf ++ js "1  NOME B" in
  parseBlocks text = [js "01 NOME  A" ++ lf ++ js "07 VALOR 1,00"; js "01 NOME  B"]
  /\ parseBlocks (js "nada") = [js "nada"].
Proof.
  intros text.
  destruct (parseBlocks_fallback text) as (_ & Hkept & _).
  destruct (parseBlocks_fallback (js "nada")) as (_ & _ & Hnone & _).
  split.
  - rewrite Hkept; [vm_compute; reflexivity|vm_compute; lia|vm_compute; discriminate].
  - rewrite Hnone; [vm_compute; reflexivity|vm_compute; lia|vm_compute; reflexivity].
Defined.

(** C7 as the specification words it fails: a text whose two splits
    each leave one block is not taken whole; the one fragment that
    holds a field code is the block, and the text before the marker is
    dropped. *)
Lemma parseBlocks_fallback_counterexample :
  let text := js "junk" ++ lf ++ js "01 NOME foo" in
  let cleaned := replaceAll (unit 13%N) [] text in
  length (filter nonEmpty (List.map trim (split darfMarker cleaned))) = 1%nat
  /\ length (filter holdsFieldCode
               (List.map trim (reattached (split nomeMarker cleaned)))) = 1%nat
  /\ parseBlocks text = [js "01 NOME  foo"]
  /\ parseBlocks text <> [text].
Proof. vm_compute. repeat split; discriminate. Qed.

(** ** Monetary normalization *)

Section Sanitized.

Lemma replaceFuel_takesOne (r : regex) (q : char16 -> jsstring -> bool)
  (replacement : jsstring) :
  takesOne r q ->
  forall after before fuel,
    (length after < fuel)%nat ->
    replaceFuel fuel r replacement before after = replaceUnits q replacement after.
Proof.
  intros Hr after. induction after as [|c rest IH]; intros before fuel Hfuel.
  - destruct fuel as [|fuel]; [simpl in Hfuel; lia|]. cbn [replaceFuel replaceUnits].
    specialize (Hr before []). cbn in Hr.
    destruct (matchAt r before []); [discriminate|reflexivity].
  - destruct fuel as [|fuel]; [simpl in Hfuel; lia|]. cbn [replaceFuel replaceUnits].
    specialize (Hr before (c :: rest)). cbn in Hr.
    simpl in Hfuel.
    destruct (matchAt r before (c :: rest)) as [st|].
    + destruct (q c rest); [|discriminate].
      cbn in Hr. injection Hr as Hb Ha. rewrite Hb, Ha.
      replace (length rest <? length (c :: rest))%nat with true
        by (symmetry; apply Nat.ltb_lt; simpl; lia).
      f_equal. apply IH. lia.
    + destruct (q c rest); [discriminate|]. f_equal. apply IH. lia.
Qed.

Lemma replaceAll_takesOne (r : regex) (q : char16 -> jsstring -> bool)
  (replacement s : jsstring) :
  takesOne r q -> replaceAll r replacement s = replaceUnits q replacement s.
Proof. intros Hr. apply replaceFuel_takesOne; [exact Hr|lia]. Qed.

Lemma takesOne_Chr (p : char16 -> bool) : takesOne (Chr p) (fun c _ => p c).
Proof.
  intros before [|c rest]; [reflexivity|]. unfold matchAt. cbn.
  destruct (p c); reflexivity.
Qed.

End Sanitized.

Section SanitizedText.

Lemma takesOne_thousands :
  takesOne thousandsPeriod (fun c rest => (46 =? c)%N && beforeThreeDigits rest).
Proof.
  intros before [|c rest]; [reflexivity|].
  unfold matchAt, thousandsPeriod, dot, digit.
  change (lit ".") with (Chr (N.eqb 46%N)).
  cbn [run Regex.after Regex.before].
  destruct (46 =? c)%N; [|reflexivity]. cbn [andb].
  destruct rest as [|d1 [|d2 [|d3 tail]]]; cbn -[isDigit];
    try reflexivity.
  - destruct (isDigit d1); reflexivity.
  - destruct (isDigit d1); [|reflexivity]. cbn -[isDigit].
    destruct (isDigit d2); reflexivity.
  - destruct (isDigit d1); [|reflexivity]. cbn -[isDigit].
    destruct (isDigit d2); [|reflexivity]. cbn -[isDigit].
    destruct (isDigit d3); [|reflexivity]. cbn -[isDigit].
    destruct tail as [|c4 tail]; cbn -[isDigit]; [reflexivity|].
    destruct (isDigit c4); reflexivity.
Qed.

End SanitizedText.

Section ReadingBack.

Local Open Scope Z_scope.

Lemma scale_pos : 0 < scale.
Proof. vm_compute. reflexivity. Qed.

Lemma filter_replaceUnits (p : char16 -> bool) (s : jsstring) :
  replaceUnits (fun c _ => negb (p c)) [] s = filter p s.
Proof.
  induction s as [|c s IH]; [reflexivity|]. cbn [replaceUnits filter].
  destruct (p c); cbn; now rewrite IH.
Qed.

Lemma map_replaceUnits (s : jsstring) :
  replaceUnits (fun c _ => (44 =? c)%N) [46%N] s = List.map commaToPeriod s.
Proof.
  induction s as [|c s IH]; [reflexivity|]. cbn [replaceUnits List.map].
  unfold commaToPeriod at 1. destruct (44 =? c)%N; cbn [app]; now rewrite IH.
Qed.

(** The three replacements of [normalizeNumber], on the text itself:
    what is no digit, comma, period or minus sign goes, then the
    thousands-separator periods go, then every comma is a period. *)
Lemma sanitized_spec (value : jsstring) :
  sanitized value
  = List.map commaToPeriod (dropThousands (filter isMoneyChar value)).
Proof.
  unfold sanitized, dropThousands.
  rewrite (replaceAll_takesOne _ _ _ _ (takesOne_Chr _)).
  rewrite filter_replaceUnits.
  rewrite (replaceAll_takesOne _ _ _ _ takesOne_thousands).
  change (lit ",") with (Chr (N.eqb 44%N)). change (js ".") with [46%N].
  rewrite (replaceAll_takesOne _ _ _ _ (takesOne_Chr _)).
  apply map_replaceUnits.
Qed.

Lemma takeWhile_app_stop (p : char16 -> bool) (a r : jsstring) :
  forallb p a = true ->
  match r with [] => True | c :: _ => p c = false end ->
  takeWhile p (a ++ r) = a.
Proof.
  intros Ha Hr. induction a as [|x a IH].
  - destruct r as [|c r]; [reflexivity|]. simpl. now rewrite Hr.
  - simpl in Ha. apply andb_prop in Ha as [Hx Ha]. simpl. rewrite Hx.
    now rewrite IH.
Qed.

Lemma skipn_length_app (a r : jsstring) : skipn (length a) (a ++ r) = r.
Proof. induction a as [|x a IH]; [reflexivity|exact IH]. Qed.

Lemma valueOfDigitsZ_nonneg (s : jsstring) : 0 <= valueOfDigitsZ s.
Proof. unfold valueOfDigitsZ. lia. Qed.

(** Digits, a period and digits are read as the decimal they write. *)
Lemma scanUnsigned_fixed (neg : bool) (a b : jsstring) :
  a <> [] -> forallb isDigit a = true -> forallb isDigit b = true ->
  scanUnsigned neg (a ++ js "." ++ b)
  = Some (ofDecimal neg (valueOfDigitsZ (a ++ b)) (0 - Z.of_nat (length b)), []).
Proof.
  intros Ha Hda Hdb. unfold scanUnsigned.
  assert (Hinf : startsWith (js "Infinity") (a ++ js "." ++ b) = false).
  { destruct a as [|x a]; [contradiction|].
    simpl in Hda. apply andb_prop in Hda as [Hx _].
    unfold isDigit in Hx. apply andb_prop in Hx as [_ Hx]. apply N.leb_le in Hx.
    change (js "Infinity") with (73%N :: js "nfinity").
    cbn [app startsWith]. destruct (N.eqb_spec 73 x); [lia|reflexivity]. }
  rewrite Hinf.
  rewrite (takeWhile_app_stop isDigit a (js "." ++ b) Hda) by reflexivity.
  rewrite skipn_length_app. change (js "." ++ b) with (46%N :: b).
  cbn [N.eqb Pos.eqb].
  pose proof (takeWhile_app_stop isDigit b [] Hdb I) as Htw.
  rewrite app_nil_r in Htw. rewrite Htw, skipn_all.
  destruct a as [|x a]; [contradiction|]. reflexivity.
Qed.

Lemma trim_plain (s : jsstring) :
  (forall c, hd_error s = Some c -> isSpace c = false) ->
  (forall c, hd_error (rev s) = Some c -> isSpace c = false) ->
  trim s = s.
Proof.
  intros Hfirst Hlast. unfold trim.
  rewrite (dropWhile_head isSpace s Hfirst), (dropWhile_head isSpace (rev s) Hlast).
  apply rev_involutive.
Qed.

Lemma scanNonDecimal_none (s : jsstring) :
  Forall (fun c => (c <= 57)%N) s -> scanNonDecimal s = None.
Proof.
  intros Hs. destruct s as [|c0 [|c [|d ds]]]; try reflexivity.
  inversion Hs as [|? ? _ Hs']; subst. inversion Hs' as [|? ? Hc _]; subst.
  unfold scanNonDecimal.
  destruct (negb (c0 =? 48)%N); [reflexivity|].
  repeat match goal with
         | |- context [(c =? ?k)%N] => destruct (N.eqb_spec c k); [lia|]
         end.
  reflexivity.
Qed.

End ReadingBack.

Section Rounding.

Local Open Scope Z_scope.

Lemma hundredths_nonneg (a : Z) : 0 <= a -> 0 <= hundredths a.
Proof.
  intros Ha. unfold hundredths. pose proof scale_pos.
  apply Z.div_pos; lia.
Qed.

(** The text of [toFixed(2)] for a magnitude below [10^21]: a sign
    for a negative number, digits, a period and two digits, which
    write the hundredths nearest to the number. *)
Lemma toFixed_two (x : number) :
  (x = NegZero \/ exists z, x = Fin z) ->
  magnitude x < 10 ^ 21 * scale ->
  exists a b,
    toFixed x 2
    = (if isNeg x && negb (isZero x) then js "-" else []) ++ a ++ js "." ++ b
    /\ a <> [] /\ forallb isDigit a = true /\ forallb isDigit b = true
    /\ length b = 2%nat
    /\ valueOfDigitsZ (a ++ b) = hundredths (magnitude x).
Proof.
  intros Hx Hsmall.
  assert (Hmag : 0 <= magnitude x) by (destruct x; simpl; lia).
  pose proof (hundredths_nonneg _ Hmag) as Hn.
  set (m0 := digitsOfZ (hundredths (magnitude x))).
  set (m := zeros (3 - Z.of_nat (length m0)) ++ m0).
  assert (Hm0 : forallb isDigit m0 = true) by apply isDigit_digitsOfN.
  assert (Hl0 : (0 < length m0)%nat) by apply length_digitsOfN_pos.
  assert (Hm : forallb isDigit m = true).
  { unfold m, zeros. rewrite forallb_app, Hm0, andb_true_r.
    induction (Z.to_nat (3 - Z.of_nat (length m0))); simpl; auto. }
  assert (Hl : (3 <= length m)%nat).
  { unfold m, zeros. rewrite length_app, repeat_length. lia. }
  assert (Hv : valueOfDigitsZ m = hundredths (magnitude x)).
  { unfold valueOfDigitsZ, m, zeros, m0, digitsOfZ.
    rewrite valueOfDigits_zeros, valueOfDigits_digitsOfN. lia. }
  exists (firstn (length m - 2) m), (skipn (length m - 2) m).
  split; [|split; [|split; [|split; [|split]]]].
  - assert (Heq : toFixed x 2
                  = (if isNeg x && negb (isZero x) then js "-" else [])
                    ++ firstn (length m - 2) m ++ js "."
                    ++ skipn (length m - 2) m).
    { unfold toFixed.
      replace (10 ^ 21 * scale <=? magnitude x) with false
        by (symmetry; apply Z.leb_gt; exact Hsmall).
      destruct Hx as [->|[z ->]]; reflexivity. }
    exact Heq.
  - intros Hnil. apply (f_equal (@length char16)) in Hnil.
    rewrite length_firstn in Hnil. simpl in Hnil. lia.
  - rewrite <- (firstn_skipn (length m - 2) m), forallb_app in Hm.
    apply andb_prop in Hm as [Hm1 _]. exact Hm1.
  - rewrite <- (firstn_skipn (length m - 2) m), forallb_app in Hm.
    apply andb_prop in Hm as [_ Hm2]. exact Hm2.
  - rewrite length_skipn. lia.
  - rewrite firstn_skipn. exact Hv.
Qed.

Lemma isDigit_le (c : char16) : isDigit c = true -> (c <= 57)%N.
Proof.
  unfold isDigit. intros Hc. apply andb_prop in Hc as [_ Hc]. now apply N.leb_le.
Qed.

Lemma Forall_digits_le (s : jsstring) :
  forallb isDigit s = true -> Forall (fun c => (c <= 57)%N) s.
Proof.
  intros Hs. apply Forall_forall. intros c Hc.
  apply isDigit_le. rewrite forallb_forall in Hs. now apply Hs.
Qed.

(** [Number] reads the text of [toFixed(2)] as the double nearest to
    the hundredths it writes. *)
Lemma numberOfString_fixed (neg : bool) (a b : jsstring) :
  a <> [] -> forallb isDigit a = true -> forallb isDigit b = true ->
  length b = 2%nat ->
  numberOfString ((if neg then js "-" else []) ++ a ++ js "." ++ b)
  = ofDecimal neg (valueOfDigitsZ (a ++ b)) (-2).
Proof.
  intros Ha Hda Hdb Hlb.
  set (text := (if neg then js "-" else []) ++ a ++ js "." ++ b).
  assert (Htrim : trim text = text).
  { apply trim_plain.
    - intros c Hc. unfold text in Hc. destruct neg.
      + injection Hc as <-. reflexivity.
      + destruct a as [|x a]; [contradiction|]. injection Hc as <-.
        simpl in Hda. apply andb_prop in Hda as [Hx _]. now apply isSpace_digit.
    - intros c Hc. unfold text in Hc.
      destruct b as [|b1 [|b2 [|b3 b]]]; try discriminate.
      rewrite !rev_app_distr in Hc. injection Hc as <-.
      simpl in Hdb. apply andb_prop in Hdb as [_ Hdb].
      apply andb_prop in Hdb as [Hb2 _]. now apply isSpace_digit. }
  assert (Hnon : scanNonDecimal text = None).
  { apply scanNonDecimal_none. unfold text.
    repeat (apply Forall_app; split); try now apply Forall_digits_le.
    - destruct neg; repeat constructor. discriminate.
    - repeat constructor. discriminate. }
  assert (Hscan : scanDecimal text
                  = Some (ofDecimal neg (valueOfDigitsZ (a ++ b)) (-2), [])).
  { pose proof (scanUnsigned_fixed neg a b Ha Hda Hdb) as Hu.
    rewrite Hlb in Hu. change (0 - Z.of_nat 2) with (-2) in Hu.
    unfold text. destruct neg.
    - exact Hu.
    - destruct a as [|x a]; [contradiction|].
      cbn [app]. cbn [app] in Hu. unfold scanDecimal.
      simpl in Hda. apply andb_prop in Hda as [Hx _].
      unfold isDigit in Hx. apply andb_prop in Hx as [Hx _]. apply N.leb_le in Hx.
      destruct (N.eqb_spec x 45); [lia|]. destruct (N.eqb_spec x 43); [lia|].
      exact Hu. }
  assert (Hne : text <> []).
  { unfold text. destruct neg; [discriminate|].
    destruct a as [|x a]; [contradiction|discriminate]. }
  unfold numberOfString. rewrite Htrim. clearbody text.
  destruct text as [|c rest]; [contradiction|].
  now rewrite Hnon, Hscan.
Qed.

(** [Number(x.toFixed(2))] for a magnitude below [10^21]: the double
    nearest to the hundredths, with the sign of [x]. *)
Lemma numberOfString_toFixed (x : number) :
  (x = NegZero \/ exists z, x = Fin z) ->
  magnitude x < 10 ^ 21 * scale ->
  numberOfString (toFixed x 2)
  = ofDecimal (isNeg x && negb (isZero x)) (hundredths (magnitude x)) (-2).
Proof.
  intros Hx Hsmall.
  destruct (toFixed_two x Hx Hsmall) as (a & b & Htext & Ha & Hda & Hdb & Hlb & Hv).
  rewrite Htext, <- Hv. now apply numberOfString_fixed.
Qed.

End Rounding.

(** ** Rounding to a double *)

Section RoundingError.

Local Open Scope Z_scope.

(** The nearest integer is within half a unit. *)
Lemma divHalfEven_spec (n d : Z) :
  0 <= n -> 0 < d ->
  0 <= divHalfEven n d /\ 2 * Z.abs (divHalfEven n d * d - n) <= d.
Proof.
  intros Hn Hd. unfold divHalfEven.
  pose proof (Z.div_mod n d ltac:(lia)) as Hdm.
  pose proof (Z.mod_pos_bound n d Hd) as Hr.
  assert (Hq : 0 <= n / d) by (apply Z.div_pos; lia).
  set (q := n / d) in *. set (r := n mod d) in *.
  assert (Hmul : (q + 1) * d = d * q + d) by ring.
  assert (Hmul0 : q * d = d * q) by ring.
  destruct (2 * r <? d) eqn:E1; [apply Z.ltb_lt in E1; lia|apply Z.ltb_ge in E1].
  destruct (d <? 2 * r) eqn:E2; [apply Z.ltb_lt in E2; lia|apply Z.ltb_ge in E2].
  destruct (Z.even q); lia.
Qed.

Lemma log2_lt (q c : Z) : 0 < c -> q < 2 ^ c -> Z.log2 q < c.
Proof.
  intros Hc Hq. destruct (Z.le_gt_cases q 0) as [Hle|Hpos].
  - rewrite Z.log2_nonpos; lia.
  - apply Z.log2_lt_pow2; assumption.
Qed.

(** A value below [2^c] units is rounded to a double of at most [2^c]
    units that is within [2^(c-54)] units of it. *)
Lemma roundScaled_bound (n d c : Z) :
  0 <= n -> 0 < d -> 53 <= c -> n < 2 ^ c * d ->
  0 <= roundScaled n d <= 2 ^ c
  /\ 2 * Z.abs (roundScaled n d * d - n) <= d * 2 ^ (c - 53).
Proof.
  intros Hn Hd Hc Hlt. unfold roundScaled.
  assert (Hq : 0 <= n / d) by (apply Z.div_pos; lia).
  assert (Hq' : n / d < 2 ^ c).
  { apply Z.div_lt_upper_bound; [lia|]. now rewrite Z.mul_comm. }
  pose proof (log2_lt (n / d) c ltac:(lia) Hq') as Hlog.
  pose proof (Z.log2_nonneg (n / d)) as Hlog0.
  set (k := Z.max 0 (Z.log2 (n / d) - 52)).
  assert (Hk : 0 <= k <= c - 53) by lia.
  assert (Hpk : 0 < 2 ^ k) by (apply Z.pow_pos_nonneg; lia).
  assert (Hpc : 2 ^ c = 2 ^ (c - k) * 2 ^ k).
  { rewrite <- Z.pow_add_r by lia. f_equal. lia. }
  assert (Hp53 : 2 ^ (c - 53) = 2 ^ (c - 53 - k) * 2 ^ k).
  { rewrite <- Z.pow_add_r by lia. f_equal. lia. }
  assert (Hpck : 0 < 2 ^ (c - k)) by (apply Z.pow_pos_nonneg; lia).
  assert (Hp53k : 1 <= 2 ^ (c - 53 - k)).
  { assert (0 < 2 ^ (c - 53 - k)) by (apply Z.pow_pos_nonneg; lia). lia. }
  destruct (divHalfEven_spec n (d * 2 ^ k) Hn ltac:(nia)) as [Hh Herr].
  set (h := divHalfEven n (d * 2 ^ k)) in *.
  replace (h * 2 ^ k * d - n) with (h * (d * 2 ^ k) - n) by ring.
  split; [split|].
  - nia.
  - rewrite Hpc.
    assert (h <= 2 ^ (c - k)); [|nia].
    assert (h * (d * 2 ^ k) < (2 ^ (c - k) + 1) * (d * 2 ^ k)); [|nia].
    rewrite Hpc in Hlt. nia.
  - rewrite Hp53. nia.
Qed.

End RoundingError.

(** ** The sign of the result *)

Section Signs.

Local Open Scope Z_scope.

Lemma roundScaled_nonneg (n d : Z) : 0 <= n -> 0 < d -> 0 <= roundScaled n d.
Proof.
  intros Hn Hd. unfold roundScaled.
  set (k := Z.max 0 (Z.log2 (n / d) - 52)).
  assert (Hpk : 0 < 2 ^ k) by (apply Z.pow_pos_nonneg; lia).
  destruct (divHalfEven_spec n (d * 2 ^ k) Hn ltac:(nia)) as [Hh _].
  nia.
Qed.

(** The sign of a rounded ratio is the sign it was given. *)
Lemma isNeg_ofRatio (neg : bool) (n d : Z) :
  0 <= n -> 0 < d -> isNeg (ofRatio neg n d) = neg.
Proof.
  intros Hn Hd. pose proof (roundScaled_nonneg n d Hn Hd) as Hz.
  unfold ofRatio. destruct (overflow <=? roundScaled n d); [reflexivity|].
  destruct (Z.eqb_spec (roundScaled n d) 0) as [E|E]; [now destruct neg|].
  destruct neg; cbn [isNeg].
  - apply Z.ltb_lt. lia.
  - apply Z.ltb_ge. lia.
Qed.

Lemma isNeg_ofDecimal (neg : bool) (s e : Z) :
  0 <= s -> isNeg (ofDecimal neg s e) = neg.
Proof.
  intros Hs. pose proof scale_pos as Hscale. unfold ofDecimal.
  destruct (0 <=? e) eqn:E.
  - apply Z.leb_le in E. apply isNeg_ofRatio; [|lia].
    assert (0 <= 10 ^ e) by (apply Z.pow_nonneg; lia). nia.
  - apply Z.leb_gt in E. apply isNeg_ofRatio; [nia|].
    apply Z.pow_pos_nonneg; lia.
Qed.

Lemma replaceUnits_In (q : char16 -> jsstring -> bool) (s : jsstring) (c : char16) :
  In c (replaceUnits q [] s) -> In c s.
Proof.
  induction s as [|x s IH]; [intros []|]. cbn [replaceUnits].
  destruct (q x s); cbn [app In]; intuition.
Qed.

(** The cleaned text holds digits, periods and minus signs only. *)
Lemma sanitized_chars (value : jsstring) (c : char16) :
  In c (sanitized value) -> isDigit c = true \/ c = 46%N \/ c = 45%N.
Proof.
  rewrite sanitized_spec. intros Hc. apply in_map_iff in Hc as (x & <- & Hx).
  unfold dropThousands in Hx. apply replaceUnits_In in Hx.
  apply filter_In in Hx as [_ Hx]. unfold isMoneyChar in Hx. unfold commaToPeriod.
  destruct (N.eqb_spec 44 x) as [<-|Hne]; [now right; left|].
  apply orb_prop in Hx as [Hx|Hx]; [|right; right; now apply N.eqb_eq in Hx].
  apply orb_prop in Hx as [Hx|Hx]; [|right; left; now apply N.eqb_eq in Hx].
  apply orb_prop in Hx as [Hx|Hx]; [now left|].
  apply N.eqb_eq in Hx. congruence.
Qed.

Lemma scanUnsigned_sign (neg : bool) (s : jsstring) (x : number) (rest : jsstring) :
  scanUnsigned neg s = Some (x, rest) -> isNeg x = neg.
Proof.
  unfold scanUnsigned. destruct (startsWith (js "Infinity") s).
  - intros Heq. now injection Heq as <- _.
  - set (ints := takeWhile isDigit s).
    destruct (match skipn (length ints) s with
              | [] => ([], skipn (length ints) s)
              | c :: s1' =>
                  if (c =? 46)%N
                  then (takeWhile isDigit s1',
                        skipn (length (takeWhile isDigit s1')) s1')
                  else ([], skipn (length ints) s)
              end) as [fracs s2] eqn:E.
    intros Heq.
    assert (Hx : exists e, x = ofDecimal neg (valueOfDigitsZ (ints ++ fracs)) e).
    { destruct ints as [|i ints'], fracs as [|f fracs']; try discriminate Heq;
        destruct (scanExponent s2) as [e s3]; injection Heq as <- _; eauto. }
    destruct Hx as [e ->]. apply isNeg_ofDecimal, valueOfDigitsZ_nonneg.
Qed.

(** A cleaned text that does not begin with a minus sign is not read
    as a number below zero. *)
Lemma parseFloat_sign (value : jsstring) :
  hd_error (sanitized value) <> Some 45%N ->
  parseFloat (sanitized value) = NaN
  \/ isNeg (parseFloat (sanitized value)) = false.
Proof.
  intros Hhead. unfold parseFloat.
  assert (Hplain : dropWhile isSpace (sanitized value) = sanitized value).
  { apply dropWhile_head. intros c Hc.
    assert (Hin : In c (sanitized value))
      by (destruct (sanitized value); [discriminate|injection Hc as <-; now left]).
    destruct (sanitized_chars value c Hin) as [Hd|[->| ->]];
      [now apply isSpace_digit|reflexivity|reflexivity]. }
  rewrite Hplain. unfold scanDecimal.
  destruct (sanitized value) as [|c s] eqn:E; [now left|].
  destruct (N.eqb_spec c 45) as [->|Hc]; [now elim Hhead|].
  destruct (c =? 43)%N.
  - destruct (scanUnsigned false s) as [[x rest]|] eqn:Es; [|now left].
    right. exact (scanUnsigned_sign _ _ _ _ Es).
  - destruct (scanUnsigned false (c :: s)) as [[x rest]|] eqn:Es; [|now left].
    right. exact (scanUnsigned_sign _ _ _ _ Es).
Qed.

End Signs.

(** C3: for every input text the monetary normalization strips what is
    no digit, comma, period or minus sign, removes the periods that
    stand before exactly three digits and a non-digit or the end, and
    turns the commas into periods; when nothing can be parsed the
    result is 0; and when the parsed magnitude is below [10^21] the
    result is the double nearest to the parsed number rounded to two
    decimal places (a tie going away from zero), with the sign of the
    parsed number: it is below zero or -0 exactly when the parsed
    number is below zero.  A cleaned text that does not begin with a
    minus sign is never read as a number below zero, so its result is
    not negative.  So 1.234,56 gives 1234.56, R$ 45,00 gives 45 and
    abc gives 0. *)
Theorem normalizeNumber_rounds (value : jsstring) :
  let parsed := parseFloat (sanitized value) in
  sanitized value = List.map commaToPeriod (dropThousands (filter isMoneyChar value))
  /\ (parsed = NaN -> normalizeNumber value = Fin 0)
  /\ (forall z, parsed = Fin z -> (Z.abs z < 10 ^ 21 * scale)%Z ->
        normalizeNumber value = ofDecimal (z <? 0)%Z (hundredths (Z.abs z)) (-2)
        /\ isNeg (normalizeNumber value) = (z <? 0)%Z)
  /\ (parsed = NegZero -> normalizeNumber value = Fin 0)
  /\ (hd_error (sanitized value) <> Some 45%N ->
      (parsed = NaN \/ isNeg parsed = false)
      /\ (parsed = NaN \/ (exists z, parsed = Fin z /\ (Z.abs z < 10 ^ 21 * scale)%Z) ->
          isNeg (normalizeNumber value) = false))
  /\ normalizeNumber (js "1.234,56") = ofDecimal false 123456 (-2)
  /\ normalizeNumber (js "R$ 45,00") = ofInt 45
  /\ normalizeNumber (js "abc") = Fin 0.
Proof.
  intros parsed.
  assert (Hnan : parsed = NaN -> normalizeNumber value = Fin 0).
  { intros Hnan. unfold normalizeNumber. fold parsed. rewrite Hnan.
    vm_compute. reflexivity. }
  assert (Hfin : forall z, parsed = Fin z -> (Z.abs z < 10 ^ 21 * scale)%Z ->
            normalizeNumber value = ofDecimal (z <? 0)%Z (hundredths (Z.abs z)) (-2)
            /\ isNeg (normalizeNumber value) = (z <? 0)%Z).
  { intros z Hz Hsmall.
    assert (Heq : normalizeNumber value
                  = ofDecimal (z <? 0)%Z (hundredths (Z.abs z)) (-2)).
    { unfold normalizeNumber. fold parsed. rewrite Hz.
      cbn [isNaN]. rewrite numberOfString_toFixed by eauto.
      cbn [isNeg isZero magnitude]. f_equal.
      destruct (Z.eqb_spec z 0) as [->|]; [reflexivity|apply andb_true_r]. }
    split; [exact Heq|]. rewrite Heq. apply isNeg_ofDecimal, hundredths_nonneg. lia. }
  split; [apply sanitized_spec|].
  split; [exact Hnan|]. split; [exact Hfin|].
  split; [|split; [|split; [|split]]].
  - intros Hzero. unfold normalizeNumber. fold parsed. rewrite Hzero.
    vm_compute. reflexivity.
  - intros Hhead. pose proof (parseFloat_sign value Hhead) as Hsign.
    fold parsed in Hsign. split; [exact Hsign|].
    intros [Hn|(z & Hz & Hsmall)].
    + now rewrite (Hnan Hn).
    + destruct (Hfin z Hz Hsmall) as [_ ->].
      destruct Hsign as [Hn|Hpos]; [congruence|].
      rewrite Hz in Hpos. exact Hpos.
  - vm_compute. reflexivity.
  - vm_compute. reflexivity.
  - vm_compute. reflexivity.
Qed.

Lemma normalizeNumber_rounds_witness :
  normalizeNumber (js "R$ -12,345") = ofDecimal true 1235 (-2)
  /\ isNeg (normalizeNumber (js "R$ 12,345")) = false.
Proof.
  split.
  - destruct (normalizeNumber_rounds (js "R$ -12,345")) as (_ & _ & Hfin & _).
    assert (Hz : exists z,
               parseFloat (sanitized (js "R$ -12,345")) = Fin z
               /\ (Z.abs z < 10 ^ 21 * scale)%Z
               /\ (z <? 0)%Z = true /\ hundredths (Z.abs z) = 1235%Z).
    { let v := eval vm_compute in (parseFloat (sanitized (js "R$ -12,345"))) in
      match v with
      | Fin ?z => exists z
      end.
      repeat split; vm_compute; reflexivity. }
    destruct Hz as (z & Hparsed & Hsmall & Hneg & Hround).
    destruct (Hfin z Hparsed Hsmall) as [Heq _].
    rewrite Heq, Hneg, Hround. reflexivity.
  - destruct (normalizeNumber_rounds (js "R$ 12,345")) as (_ & _ & _ & _ & Hsign & _).
    assert (Hhead : hd_error (sanitized (js "R$ 12,345")) <> Some 45%N)
      by (vm_compute; discriminate).
    destruct (Hsign Hhead) as [_ Hpos]. apply Hpos. right.
    let v := eval vm_compute in (parseFloat (sanitized (js "R$ 12,345"))) in
    match v with
    | Fin ?z => exists z
    end.
    split; vm_compute; reflexivity.
Defined.

(** C3 as the specification words it fails: the minus sign is kept,
    so a text with one gives a negative number; and a text of four
    hundred digits gives an infinity, which has no decimal places.  A
    minus sign alone does not make the result negative: nothing is
    parsed in [-], and [-0] gives 0; and a negative number that rounds
    to zero gives -0. *)
Lemma normalizeNumber_rounds_counterexample :
  normalizeNumber (js "-5,00") = ofInt (-5)
  /\ isNeg (normalizeNumber (js "-5,00")) = true
  /\ normalizeNumber (repeat 57%N 400) = Inf false
  /\ normalizeNumber (js "-") = Fin 0
  /\ normalizeNumber (js "-0") = Fin 0
  /\ normalizeNumber (js "-0,001") = NegZero.
Proof. vm_compute. repeat split. Qed.

(** ** Amounts in cents *)

Section Cents.

Local Open Scope Z_scope.

(** The powers of two the bounds below are stated with: [eps] is
    [2^-53], half the distance between 1 and the next double. *)
Lemma scale_facts :
  exists eps,
    0 < eps
    /\ scale = 9007199254740992 * eps
    /\ 2 ^ 1105 = 2147483648 * scale
    /\ 2 ^ (1105 - 53) = 2147483648 * eps
    /\ 2 ^ 1112 = 274877906944 * scale
    /\ 2 ^ (1112 - 53) = 274877906944 * eps
    /\ 274877906944 * scale < overflow.
Proof. exists (2 ^ 1021). vm_compute. repeat split; reflexivity. Qed.

Lemma ofRatio_finite (n d : Z) :
  roundScaled n d < overflow -> ofRatio false n d = Fin (roundScaled n d).
Proof.
  intros Hz. unfold ofRatio.
  replace (overflow <=? roundScaled n d) with false
    by (symmetry; apply Z.leb_gt; exact Hz).
  destruct (Z.eqb_spec (roundScaled n d) 0) as [->|]; reflexivity.
Qed.

(** An amount of at most [10^11] cents is a double within [2^-22]
    cents of it. *)
Lemma amount_spec (k : Z) :
  0 <= k <= 10 ^ 11 ->
  exists v,
    amount k = Fin v /\ 0 <= v <= 2147483648 * scale
    /\ forall eps, scale = 9007199254740992 * eps ->
         2 * Z.abs (100 * v - k * scale) <= 100 * (2147483648 * eps).
Proof.
  intros Hk. destruct scale_facts as (e & He & Hs & H31 & H31e & _ & _ & Hov).
  change (10 ^ 11) with 100000000000 in Hk.
  destruct (roundScaled_bound (k * scale) 100 1105) as [[Hv0 Hv1] Herr];
    [nia|lia|lia|nia|].
  exists (roundScaled (k * scale) 100). split; [|split].
  - unfold amount, ofDecimal. cbn [Z.leb Z.compare Z.opp]. change (10 ^ 2) with 100.
    apply ofRatio_finite. lia.
  - lia.
  - intros eps Heps. assert (eps = e) by lia. subst eps.
    rewrite H31e in Herr. lia.
Qed.

(** The sum of two doubles below [2^31] is a double within [2^-23] of
    their sum. *)
Lemma add_spec (a b : Z) :
  0 <= a -> 0 <= b -> a + b < 2147483648 * scale ->
  exists s,
    add (Fin a) (Fin b) = Fin s /\ 0 <= s <= 2147483648 * scale
    /\ forall eps, scale = 9007199254740992 * eps ->
         2 * Z.abs (s - (a + b)) <= 2147483648 * eps.
Proof.
  intros Ha Hb Hsum. destruct scale_facts as (e & He & Hs & H31 & H31e & _ & _ & Hov).
  destruct (roundScaled_bound (a + b) 1 1105) as [[Hv0 Hv1] Herr];
    [lia|lia|lia|lia|].
  exists (roundScaled (a + b) 1). split; [|split].
  - unfold add.
    replace (a + b <? 0) with false by (symmetry; apply Z.ltb_ge; lia).
    rewrite Z.abs_eq by lia. apply ofRatio_finite. lia.
  - lia.
  - intros eps Heps. assert (eps = e) by lia. subst eps.
    rewrite H31e in Herr. lia.
Qed.

(** A double below [2^31], times 100, is a double within [2^-16] of
    the product. *)
Lemma mul100_spec (a : Z) :
  0 <= a <= 2147483648 * scale ->
  exists t,
    mul (Fin a) (ofInt 100) = Fin t /\ 0 <= t
    /\ forall eps, scale = 9007199254740992 * eps ->
         2 * Z.abs (t - 100 * a) <= 274877906944 * eps.
Proof.
  intros Ha. destruct scale_facts as (e & He & Hs & _ & _ & H38 & H38e & Hov).
  pose proof scale_pos as Hpos.
  destruct (roundScaled_bound (a * (100 * scale)) scale 1112) as [[Hv0 Hv1] Herr];
    [nia|lia|lia|nia|].
  exists (roundScaled (a * (100 * scale)) scale). split; [|split].
  - unfold mul, ofInt. cbn [isNeg magnitude].
    replace (a <? 0) with false by (symmetry; apply Z.ltb_ge; lia).
    replace (100 * scale <? 0) with false by (symmetry; apply Z.ltb_ge; lia).
    rewrite !Z.abs_eq by lia. cbn [xorb]. apply ofRatio_finite. lia.
  - lia.
  - intros eps Heps. assert (eps = e) by lia. subst eps.
    rewrite H38e in Herr.
    set (t := roundScaled (a * (100 * scale)) scale) in *.
    replace (t * scale - a * (100 * scale)) with ((t - 100 * a) * scale) in Herr by ring.
    rewrite Z.abs_mul, (Z.abs_eq scale) in Herr by lia. nia.
Qed.

(** A double within half a cent of [k] cents rounds to [k]. *)
Lemma mathRound_spec (t k : Z) :
  0 <= t -> 2 * Z.abs (t - k * scale) < scale ->
  mathRound (Fin t) = Fin (k * scale).
Proof.
  intros Ht Hnear. pose proof scale_pos as Hpos. unfold mathRound.
  assert (Hr : (2 * t + scale) / (2 * scale) = k).
  { symmetry. apply (Z.div_unique_pos _ _ k (2 * t + scale - 2 * scale * k)); lia. }
  rewrite Hr.
  replace (t <? 0) with false by (symmetry; apply Z.ltb_ge; lia).
  now rewrite andb_false_r.
Qed.

(** The text of an integer below [2^53] is its decimal digits. *)
Lemma numberToString_int (k : Z) :
  0 <= k < 2 ^ 53 -> numberToString (Fin (k * scale)) = digitsOfZ k.
Proof.
  intros Hk. pose proof scale_pos as Hpos. unfold numberToString.
  destruct (Z.eqb_spec (k * scale) 0) as [Hz|Hz].
  - assert (k = 0) by nia. subst k. reflexivity.
  - replace (k * scale <? 0) with false by (symmetry; apply Z.ltb_ge; nia).
    unfold positiveToString.
    rewrite Z.mod_mul, Z.div_mul by lia. cbn [Z.eqb andb].
    now replace (k <? 2 ^ 53) with true by (symmetry; apply Z.ltb_lt; lia).
Qed.

End Cents.

Section Totals.

Local Open Scope Z_scope.

Lemma sumZ_nonneg (l : list Z) : Forall (fun k => 0 <= k) l -> 0 <= sumZ l.
Proof. induction 1 as [|k l Hk _ IH]; simpl; lia. Qed.

(** The running total of [reduce]: after [j] additions it is within
    [j * 2^-22] cents of the exact sum. *)
Lemma total_from (f : DarfRecord -> number) (cents : DarfRecord -> Z) (eps : Z) :
  scale = 9007199254740992 * eps -> 0 < eps ->
  forall darfs s0 k0 j0,
    (forall darf, In darf darfs -> 0 <= cents darf /\ f darf = amount (cents darf)) ->
    0 <= s0 -> 0 <= k0 -> 0 <= j0 ->
    Z.abs (100 * s0 - k0 * scale) <= j0 * (100 * (2147483648 * eps)) ->
    j0 + Z.of_nat (length darfs) <= 10000 ->
    k0 + sumZ (List.map cents darfs) <= 10 ^ 11 ->
    exists s,
      fold_left (fun total darf => add total (f darf)) darfs (Fin s0) = Fin s
      /\ 0 <= s <= 2147483648 * scale
      /\ Z.abs (100 * s - (k0 + sumZ (List.map cents darfs)) * scale)
         <= (j0 + Z.of_nat (length darfs)) * (100 * (2147483648 * eps)).
Proof.
  intros Heps Hpos darfs.
  induction darfs as [|darf rest IH]; intros s0 k0 j0 Hcents Hs0 Hk0 Hj0 Hnear Hcount Hsum.
  - change (10 ^ 11) with 100000000000 in Hsum.
    cbn [List.map sumZ fold_right length fold_left Z.of_nat] in *.
    assert (k0 * scale <= 100000000000 * scale) by nia.
    assert (j0 * eps <= 10000 * eps) by nia.
    exists s0. split; [reflexivity|]. split; lia.
  - assert (Hrest : 0 <= sumZ (List.map cents rest)).
    { apply sumZ_nonneg, Forall_forall. intros k Hk.
      apply in_map_iff in Hk as (d & <- & Hd). apply Hcents. now right. }
    destruct (Hcents darf (or_introl eq_refl)) as [Hk Hf].
    cbn [List.map sumZ fold_right length] in *. fold (sumZ (List.map cents rest)) in *.
    change (10 ^ 11) with 100000000000 in *.
    destruct (amount_spec (cents darf)) as (v & Hv & Hvb & Hverr);
      [change (10 ^ 11) with 100000000000; lia|].
    specialize (Hverr eps Heps).
    destruct (add_spec s0 v) as (s1 & Hadd & Hs1 & Hserr); [lia|lia|nia|].
    specialize (Hserr eps Heps).
    destruct (IH s1 (k0 + cents darf) (j0 + 1)) as (s & Hfold & Hs & Herr).
    + intros d Hd. apply Hcents. now right.
    + lia.
    + lia.
    + lia.
    + lia.
    + lia.
    + lia.
    + exists s. split; [|split].
      * cbn [fold_left]. now rewrite Hf, Hv, Hadd.
      * exact Hs.
      * replace (k0 + (cents darf + sumZ (List.map cents rest)))
          with (k0 + cents darf + sumZ (List.map cents rest)) by ring.
        replace (j0 + Z.of_nat (S (length rest)))
          with (j0 + 1 + Z.of_nat (length rest)) by lia.
        exact Herr.
Qed.

(** The cents of the total of at most 10000 amounts that sum to at
    most [10^11] cents: the exact sum. *)
Lemma total_cents (f : DarfRecord -> number) (cents : DarfRecord -> Z)
  (darfs : list DarfRecord) :
  (forall darf, In darf darfs -> 0 <= cents darf /\ f darf = amount (cents darf)) ->
  Z.of_nat (length darfs) <= 10000 ->
  sumZ (List.map cents darfs) <= 10 ^ 11 ->
  mathRound (mul (total f darfs) (ofInt 100))
  = Fin (sumZ (List.map cents darfs) * scale).
Proof.
  intros Hcents Hcount Hsum.
  destruct scale_facts as (eps & Hpos & Heps & _).
  destruct (total_from f cents eps Heps Hpos darfs 0 0 0) as (s & Hfold & Hs & Herr);
    [exact Hcents|lia|lia|lia|rewrite !Z.mul_0_l, Z.mul_0_r; cbn; lia|lia
    |exact Hsum|].
  destruct (mul100_spec s Hs) as (t & Hmul & Ht & Hterr).
  specialize (Hterr eps Heps).
  unfold total. rewrite Hfold, Hmul. apply mathRound_spec; [exact Ht|].
  change (10 ^ 11) with 100000000000 in Hsum.
  rewrite !Z.add_0_l in Herr.
  assert (Z.of_nat (length darfs) * eps <= 10000 * eps) by nia.
  lia.
Qed.

(** The cents of one amount of at most [10^11] cents. *)
Lemma amount_cents (k : Z) :
  0 <= k <= 10 ^ 11 -> mathRound (mul (amount k) (ofInt 100)) = Fin (k * scale).
Proof.
  intros Hk. destruct scale_facts as (eps & Hpos & Heps & _).
  destruct (amount_spec k Hk) as (v & Hv & Hvb & Hverr).
  specialize (Hverr eps Heps).
  destruct (mul100_spec v Hvb) as (t & Hmul & Ht & Hterr).
  specialize (Hterr eps Heps).
  rewrite Hv, Hmul. apply mathRound_spec; [exact Ht|]. lia.
Qed.

(** The field of an amount whose cents are [k]: the digits of [k]
    after the zeros that fill the field. *)
Lemma toCnabNumber_field (x : number) (k : Z) (w : nat) :
  mathRound (mul x (ofInt 100)) = Fin (k * scale) ->
  0 <= k <= 10 ^ 11 -> (15 <= w)%nat ->
  length (toCnabNumber x w) = w
  /\ forallb isDigit (toCnabNumber x w) = true
  /\ centsIn (toCnabNumber x w) = k.
Proof.
  intros Hround Hk Hw. unfold toCnabNumber, centsIn. rewrite Hround.
  change (10 ^ 11) with 100000000000 in Hk.
  rewrite numberToString_int by (change (2 ^ 53) with 9007199254740992; lia).
  unfold digitsOfZ.
  assert (Hfit : (Z.to_N k < 10 ^ N.of_nat w)%N).
  { apply N.lt_le_trans with (10 ^ 15)%N; [change (10 ^ 15)%N with 1000000000000000%N; lia|].
    apply N.pow_le_mono_r; lia. }
  split; [|split].
  - apply rightZero_length. lia.
  - apply isDigit_rightZero; [apply isDigit_digitsOfN|].
    apply length_digitsOfN_le; [lia|exact Hfit].
  - rewrite valueOfDigits_rightZero by (lia || exact Hfit). lia.
Qed.

End Totals.

(** ** The amount fields *)

Section AmountFields.

Variable H : Host.

Lemma buildLine_part (parts : list jsstring) (i : nat) (f : jsstring) (off len : nat) :
  nth_error parts i = Some f ->
  length (concat (firstn i parts)) = off -> length f = len ->
  (off + len <= 240)%nat ->
  field off len (buildLine parts) = f.
Proof.
  intros Hnth Hoff Hlen Hfit.
  rewrite <- (firstn_skipn_middle _ _ Hnth). now apply buildLine_fieldAt.
Qed.

Ltac part_lengths :=
  cbn [firstn concat]; unfold toCnabNumber;
  rewrite ?length_app, ?rightZero_length, ?padValue_left_length by lia;
  try reflexivity.

Lemma detailOf_amount (sequential : nat) (darf : DarfRecord)
  (period vencimento : jsstring) (a : AmountKind) :
  length period = 8%nat -> length vencimento = 8%nat ->
  field (detailOffset a) 15 (detailOf H sequential darf period vencimento)
  = toCnabNumber (amountOf a darf) 15.
Proof.
  intros Hp Hv. unfold detailOf.
  destruct a; cbn [detailOffset amountOf].
  - apply (buildLine_part _ 10); [reflexivity| | |lia];
      part_lengths; now rewrite Hp, Hv.
  - apply (buildLine_part _ 11); [reflexivity| | |lia];
      part_lengths; now rewrite Hp, Hv.
  - apply (buildLine_part _ 12); [reflexivity| | |lia];
      part_lengths; now rewrite Hp, Hv.
  - apply (buildLine_part _ 13); [reflexivity| | |lia];
      part_lengths; now rewrite Hp, Hv.
Qed.

Lemma trailerLote_amount (darfs : list DarfRecord) (details : list jsstring)
  (a : AmountKind) :
  field (trailerOffset a) 18 (trailerLote darfs details)
  = toCnabNumber (total (amountOf a) darfs) 18.
Proof.
  unfold trailerLote. destruct a; cbn [trailerOffset].
  - apply (buildLine_part _ 3); [reflexivity| | |lia]; part_lengths.
  - apply (buildLine_part _ 4); [reflexivity| | |lia]; part_lengths.
  - apply (buildLine_part _ 5); [reflexivity| | |lia]; part_lengths.
  - apply (buildLine_part _ 6); [reflexivity| | |lia]; part_lengths.
Qed.

Lemma map_seq_nth {A} (g : nat -> Z) (f : A -> Z) (l : list A) (start : nat) :
  (forall i x, nth_error l i = Some x -> g (start + i)%nat = f x) ->
  List.map g (List.seq start (length l)) = List.map f l.
Proof.
  revert start. induction l as [|x l IH]; intros start Hg; [reflexivity|].
  cbn [length List.seq List.map]. f_equal.
  - rewrite <- (Hg 0%nat x eq_refl). f_equal. lia.
  - apply IH. intros i y Hy. rewrite <- (Hg (S i) y Hy). f_equal. lia.
Qed.

Lemma sumZ_member (l : list Z) (k : Z) :
  Forall (fun x => (0 <= x)%Z) l -> In k l -> (k <= sumZ l)%Z.
Proof.
  induction 1 as [|x l Hx Hl IH]; intros Hin; [contradiction|].
  pose proof (sumZ_nonneg l Hl). simpl. destruct Hin as [->|Hin]; [lia|].
  specialize (IH Hin). lia.
Qed.

End AmountFields.

(** C2: for every list of at most 10000 records whose amounts are
    non-negative amounts of whole cents (the doubles nearest to them),
    each of the four columns summing to at most [10^11] cents, and with
    the clock reading dates in four-digit years: each of the four
    18-character fields of the batch trailer is a digit string that
    encodes the arithmetic sum, in cents, of the corresponding
    15-character fields of the detail lines, and each of those encodes
    the cents of its record. *)
Theorem trailer_totals (H : Host) (company : CompanyInfo) (darfs : list DarfRecord)
  (t : nat) (cents : AmountKind -> DarfRecord -> Z)
  (Hclock : forall t', validDate (now H t'))
  (Hcents : forall a darf, In darf darfs ->
              (0 <= cents a darf)%Z /\ amountOf a darf = amount (cents a darf))
  (Hcount : (Z.of_nat (length darfs) <= 10000)%Z)
  (Hsum : forall a, (sumZ (List.map (cents a) darfs) <= 10 ^ 11)%Z) :
  let lines := fst (remittanceLines H company darfs t) in
  forall a,
    let summed := field (trailerOffset a) 18 (nth (length darfs + 2) lines []) in
    let detail := fun i => field (detailOffset a) 15 (nth (i + 2) lines []) in
    (length summed = 18%nat /\ forallb isDigit summed = true)
    /\ (forall i darf, nth_error darfs i = Some darf ->
          length (detail i) = 15%nat /\ forallb isDigit (detail i) = true
          /\ centsIn (detail i) = cents a darf)
    /\ centsIn summed
       = sumZ (List.map (fun i => centsIn (detail i)) (List.seq 0 (length darfs))).
Proof.
  intros lines a summed detail.
  destruct (remittanceLines_nth H company darfs t)
    as (Hlen & _ & _ & Hdetail & Hlote & _).
  fold lines in Hdetail, Hlote.
  assert (Hnonneg : Forall (fun x => (0 <= x)%Z) (List.map (cents a) darfs)).
  { apply Forall_forall. intros k Hk. apply in_map_iff in Hk as (d & <- & Hd).
    now apply Hcents. }
  assert (Hsummed : length summed = 18%nat /\ forallb isDigit summed = true
                    /\ centsIn summed = sumZ (List.map (cents a) darfs)).
  { unfold summed. rewrite Hlote, trailerLote_amount.
    apply toCnabNumber_field; [|split; [now apply sumZ_nonneg|apply Hsum]|lia].
    apply total_cents; [intros d Hd; now apply Hcents|exact Hcount|apply Hsum]. }
  assert (Hdetails : forall i darf, nth_error darfs i = Some darf ->
            length (detail i) = 15%nat /\ forallb isDigit (detail i) = true
            /\ centsIn (detail i) = cents a darf).
  { intros i darf Hnth. unfold detail.
    assert (Hi : (i < length darfs)%nat) by (apply nth_error_Some; congruence).
    rewrite (Hdetail i Hi).
    destruct (detailLinesFrom_spec H (now H t) darfs 1 (S t)) as [_ Hlines].
    destruct (Hlines i darf Hnth) as (t1 & t2 & Hline).
    rewrite (nth_error_nth _ _ _ Hline).
    rewrite detailOf_amount.
    - pose proof (nth_error_In _ _ Hnth) as Hin.
      destruct (Hcents a darf Hin) as [Hk Heq].
      assert (Hle : (cents a darf <= 10 ^ 11)%Z).
      { apply Z.le_trans with (sumZ (List.map (cents a) darfs)); [|apply Hsum].
        apply sumZ_member; [exact Hnonneg|]. now apply in_map. }
      apply toCnabNumber_field; [|lia|lia].
      rewrite Heq. apply amount_cents. lia.
    - apply (formatDateToCnab_digits H (OfString _) t2). apply Hclock.
    - apply (formatDateToCnab_digits H (OfString _) t1). apply Hclock. }
  split; [now destruct Hsummed as (? & ? & _)|]. split; [exact Hdetails|].
  destruct Hsummed as (_ & _ & ->). f_equal. symmetry.
  apply map_seq_nth. intros i darf Hnth. now apply Hdetails.
Qed.

Lemma trailer_totals_witness :
  let lines := fst (remittanceLines sampleHost sampleCompany scenario 0) in
  (forall t', validDate (now sampleHost t'))
  /\ List.map (fun a => centsIn (field (trailerOffset a) 18 (nth 4 lines [])))
       [Principal; Multa; Juros; Geral]
     = [175000; 1000; 500; 176500]%Z.
Proof.
  intros lines.
  assert (Hclock : forall t', validDate (now sampleHost t'))
    by (intros t'; vm_compute; intuition discriminate).
  assert (Hcents : forall a darf, In darf scenario ->
            (0 <= scenarioCents a darf)%Z
            /\ amountOf a darf = amount (scenarioCents a darf)).
  { intros a darf [<-|[<-|[]]]; destruct a; split; (reflexivity || discriminate). }
  assert (Hcount : (Z.of_nat (length scenario) <= 10000)%Z) by (simpl; lia).
  assert (Hsum : forall a, (sumZ (List.map (scenarioCents a) scenario) <= 10 ^ 11)%Z)
    by (intros []; vm_compute; discriminate).
  pose proof (trailer_totals sampleHost sampleCompany scenario 0 scenarioCents
                Hclock Hcents Hcount Hsum) as Htotals.
  cbv zeta in Htotals. fold lines in Htotals. clearbody lines.
  change (length scenario + 2)%nat with 4%nat in Htotals.
  change (length scenario) with 2%nat in Htotals.
  split; [exact Hclock|].
  assert (Hcolumn : forall a,
            centsIn (field (trailerOffset a) 18 (nth 4 lines []))
            = sumZ (List.map (scenarioCents a) scenario)).
  { intros a. destruct (Htotals a) as (_ & Hdetail & ->).
    cbn [List.seq List.map scenario].
    rewrite (proj2 (proj2 (Hdetail 0%nat _ eq_refl))).
    rewrite (proj2 (proj2 (Hdetail 1%nat _ eq_refl))).
    reflexivity. }
  cbn [List.map]. rewrite !Hcolumn. reflexivity.
Defined.

(** C2 as the specification words it fails.  An amount of [10^15] cents
    has sixteen digits: the detail field keeps the last fifteen, all
    zero, while the trailer field holds all of them.  And three amounts
    that fit their fields sum, in floating point, to a cent more than
    the sum of the cents the detail fields hold. *)
Lemma trailer_totals_counterexample :
  (let lines := fst (remittanceLines sampleHost sampleCompany
                       [darfOf (js "a") (10 ^ 15) 0 0 0] 0) in
   centsIn (field 103 15 (nth 2 lines [])) = 0%Z
   /\ centsIn (field 11 18 (nth 3 lines [])) = (10 ^ 15)%Z)
  /\ (let lines := fst (remittanceLines sampleHost sampleCompany largeDarfs 0) in
      List.map (fun i => centsIn (field 103 15 (nth i lines []))) [2; 3; 4]%nat
      = [910196486841222; 980759313000780; 657349539977816]%Z
      /\ centsIn (field 11 18 (nth 5 lines [])) = 2548305339819819%Z
      /\ (910196486841222 + 980759313000780 + 657349539977816
          = 2548305339819818)%Z).
Proof. vm_compute. repeat split. Qed.

(** * Further properties of the Encoder *)

(** ** Fields of fixed width *)

(** Arithmetic on lengths: the code units of a string are numbers. *)
Ltac len_lia := change char16 with N in *; lia.

Section FixedWidth.

Lemma skipn_repeat (c : char16) (n m : nat) :
  skipn n (repeat c m) = repeat c (m - n).
Proof.
  revert m. induction n as [|n IH]; intros [|m]; simpl; try reflexivity.
  apply IH.
Qed.

Lemma rightZero_zeroFilled (value : jsstring) (w : nat) :
  (0 < w)%nat -> padValue value w rightZero = zeroFilled w value.
Proof.
  intros Hw. unfold zeroFilled, rightmost.
  rewrite length_app, repeat_length, (Nat.add_comm w), Nat.add_sub.
  rewrite skipn_app, skipn_repeat, repeat_length.
  destruct (Nat.le_gt_cases (length value) w) as [Hfit|Hlong].
  - rewrite rightZero_fits by exact Hfit.
    match goal with
    | |- context [skipn ?k value] => replace k with O by len_lia
    end.
    reflexivity.
  - rewrite rightZero_overflow by len_lia.
    match goal with
    | |- context [repeat _ ?k] => replace k with O by len_lia
    end.
    reflexivity.
Qed.

Lemma padLeft_spaceFilled (value : jsstring) (w : nat) :
  padValue value w None = spaceFilled w value.
Proof.
  rewrite padValue_left. unfold spaceFilled, padEnd.
  rewrite (firstn_app w value (repeat 32%N w)), firstn_repeat.
  destruct (w <=? length value)%nat eqn:E.
  - apply Nat.leb_le in E. replace (Nat.min (w - length value) w) with O by lia.
    symmetry. apply app_nil_r.
  - apply Nat.leb_gt in E. change (js " ") with [32%N].
    rewrite cycleFill_single by auto.
    rewrite firstn_app, firstn_repeat. f_equal. f_equal. lia.
Qed.

Lemma length_zeroFilled (w : nat) (s : jsstring) : length (zeroFilled w s) = w.
Proof.
  unfold zeroFilled, rightmost. rewrite length_skipn, length_app, repeat_length. lia.
Qed.

Lemma length_spaceFilled (w : nat) (s : jsstring) : length (spaceFilled w s) = w.
Proof.
  unfold spaceFilled. rewrite length_firstn, length_app, repeat_length. lia.
Qed.

Lemma isDigit_skipn (n : nat) (s : jsstring) :
  forallb isDigit s = true -> forallb isDigit (skipn n s) = true.
Proof.
  intros Hs. rewrite <- (firstn_skipn n s), forallb_app in Hs.
  now apply andb_prop in Hs.
Qed.

Lemma isDigit_repeat (n : nat) : forallb isDigit (repeat 48%N n) = true.
Proof. induction n as [|n IH]; [reflexivity|exact IH]. Qed.

Lemma isDigit_zeroFilled (w : nat) (s : jsstring) :
  forallb isDigit s = true -> forallb isDigit (zeroFilled w s) = true.
Proof.
  intros Hs. unfold zeroFilled, rightmost. apply isDigit_skipn.
  rewrite forallb_app. apply andb_true_intro.
  split; [apply isDigit_repeat|exact Hs].
Qed.

Lemma isDigit_sanitizeNumber (s : jsstring) :
  forallb isDigit (sanitizeNumber s) = true.
Proof.
  unfold sanitizeNumber. apply forallb_forall. intros c Hc.
  now apply filter_In in Hc.
Qed.

(** A field that is padded a second time to its own width is
    unchanged. *)
Lemma zeroFilled_twice (w : nat) (s : jsstring) :
  zeroFilled w (zeroFilled w s) = zeroFilled w s.
Proof.
  unfold zeroFilled at 1. unfold rightmost.
  rewrite length_app, repeat_length, length_zeroFilled.
  replace (w + w - w)%nat with w by lia.
  rewrite skipn_app, repeat_length, Nat.sub_diag, skipn_repeat, Nat.sub_diag.
  reflexivity.
Qed.

Lemma cycleFill_empty (n : nat) : cycleFill n [] [] = [].
Proof. destruct n; reflexivity. Qed.

End FixedWidth.

(** X1: left-justified padding with the default filler gives exactly
    [size] code units, whatever the value and the size: the value and
    then spaces, or the first [size] code units of a value that is too
    long; and padding the result again to the same size changes
    nothing. *)
Theorem padValue_left_justified (value : jsstring) (size : nat) :
  padValue value size None = firstn size (value ++ repeat 32%N size)
  /\ length (padValue value size None) = size
  /\ ((length value <= size)%nat ->
      padValue value size None = value ++ repeat 32%N (size - length value))
  /\ ((size <= length value)%nat -> padValue value size None = firstn size value)
  /\ padValue (padValue value size None) size None = padValue value size None.
Proof.
  split; [apply padLeft_spaceFilled|]. split; [apply padValue_left_length|].
  split; [|split].
  - intros Hfit. rewrite padLeft_spaceFilled. unfold spaceFilled.
    rewrite firstn_app, firstn_all2, firstn_repeat by exact Hfit.
    f_equal. f_equal. lia.
  - intros Hlong. rewrite padLeft_spaceFilled. unfold spaceFilled.
    rewrite firstn_app, firstn_repeat.
    replace (Nat.min (size - length value) size) with O by lia.
    apply app_nil_r.
  - rewrite (padLeft_spaceFilled (padValue value size None)). unfold spaceFilled.
    rewrite firstn_app, padValue_left_length, Nat.sub_diag.
    rewrite firstn_all2 by (rewrite padValue_left_length; lia).
    apply app_nil_r.
Qed.

Lemma padValue_left_justified_witness :
  padValue (js "Acme") 6 None = js "Acme  "
  /\ padValue (js "Acme Ltda") 4 None = js "Acme".
Proof.
  destruct (padValue_left_justified (js "Acme") 6) as (_ & _ & Hfit & _).
  destruct (padValue_left_justified (js "Acme Ltda") 4) as (_ & _ & _ & Hlong & _).
  split; [apply Hfit|apply Hlong]; simpl; lia.
Defined.

(** X2: with any alignment and any filler that is not the empty
    string, [padValue] gives exactly [size] code units, but for a
    right-justified field of size 0, which is the value whole; with the
    empty string as filler nothing is added, and a value shorter than
    the field is returned as it is. *)
Theorem padValue_width (value : jsstring) (size : nat) (a : option Align)
  (f : option jsstring) :
  let padded := padValue value size (Some {| align := a; filler := f |}) in
  (f <> Some [] -> (0 < size)%nat \/ a <> Some AlignRight -> length padded = size)
  /\ (f = Some [] -> (length value <= size)%nat -> padded = value)
  /\ (a = Some AlignRight -> size = 0%nat -> padded = value).
Proof.
  intros padded. subst padded.
  set (fill := match f with
               | Some f' => f'
               | None => match a with
                         | Some AlignRight => js "0"
                         | _ => js " "
                         end
               end).
  assert (Hright : a = Some AlignRight ->
            padValue value size (Some {| align := a; filler := f |})
            = match size with
              | O => value
              | _ => rightmost size (padStart value size fill)
              end).
  { intros ->. unfold padValue. cbv beta iota zeta. rewrite slice_last.
    destruct size; reflexivity. }
  assert (Hleft : a <> Some AlignRight ->
            padValue value size (Some {| align := a; filler := f |})
            = firstn size (padEnd value size fill)).
  { intros Ha. unfold padValue.
    destruct a as [[]|]; try congruence; cbv beta iota zeta;
      rewrite slice_first; reflexivity. }
  assert (Hfill : f <> Some [] -> fill <> []).
  { intros Hf. unfold fill. destruct f as [f'|].
    - intros ->. now apply Hf.
    - destruct a as [[]|]; discriminate. }
  split; [|split].
  - intros Hf Hsize. specialize (Hfill Hf).
    destruct a as [[]|].
    + rewrite Hleft by discriminate.
      rewrite length_firstn, padEnd_length by exact Hfill. lia.
    + rewrite Hright by reflexivity.
      destruct size; [destruct Hsize as [Hs|Hs]; [lia|congruence]|].
      unfold rightmost. rewrite length_skipn, padStart_length by exact Hfill. lia.
    + rewrite Hleft by discriminate.
      rewrite length_firstn, padEnd_length by exact Hfill. lia.
  - intros -> Hfit. cbn in fill. subst fill.
    assert (Hs : padStart value size [] = value).
    { unfold padStart. destruct (size <=? length value)%nat; [reflexivity|].
      now rewrite cycleFill_empty. }
    assert (He : padEnd value size [] = value).
    { unfold padEnd. destruct (size <=? length value)%nat; [reflexivity|].
      rewrite cycleFill_empty. apply app_nil_r. }
    destruct a as [[]|].
    + rewrite Hleft, He by discriminate. now apply firstn_all2.
    + rewrite Hright, Hs by reflexivity. destruct size; [reflexivity|].
      unfold rightmost. now replace (length value - S size)%nat with O by lia.
    + rewrite Hleft, He by discriminate. now apply firstn_all2.
  - intros Ha ->. now rewrite Hright.
Qed.

Lemma padValue_width_witness :
  length (padValue (js "7") 4
            (Some {| align := Some AlignRight; filler := Some (js "ab") |})) = 4%nat
  /\ padValue (js "7") 4 (Some {| align := Some AlignLeft; filler := Some [] |}) = js "7".
Proof.
  destruct (padValue_width (js "7") 4 (Some AlignRight) (Some (js "ab")))
    as (Hsize & _).
  destruct (padValue_width (js "7") 4 (Some AlignLeft) (Some []))
    as (_ & Hempty & _).
  split.
  - apply Hsize; [discriminate|left; lia].
  - apply Hempty; [reflexivity|simpl; lia].
Defined.

(** ** The two header lines *)

Section HeaderFields.

Variable H : Host.

(** The part at index [i] of a line, found at the offset the parts
    before it add up to. *)
Ltac part_at i :=
  apply (buildLine_part _ i);
  [reflexivity
  |cbn [firstn concat];
   rewrite ?length_app, ?rightZero_length, ?padValue_left_length by lia
  |first [apply rightZero_length; lia|apply padValue_left_length
         |assumption|reflexivity|idtac]
  |lia].

Lemma fileTimeOf_valid (d : JsDate) :
  validTime d ->
  length (fileTimeOf d) = 4%nat /\ forallb isDigit (fileTimeOf d) = true.
Proof.
  intros [Hh Hm]. unfold fileTimeOf.
  destruct (padStart_two_digits (getHours d)) as [L1 D1]; [lia|].
  destruct (padStart_two_digits (getMinutes d)) as [L2 D2]; [lia|].
  rewrite length_app, forallb_app, L1, L2, D1, D2. split; reflexivity.
Qed.

(** The parts of the file header that come from the company. *)
Lemma headerArquivo_company (company : CompanyInfo) (fileDate fileTime : jsstring) :
  let line := headerArquivo H company fileDate fileTime in
  field 2 3 line = bancoOf company
  /\ field 19 20 line = convenioOf company
  /\ field 44 14 line = padValue (cnpjOf company) 14 rightZero
  /\ field 78 30 line = companyNameOf H company
  /\ field 108 30 line = padValue (js "BANCO SANTANDER") 30 None.
Proof.
  intros line. subst line.
  unfold headerArquivo, bancoOf, convenioOf, cnpjOf, companyNameOf.
  split; [|split; [|split; [|split]]].
  - part_at 2%nat; reflexivity.
  - part_at 5%nat; reflexivity.
  - part_at 7%nat; reflexivity.
  - part_at 9%nat; reflexivity.
  - part_at 10%nat; reflexivity.
Qed.

(** The date and the time of the file header, digit group by digit
    group. *)
Lemma headerArquivo_clock (company : CompanyInfo) (d : JsDate) :
  validDate d -> validTime d ->
  let line := headerArquivo H company (ddmmyyyy d) (fileTimeOf d) in
  field 138 2 line = padStart (intToString (getDate d)) 2 (js "0")
  /\ field 140 2 line = padStart (intToString (getMonth d + 1)) 2 (js "0")
  /\ field 142 4 line = intToString (getFullYear d)
  /\ field 146 2 line = padStart (intToString (getHours d)) 2 (js "0")
  /\ field 148 2 line = padStart (intToString (getMinutes d)) 2 (js "0")
  /\ field 150 6 line = js "000001"
  /\ field 138 8 line = ddmmyyyy d
  /\ field 146 4 line = fileTimeOf d.
Proof.
  intros (Hday & Hmonth & Hyear) [Hh Hm] line.
  destruct (padStart_two_digits (getDate d)) as [L1 _]; [lia|].
  destruct (padStart_two_digits (getMonth d + 1)) as [L2 _]; [lia|].
  destruct (year_four_digits _ Hyear) as [L3 _].
  destruct (padStart_two_digits (getHours d)) as [L4 _]; [lia|].
  destruct (padStart_two_digits (getMinutes d)) as [L5 _]; [lia|].
  destruct (ddmmyyyy_valid d) as [L6 _]; [repeat split; lia|].
  destruct (fileTimeOf_valid d) as [L7 _]; [split; lia|].
  assert (Hline : line
    = buildLine [
        js "0"; js "1"; bancoOf company; js "00000"; padValue (js " ") 9 None;
        convenioOf company; padValue (js " ") 5 None;
        padValue (cnpjOf company) 14 rightZero; padValue (js " ") 20 None;
        companyNameOf H company; padValue (js "BANCO SANTANDER") 30 None;
        padStart (intToString (getDate d)) 2 (js "0");
        padStart (intToString (getMonth d + 1)) 2 (js "0");
        intToString (getFullYear d);
        padStart (intToString (getHours d)) 2 (js "0");
        padStart (intToString (getMinutes d)) 2 (js "0");
        padValue (js "1") 6 rightZero; padValue (js " ") 71 None]).
  { unfold line, headerArquivo, buildLine, ddmmyyyy, fileTimeOf.
    cbn [concat]. now rewrite <- !app_assoc. }
  split; [|split; [|split; [|split; [|split; [|split; [|split]]]]]].
  1-6: rewrite Hline; unfold bancoOf, convenioOf, cnpjOf, companyNameOf.
  - part_at 11%nat; reflexivity.
  - part_at 12%nat; now rewrite L1.
  - part_at 13%nat; now rewrite L1, L2.
  - part_at 14%nat; now rewrite L1, L2, L3.
  - part_at 15%nat; now rewrite L1, L2, L3, L4.
  - part_at 16%nat; now rewrite L1, L2, L3, L4, L5.
  - unfold line, headerArquivo, bancoOf, convenioOf, cnpjOf, companyNameOf.
    part_at 11%nat; reflexivity.
  - unfold line, headerArquivo, bancoOf, convenioOf, cnpjOf, companyNameOf.
    part_at 12%nat; now rewrite L6.
Qed.

(** The parts of the batch header that come from the company. *)
Lemma headerLote_company (company : CompanyInfo) (fileDate : jsstring)
  (darfs : list DarfRecord) :
  let line := headerLote H company fileDate darfs in
  field 1 3 line = bancoOf company
  /\ field 17 20 line = padValue (convenioOf company) 20 rightZero
  /\ field 42 4 line = agenciaOf company
  /\ field 46 1 line = dvAgenciaOf company
  /\ field 47 9 line = contaOf company
  /\ field 57 1 line = dvContaOf company
  /\ field 58 30 line = companyNameOf H company.
Proof.
  intros line. subst line.
  unfold headerLote, bancoOf, convenioOf, agenciaOf, dvAgenciaOf, contaOf,
    dvContaOf, companyNameOf.
  split; [|split; [|split; [|split; [|split; [|split]]]]].
  - part_at 1%nat; reflexivity.
  - part_at 9%nat; reflexivity.
  - part_at 11%nat; reflexivity.
  - part_at 12%nat; reflexivity.
  - part_at 13%nat; reflexivity.
  - part_at 15%nat; reflexivity.
  - part_at 16%nat; reflexivity.
Qed.

(** The date and the number of records of the batch header. *)
Lemma headerLote_fields (company : CompanyInfo) (fileDate : jsstring)
  (darfs : list DarfRecord) :
  length fileDate = 8%nat ->
  let line := headerLote H company fileDate darfs in
  field 158 8 line = fileDate
  /\ field 174 6 line
     = padValue (padStart (natToString (length darfs)) 5 (js "0")) 6 rightZero.
Proof.
  intros Hdate line. subst line.
  unfold headerLote, bancoOf, convenioOf, agenciaOf, dvAgenciaOf, contaOf,
    dvContaOf, companyNameOf.
  split.
  - part_at 19%nat; reflexivity.
  - part_at 21%nat; now rewrite Hdate.
Qed.

End HeaderFields.

(** X3: in the file header and in the batch header the bank code, the
    agreement, the tax number, the branch, the account and their check
    digits are the digits of the company's texts (the bank code 033
    when the text is empty), zero-filled on the left to the width of
    the field and cut to its rightmost digits: fields of digits only,
    whatever the texts hold. *)
Theorem header_company_fields (H : Host) (company : CompanyInfo)
  (darfs : list DarfRecord) (t : nat) :
  let lines := fst (remittanceLines H company darfs t) in
  let header := nth 0 lines [] in
  let batch := nth 1 lines [] in
  let digits := fun w text => zeroFilled w (sanitizeNumber text) in
  field 2 3 header = digits 3%nat (orElse (Company.banco company) (js "033"))
  /\ field 19 20 header = digits 20%nat (Company.convenio company)
  /\ field 44 14 header = digits 14%nat (Company.cnpj company)
  /\ field 1 3 batch = digits 3%nat (orElse (Company.banco company) (js "033"))
  /\ field 17 20 batch = digits 20%nat (Company.convenio company)
  /\ field 42 4 batch = digits 4%nat (Company.agencia company)
  /\ field 46 1 batch = digits 1%nat (Company.dvAgencia company)
  /\ field 47 9 batch = digits 9%nat (Company.conta company)
  /\ field 57 1 batch = digits 1%nat (Company.dvConta company)
  /\ (forall w text,
        length (digits w text) = w /\ forallb isDigit (digits w text) = true).
Proof.
  intros lines header batch digits.
  destruct (remittanceLines_nth H company darfs t) as (_ & Hheader & Hbatch & _).
  fold lines in Hheader, Hbatch. fold header in Hheader. fold batch in Hbatch.
  destruct (headerArquivo_company H company (ddmmyyyy (now H t))
              (fileTimeOf (now H t))) as (A1 & A2 & A3 & _).
  rewrite <- Hheader in A1, A2, A3.
  destruct (headerLote_company H company (ddmmyyyy (now H t)) darfs)
    as (B1 & B2 & B3 & B4 & B5 & B6 & _).
  rewrite <- Hbatch in B1, B2, B3, B4, B5, B6.
  unfold digits.
  rewrite A1, A2, A3, B1, B2, B3, B4, B5, B6.
  unfold bancoOf, convenioOf, cnpjOf, agenciaOf, dvAgenciaOf, contaOf, dvContaOf.
  rewrite !rightZero_zeroFilled, !zeroFilled_twice by lia.
  repeat split; try reflexivity.
  - apply length_zeroFilled.
  - apply isDigit_zeroFilled, isDigit_sanitizeNumber.
Qed.

(** X4: with the clock reading a valid date and time of day, the file
    header carries the company name in capitals (30 code units, space
    filled), the bank name, the day, month and year of the creation
    date as DDMMYYYY at offset 138, the hours and minutes as HHMM at
    offset 146 and the sequence 000001; the batch header carries the
    same name and the same date. *)
Theorem header_texts (H : Host) (company : CompanyInfo) (darfs : list DarfRecord)
  (t : nat) (Hdate : validDate (now H t)) (Htime : validTime (now H t)) :
  let lines := fst (remittanceLines H company darfs t) in
  let header := nth 0 lines [] in
  let batch := nth 1 lines [] in
  let d := now H t in
  field 78 30 header = spaceFilled 30 (toUpperCase H (Company.empresa company))
  /\ field 58 30 batch = spaceFilled 30 (toUpperCase H (Company.empresa company))
  /\ field 108 30 header = js "BANCO SANTANDER" ++ repeat 32%N 15
  /\ forallb isDigit (field 138 8 header ++ field 146 4 header) = true
  /\ List.map (fun '(off, len) => Z.of_N (valueOfDigits (field off len header)))
       [(138, 2); (140, 2); (142, 4); (146, 2); (148, 2)]%nat
     = [getDate d; getMonth d + 1; getFullYear d; getHours d; getMinutes d]%Z
  /\ field 150 6 header = js "000001"
  /\ field 158 8 batch = field 138 8 header.
Proof.
  intros lines header batch d.
  destruct (remittanceLines_nth H company darfs t) as (_ & Hheader & Hbatch & _).
  fold lines in Hheader, Hbatch. fold header in Hheader. fold batch in Hbatch.
  subst d. set (d := now H t) in *. clearbody d.
  destruct (headerArquivo_company H company (ddmmyyyy d) (fileTimeOf d))
    as (_ & _ & _ & A4 & A5).
  destruct (headerArquivo_clock H company d Hdate Htime)
    as (C1 & C2 & C3 & C4 & C5 & C6 & C7 & C8).
  destruct (ddmmyyyy_valid d Hdate) as [L8 D8].
  destruct (fileTimeOf_valid d Htime) as [L4 D4].
  destruct (headerLote_company H company (ddmmyyyy d) darfs)
    as (_ & _ & _ & _ & _ & _ & B7).
  destruct (headerLote_fields H company (ddmmyyyy d) darfs L8) as (B8 & _).
  rewrite <- Hheader in A4, A5, C1, C2, C3, C4, C5, C6, C7, C8.
  rewrite <- Hbatch in B7, B8.
  destruct Hdate as (Hday & Hmonth & Hyear). destruct Htime as [Hh Hm].
  split; [|split; [|split; [|split; [|split; [|split]]]]].
  - rewrite A4. apply padLeft_spaceFilled.
  - rewrite B7. apply padLeft_spaceFilled.
  - rewrite A5. reflexivity.
  - rewrite C7, C8, forallb_app, D8, D4. reflexivity.
  - cbn [List.map]. rewrite C1, C2, C3, C4, C5.
    rewrite !padStart_two_value, year_value by lia. reflexivity.
  - exact C6.
  - now rewrite B8, C7.
Qed.

Lemma header_texts_witness :
  let lines := fst (remittanceLines sampleHost sampleCompany [sampleDarf] 0) in
  validDate (now sampleHost 0) /\ validTime (now sampleHost 0)
  /\ field 78 30 (nth 0 lines []) = js "ACME LTDA                     "
  /\ List.map (fun '(off, len) =>
                  Z.of_N (valueOfDigits (field off len (nth 0 lines []))))
       [(138, 2); (140, 2); (142, 4); (146, 2); (148, 2)]%nat
     = [2; 11; 2026; 9; 5]%Z.
Proof.
  intros lines.
  assert (Hdate : validDate (now sampleHost 0)) by (vm_compute; intuition discriminate).
  assert (Htime : validTime (now sampleHost 0)) by (vm_compute; intuition discriminate).
  destruct (header_texts sampleHost sampleCompany [sampleDarf] 0 Hdate Htime)
    as (Hname & _ & _ & _ & Hclock & _).
  fold lines in Hname, Hclock.
  split; [exact Hdate|]. split; [exact Htime|]. split.
  - rewrite Hname. reflexivity.
  - exact Hclock.
Defined.

(** X5: with the clock reading a valid date, the six code units at
    offset 174 of the batch header are the number of records, in
    digits, for every list of fewer than one million records. *)
Theorem headerLote_count (H : Host) (company : CompanyInfo) (darfs : list DarfRecord)
  (t : nat) (Hdate : validDate (now H t))
  (Hcount : (N.of_nat (length darfs) < 1000000)%N) :
  let lines := fst (remittanceLines H company darfs t) in
  let count := field 174 6 (nth 1 lines []) in
  length count = 6%nat /\ forallb isDigit count = true
  /\ valueOfDigits count = N.of_nat (length darfs).
Proof.
  intros lines count.
  destruct (remittanceLines_nth H company darfs t) as (_ & _ & Hbatch & _).
  fold lines in Hbatch.
  destruct (ddmmyyyy_valid (now H t) Hdate) as [L8 _].
  destruct (headerLote_fields H company (ddmmyyyy (now H t)) darfs L8) as (_ & B9).
  rewrite <- Hbatch in B9. fold count in B9. rewrite B9.
  set (n := N.of_nat (length darfs)) in *.
  assert (Hdigits : forallb isDigit (digitsOfN n) = true) by apply isDigit_digitsOfN.
  assert (Hlen : (length (digitsOfN n) <= 6)%nat).
  { apply length_digitsOfN_le; [lia|]. change (10 ^ N.of_nat 6)%N with 1000000%N. lia. }
  assert (Hpad : exists k, padStart (natToString (length darfs)) 5 (js "0")
                           = repeat 48%N k ++ digitsOfN n
                           /\ (k + length (digitsOfN n) <= 6)%nat).
  { unfold natToString, padStart. fold n.
    destruct (5 <=? length (digitsOfN n))%nat eqn:E.
    - exists 0%nat. split; [reflexivity|simpl; lia].
    - apply Nat.leb_gt in E. exists (5 - length (digitsOfN n))%nat.
      change (js "0") with [48%N]. rewrite cycleFill_single by auto.
      split; [reflexivity|lia]. }
  destruct Hpad as (k & -> & Hk).
  assert (Hfit : (length (repeat 48%N k ++ digitsOfN n) <= 6)%nat)
    by (rewrite length_app, repeat_length; exact Hk).
  split; [apply rightZero_length; lia|]. split.
  - apply isDigit_rightZero; [|exact Hfit].
    rewrite forallb_app, isDigit_repeat. exact Hdigits.
  - rewrite rightZero_fits by exact Hfit.
    now rewrite !valueOfDigits_zeros, valueOfDigits_digitsOfN.
Qed.

Lemma headerLote_count_witness :
  let lines := fst (remittanceLines sampleHost sampleCompany scenario 0) in
  validDate (now sampleHost 0)
  /\ valueOfDigits (field 174 6 (nth 1 lines [])) = 2%N.
Proof.
  intros lines.
  assert (Hdate : validDate (now sampleHost 0)) by (vm_compute; intuition discriminate).
  assert (Hcount : (N.of_nat (length scenario) < 1000000)%N) by reflexivity.
  destruct (headerLote_count sampleHost sampleCompany scenario 0 Hdate Hcount)
    as (_ & _ & Hvalue).
  split; [exact Hdate|exact Hvalue].
Defined.

(** ** The detail lines *)

Section DetailFields.

Variable H : Host.

Ltac part_at i :=
  apply (buildLine_part _ i);
  [reflexivity
  |cbn [firstn concat];
   rewrite ?length_app, ?rightZero_length, ?padValue_left_length by lia
  |first [apply rightZero_length; lia|apply padValue_left_length
         |assumption|reflexivity|idtac]
  |lia].

(** The parts of a detail line that identify the payer and the tax. *)
Lemma detailOf_identification (sequential : nat) (darf : DarfRecord)
  (period vencimento : jsstring) :
  let line := detailOf H sequential darf period vencimento in
  field 1 4 line = js "0001"
  /\ field 10 1 line = js "A"
  /\ field 11 15 line = zeroFilled 15 (sanitizeNumber (cnpj darf))
  /\ field 26 30 line = spaceFilled 30 (toUpperCase H (nome darf))
  /\ field 56 6 line = zeroFilled 6 (codigoReceita darf)
  /\ field 62 25 line = zeroFilled 25 (sanitizeNumber (numeroReferencia darf)).
Proof.
  intros line. subst line. unfold detailOf.
  rewrite <- !rightZero_zeroFilled, <- padLeft_spaceFilled by lia.
  split; [|split; [|split; [|split; [|split]]]].
  - part_at 1%nat; reflexivity.
  - part_at 3%nat; reflexivity.
  - part_at 4%nat; reflexivity.
  - part_at 5%nat; reflexivity.
  - part_at 6%nat; reflexivity.
  - part_at 7%nat; reflexivity.
Qed.

(** The two dates of a detail line. *)
Lemma detailOf_dates (sequential : nat) (darf : DarfRecord)
  (period vencimento : jsstring) :
  length period = 8%nat -> length vencimento = 8%nat ->
  let line := detailOf H sequential darf period vencimento in
  field 87 8 line = period /\ field 95 8 line = vencimento.
Proof.
  intros Hp Hv line. subst line. unfold detailOf. split.
  - part_at 8%nat; reflexivity.
  - part_at 9%nat; now rewrite Hp.
Qed.

(** A text that holds a date is encoded without the clock. *)
Lemma formatDateToCnab_dateDigits (s digits : jsstring) (t : nat) :
  dateDigits s = Some digits -> formatDateToCnab H (OfString s) t = (digits, t).
Proof.
  unfold dateDigits. intros Hd. rewrite formatDateToCnab_eq.
  destruct (isEightDigits (trim s)); [now injection Hd as <-|].
  destruct (matchDate (trim s)) as [[[day month] year]|]; [|discriminate].
  now injection Hd as <-.
Qed.

(** Any other text is the date of one more reading of the clock. *)
Lemma formatDateToCnab_unread (s : jsstring) (t : nat) :
  dateDigits s = None ->
  formatDateToCnab H (OfString s) t = (ddmmyyyy (now H t), S t).
Proof.
  unfold dateDigits. intros Hd. rewrite formatDateToCnab_eq.
  destruct (isEightDigits (trim s)); [discriminate|].
  destruct (matchDate (trim s)) as [[[day month] year]|]; [discriminate|reflexivity].
Qed.

Lemma formatDateToCnab_clock (s : jsstring) (t : nat) :
  snd (formatDateToCnab H (OfString s) t)
  = if isSome (dateDigits s) then t else S t.
Proof.
  destruct (dateDigits s) as [digits|] eqn:E.
  - now rewrite (formatDateToCnab_dateDigits _ _ _ E).
  - now rewrite (formatDateToCnab_unread _ _ E).
Qed.

(** The detail line of a record, with the readings of the clock that
    its two dates are encoded at: the due date first, then the
    period. *)
Lemma detailLinesFrom_clock (creationDate : JsDate) (darfs : list DarfRecord)
  (sequential t : nat) :
  let run := detailLinesFrom H creationDate sequential darfs t in
  (t <= snd run <= t + 2 * length darfs)%nat
  /\ ((forall darf, In darf darfs ->
         isSome (dateDigits (dataVencimento darf)) = true
         /\ isSome (dateDigits (orElse (periodoApuracao darf)
                                  (dateFormat H creationDate))) = true) ->
      snd run = t)
  /\ forall i darf,
       nth_error darfs i = Some darf ->
       exists t1,
         (t <= t1 <= t + 2 * i)%nat
         /\ let due := formatDateToCnab H (OfString (dataVencimento darf)) t1 in
            nth_error (fst run) i
            = Some (detailOf H (sequential + i) darf
                      (fst (formatDateToCnab H
                              (OfString (orElse (periodoApuracao darf)
                                           (dateFormat H creationDate)))
                              (snd due)))
                      (fst due)).
Proof.
  revert sequential t.
  induction darfs as [|darf rest IH]; intros sequential t run; subst run.
  - cbn. split; [lia|]. split; [reflexivity|]. intros [|i] d Hd; discriminate.
  - cbn [detailLinesFrom]. unfold detailLine. unfold bind, ret.
    pose proof (formatDateToCnab_clock (dataVencimento darf) t) as Hv.
    destruct (formatDateToCnab H (OfString (dataVencimento darf)) t)
      as [v tv] eqn:Ev.
    pose proof (formatDateToCnab_clock
                  (orElse (periodoApuracao darf) (dateFormat H creationDate)) tv)
      as Hp.
    destruct (formatDateToCnab H
                (OfString (orElse (periodoApuracao darf)
                             (dateFormat H creationDate))) tv)
      as [p tp] eqn:Ep.
    unfold bind, ret in *. cbn [snd fst] in *.
    specialize (IH (S sequential) tp). cbv zeta in IH.
    destruct (detailLinesFrom H creationDate (S sequential) rest tp)
      as [lines tl].
    cbn [fst snd length] in *. destruct IH as (IHclock & IHnone & IHnth).
    assert (Htv : (t <= tv <= S t)%nat)
      by (rewrite Hv; destruct (isSome (dateDigits (dataVencimento darf))); lia).
    assert (Htp : (tv <= tp <= S tv)%nat).
    { rewrite Hp.
      destruct (isSome (dateDigits (orElse (periodoApuracao darf)
                                      (dateFormat H creationDate)))); lia. }
    split; [lia|]. split.
    + intros Hall. destruct (Hall darf (or_introl eq_refl)) as [Hd1 Hd2].
      rewrite Hd1 in Hv. rewrite Hd2 in Hp.
      rewrite IHnone by (intros d Hd; apply Hall; now right). congruence.
    + intros [|i] d Hd.
      * injection Hd as <-. exists t. split; [lia|].
        cbv zeta. rewrite Ev. cbn [fst snd]. rewrite Ep, Nat.add_0_r. reflexivity.
      * destruct (IHnth i d Hd) as (t1 & Ht1 & Hline).
        exists t1. split; [lia|]. cbv zeta in *. cbn [nth_error].
        rewrite Hline. now rewrite Nat.add_succ_r.
Qed.

(** The date format of [pt-BR] writes a date that is read back. *)
Lemma dateDigits_ptBR (d : JsDate) :
  validDate d -> dateDigits (ptBR d) = Some (ddmmyyyy d).
Proof.
  intros (Hday & Hmonth & Hyear). unfold ptBR, ddmmyyyy.
  destruct (padStart_two_digits (getDate d)) as [L1 D1]; [lia|].
  destruct (padStart_two_digits (getMonth d + 1)) as [L2 D2]; [lia|].
  destruct (year_four_digits _ Hyear) as [L3 D3].
  destruct (padStart (intToString (getDate d)) 2 (js "0"))
    as [|d1 [|d2 [|? ?]]]; try discriminate.
  destruct (padStart (intToString (getMonth d + 1)) 2 (js "0"))
    as [|m1 [|m2 [|? ?]]]; try discriminate.
  destruct (intToString (getFullYear d))
    as [|y1 [|y2 [|y3 [|y4 [|? ?]]]]]; try discriminate.
  cbn [forallb] in D1, D2, D3.
  repeat match goal with
         | Hd : _ && _ = true |- _ => apply andb_prop in Hd as [? ?]
         end.
  unfold dateDigits.
  rewrite trim_plain.
  - change (js "/") with [47%N]. cbn [app isEightDigits length Nat.eqb andb].
    cbn [matchDate dateAt forallb isDateSep N.eqb Pos.eqb orb andb].
    repeat match goal with
           | Hd : isDigit ?c = true |- _ => rewrite Hd; clear Hd
           end.
    reflexivity.
  - intros c Hc. injection Hc as <-. now apply isSpace_digit.
  - intros c Hc. change (js "/") with [47%N] in Hc. cbn in Hc.
    injection Hc as <-. now apply isSpace_digit.
Qed.

End DetailFields.

Section DetailLines.

Variable H : Host.

(** The detail line of the record at index [i] of a file. *)
Lemma remittanceLines_detail (company : CompanyInfo) (darfs : list DarfRecord)
  (t i : nat) (darf : DarfRecord) :
  nth_error darfs i = Some darf ->
  exists t1,
    (S t <= t1 <= S t + 2 * i)%nat
    /\ let due := formatDateToCnab H (OfString (dataVencimento darf)) t1 in
       nth (i + 2) (fst (remittanceLines H company darfs t)) []
       = detailOf H (1 + i) darf
           (fst (formatDateToCnab H
                   (OfString (orElse (periodoApuracao darf)
                                (dateFormat H (now H t))))
                   (snd due)))
           (fst due).
Proof.
  intros Hi.
  assert (Hlt : (i < length darfs)%nat) by (apply nth_error_Some; congruence).
  destruct (remittanceLines_nth H company darfs t) as (_ & _ & _ & Hdetail & _).
  destruct (detailLinesFrom_clock H (now H t) darfs 1 (S t)) as (_ & _ & Hnth).
  destruct (Hnth i darf Hi) as (t1 & Ht1 & Hline).
  exists t1. split; [exact Ht1|]. cbv zeta in *.
  rewrite (Hdetail i Hlt). now apply nth_error_nth.
Qed.

Lemma remittanceLines_clock (company : CompanyInfo) (darfs : list DarfRecord)
  (t : nat) :
  snd (generateSantanderRemittance H company darfs t)
  = snd (detailLinesFrom H (now H t) 1 darfs (S t)).
Proof.
  unfold generateSantanderRemittance, remittanceLines, bind, ret, newDate.
  rewrite formatDateToCnab_eq.
  now destruct (detailLinesFrom H (now H t) 1 darfs (S t)).
Qed.

End DetailLines.

(** X6: the detail line of every record carries, after the record
    type, the batch 0001 and the sequence number, the segment A, the
    digits of the payer's tax number zero-filled to 15, the payer's
    name in capitals in 30 code units, the revenue code zero-filled to
    6 as it is written (it is not reduced to its digits) and the digits
    of the reference number zero-filled to 25. *)
Theorem detail_identification (H : Host) (company : CompanyInfo)
  (darfs : list DarfRecord) (t i : nat) (darf : DarfRecord)
  (Hi : nth_error darfs i = Some darf) :
  let line := nth (i + 2) (fst (remittanceLines H company darfs t)) [] in
  field 1 4 line = js "0001"
  /\ field 10 1 line = js "A"
  /\ field 11 15 line = zeroFilled 15 (sanitizeNumber (cnpj darf))
  /\ field 26 30 line = spaceFilled 30 (toUpperCase H (nome darf))
  /\ field 56 6 line = zeroFilled 6 (codigoReceita darf)
  /\ field 62 25 line = zeroFilled 25 (sanitizeNumber (numeroReferencia darf))
  /\ forallb isDigit (field 11 15 line ++ field 62 25 line) = true.
Proof.
  intros line.
  destruct (remittanceLines_detail H company darfs t i darf Hi) as (t1 & _ & Hline).
  cbv zeta in Hline. fold line in Hline.
  match type of Hline with
  | _ = detailOf _ ?s _ ?p ?v =>
      destruct (detailOf_identification H s darf p v) as (F1 & F2 & F3 & F4 & F5 & F6)
  end.
  rewrite <- Hline in F1, F2, F3, F4, F5, F6.
  repeat (split; [assumption|]).
  rewrite F3, F6, forallb_app.
  now rewrite !isDigit_zeroFilled by apply isDigit_sanitizeNumber.
Qed.

Lemma detail_identification_witness :
  let line := nth 2 (fst (remittanceLines sampleHost sampleCompany [sampleDarf] 0)) [] in
  field 11 15 line = js "012345678000190"
  /\ field 26 30 line = js "JOAO DA SILVA                 "
  /\ field 56 6 line = js "000561".
Proof.
  intros line.
  destruct (detail_identification sampleHost sampleCompany [sampleDarf] 0 0 sampleDarf
              eq_refl) as (_ & _ & Hcnpj & Hnome & Hcodigo & _).
  cbn [Nat.add] in Hcnpj, Hnome, Hcodigo. fold line in Hcnpj, Hnome, Hcodigo.
  rewrite Hcnpj, Hnome, Hcodigo. repeat split.
Defined.

(** X7: with the clock reading valid dates, the two dates of the
    detail line of every record are eight digits each: the assessment
    period at offset 87 and the due date at offset 95.  A text that
    holds a date gives its digits; a due date that holds none gives the
    date of a reading of the clock made after the file was started; and
    a record without assessment period, under the date format of pt-BR,
    carries the creation date of the file header. *)
Theorem detail_dates (H : Host) (company : CompanyInfo) (darfs : list DarfRecord)
  (t i : nat) (darf : DarfRecord)
  (Hclock : forall t', validDate (now H t'))
  (Hi : nth_error darfs i = Some darf) :
  let lines := fst (remittanceLines H company darfs t) in
  let period := field 87 8 (nth (i + 2) lines []) in
  let due := field 95 8 (nth (i + 2) lines []) in
  (length period = 8%nat /\ forallb isDigit period = true)
  /\ (length due = 8%nat /\ forallb isDigit due = true)
  /\ (forall digits, dateDigits (dataVencimento darf) = Some digits -> due = digits)
  /\ (dateDigits (dataVencimento darf) = None ->
      exists t', (t < t' <= t + 1 + 2 * i)%nat /\ due = ddmmyyyy (now H t'))
  /\ (forall digits,
        dateDigits (orElse (periodoApuracao darf) (dateFormat H (now H t)))
        = Some digits ->
        period = digits)
  /\ (periodoApuracao darf = [] -> dateFormat H (now H t) = ptBR (now H t) ->
      period = field 138 8 (nth 0 lines [])).
Proof.
  intros lines period due.
  destruct (remittanceLines_detail H company darfs t i darf Hi) as (t1 & Ht1 & Hline).
  cbv zeta in Hline. fold lines in Hline.
  set (dueAt := formatDateToCnab H (OfString (dataVencimento darf)) t1) in *.
  set (periodText := orElse (periodoApuracao darf) (dateFormat H (now H t))) in *.
  destruct (formatDateToCnab_digits H (OfString (dataVencimento darf)) t1 (Hclock t1))
    as [Lv Dv].
  destruct (formatDateToCnab_digits H (OfString periodText) (snd dueAt)
              (Hclock (snd dueAt))) as [Lp Dp].
  fold dueAt in Lv, Dv.
  destruct (detailOf_dates H (1 + i) darf _ _ Lp Lv) as [Fp Fv].
  rewrite <- Hline in Fp, Fv. fold period in Fp. fold due in Fv.
  split; [now rewrite Fp|]. split; [now rewrite Fv|].
  split; [|split; [|split]].
  - intros digits Hd. rewrite Fv. unfold dueAt.
    now rewrite (formatDateToCnab_dateDigits H _ _ t1 Hd).
  - intros Hd. exists t1. split; [lia|]. rewrite Fv. unfold dueAt.
    now rewrite (formatDateToCnab_unread H _ t1 Hd).
  - intros digits Hd. rewrite Fp.
    now rewrite (formatDateToCnab_dateDigits H _ _ (snd dueAt) Hd).
  - intros Hempty Hformat. rewrite Fp. unfold periodText.
    rewrite Hempty. cbn [orElse]. rewrite Hformat.
    rewrite (formatDateToCnab_dateDigits H _ _ (snd dueAt)
               (dateDigits_ptBR _ (Hclock t))).
    destruct (remittanceLines_nth H company darfs t) as (_ & Hheader & _).
    fold lines in Hheader. rewrite Hheader.
    destruct (ddmmyyyy_valid (now H t) (Hclock t)) as [L8 _].
    symmetry. unfold headerArquivo, bancoOf, convenioOf, cnpjOf, companyNameOf.
    apply (buildLine_part _ 11); [reflexivity| |exact L8|lia].
    cbn [firstn concat].
    rewrite ?length_app, ?rightZero_length, ?padValue_left_length by lia.
    reflexivity.
Qed.

Lemma detail_dates_witness :
  let darf := darfOf (js "a") 100 0 0 100 in
  let late :=
    {| id := js "b"; nome := js "B"; periodoApuracao := [];
       cnpj := js "1"; codigoReceita := js "0561"; numeroReferencia := js "2";
       dataVencimento := js "amanha";
       valorPrincipal := ofInt 1; valorMulta := ofInt 0; valorJuros := ofInt 0;
       valorTotal := ofInt 1 |} in
  let lines := fst (remittanceLines sampleHost sampleCompany [darf; late] 0) in
  (forall t', validDate (now sampleHost t'))
  /\ field 87 8 (nth 2 lines []) = js "31012024"
  /\ field 95 8 (nth 2 lines []) = js "20022024"
  /\ field 87 8 (nth 3 lines []) = field 138 8 (nth 0 lines []).
Proof.
  intros darf late lines.
  assert (Hclock : forall t', validDate (now sampleHost t'))
    by (intros t'; vm_compute; intuition discriminate).
  destruct (detail_dates sampleHost sampleCompany [darf; late] 0 0 darf Hclock eq_refl)
    as (_ & _ & Hdue & _ & Hperiod & _).
  destruct (detail_dates sampleHost sampleCompany [darf; late] 0 1 late Hclock eq_refl)
    as (_ & _ & _ & _ & _ & Hdefault).
  cbn [Nat.add] in Hdue, Hperiod, Hdefault. fold lines in Hdue, Hperiod, Hdefault.
  split; [exact Hclock|]. split; [|split].
  - apply Hperiod. reflexivity.
  - apply Hdue. reflexivity.
  - apply Hdefault; reflexivity.
Defined.

(** ** Readings of the clock *)

Section Readings.

Variable H : Host.

Lemma matchDate_somewhere (s : jsstring) (g : jsstring * jsstring * jsstring) :
  matchDate s = Some g -> exists k, dateAt (skipn k s) = Some g.
Proof.
  induction s as [|c s IH]; cbn [matchDate].
  - destruct (dateAt []) eqn:E; [|discriminate].
    intros Heq. injection Heq as <-. now exists 0%nat.
  - destruct (dateAt (c :: s)) eqn:E.
    + intros Heq. injection Heq as <-. now exists 0%nat.
    + intros Heq. destruct (IH Heq) as [k Hk]. now exists (S k).
Qed.

Lemma matchDate_none (s : jsstring) :
  matchDate s = None -> forall k, dateAt (skipn k s) = None.
Proof.
  induction s as [|c s IH]; cbn [matchDate].
  - intros _ k. now destruct k.
  - destruct (dateAt (c :: s)) eqn:E; [discriminate|].
    intros Hnone [|k]; [exact E|]. exact (IH Hnone k).
Qed.

(** The texts a date is read in, without the clock. *)
Lemma dateDigits_readable (s : jsstring) :
  isSome (dateDigits s) = true <-> readable s.
Proof.
  unfold dateDigits, readable, isEightDigits. split.
  - destruct (Nat.eqb_spec (length (trim s)) 8) as [Hlen|Hlen];
      [destruct (forallb isDigit (trim s)) eqn:Hdig; [now left|]|];
      cbn [andb];
      (destruct (matchDate (trim s)) as [[[day month] year]|] eqn:Em;
       [|discriminate]);
      intros _; right; destruct (matchDate_somewhere _ _ Em) as [k Hk];
      exists k, day, month, year; now apply dateAt_written.
  - intros [[Hlen Hdig]|(k & day & month & year & Hw)].
    + now rewrite Hlen, Hdig.
    + destruct (_ && _); [reflexivity|].
      destruct (matchDate (trim s)) as [[[d m] y]|] eqn:Em; [reflexivity|].
      apply dateAt_written in Hw. now rewrite (matchDate_none _ Em k) in Hw.
Qed.

(** The readings of the clock the detail lines make: one for every
    date that holds no date. *)
Lemma detailLinesFrom_readings (creationDate : JsDate) (darfs : list DarfRecord) :
  forall sequential t,
    snd (detailLinesFrom H creationDate sequential darfs t)
    = (t + list_sum (List.map (unreadDates H creationDate) darfs))%nat.
Proof.
  induction darfs as [|darf rest IH]; intros sequential t.
  - cbn. lia.
  - cbn [detailLinesFrom List.map list_sum fold_right]. unfold bind.
    destruct (detailLine H creationDate sequential darf t) as [line t1] eqn:Eline.
    specialize (IH (S sequential) t1).
    destruct (detailLinesFrom H creationDate (S sequential) rest t1) as [lines t2].
    cbn [ret snd] in *. rewrite IH.
    assert (Ht1 : t1 = (t + unreadDates H creationDate darf)%nat).
    { apply (f_equal snd) in Eline. cbn [snd] in Eline. rewrite <- Eline.
      unfold detailLine, bind, ret.
      pose proof (formatDateToCnab_clock H (dataVencimento darf) t) as Hv.
      destruct (formatDateToCnab H (OfString (dataVencimento darf)) t) as [v tv].
      cbn [snd] in Hv.
      pose proof (formatDateToCnab_clock H
                    (orElse (periodoApuracao darf) (dateFormat H creationDate)) tv)
        as Hp.
      destruct (formatDateToCnab H
                  (OfString (orElse (periodoApuracao darf)
                               (dateFormat H creationDate))) tv) as [p tp].
      cbn [snd] in Hp |- *. rewrite Hp, Hv. unfold unreadDates.
      destruct (isSome (dateDigits (dataVencimento darf)));
        destruct (isSome (dateDigits (orElse (periodoApuracao darf)
                                        (dateFormat H creationDate)))); lia. }
    rewrite Ht1. fold (list_sum (List.map (unreadDates H creationDate) rest)). lia.
Qed.

End Readings.

(** X8: a run of the Encoder reads the clock once for the creation
    date and once more for every date of a record that holds no date
    (its due date, and its assessment period or, for an empty one, the
    creation date in the host's format): 1 plus the number of such
    dates, which is at least once and at most 1 + 2N times for N
    records, and exactly once when every date holds a date.  A text
    holds a date when, trimmed, it is eight digits or a date is
    written in it at some place. *)
Theorem clock_readings (H : Host) (company : CompanyInfo) (darfs : list DarfRecord)
  (t : nat) :
  let t' := snd (generateSantanderRemittance H company darfs t) in
  t' = (t + 1 + list_sum (List.map (unreadDates H (now H t)) darfs))%nat
  /\ (t + 1 <= t' <= t + 1 + 2 * length darfs)%nat
  /\ ((forall darf, In darf darfs ->
         isSome (dateDigits (dataVencimento darf)) = true
         /\ isSome (dateDigits (orElse (periodoApuracao darf)
                                  (dateFormat H (now H t)))) = true) ->
      t' = (t + 1)%nat)
  /\ (forall darf, darfs = [darf] ->
        dateDigits (dataVencimento darf) = None ->
        dateDigits (orElse (periodoApuracao darf) (dateFormat H (now H t))) = None ->
        t' = (t + 3)%nat)
  /\ (forall s, isSome (dateDigits s) = true <-> readable s).
Proof.
  intros t'. subst t'. rewrite remittanceLines_clock.
  destruct (detailLinesFrom_clock H (now H t) darfs 1 (S t)) as (Hbound & Hnone & _).
  split; [rewrite detailLinesFrom_readings; lia|].
  split; [lia|]. split; [|split].
  - intros Hall. rewrite (Hnone Hall). lia.
  - intros darf -> Hv Hp. cbn [detailLinesFrom]. unfold detailLine. unfold bind, ret.
    rewrite (formatDateToCnab_unread H _ _ Hv), (formatDateToCnab_unread H _ _ Hp).
    cbn [snd]. lia.
  - apply dateDigits_readable.
Qed.

Lemma clock_readings_witness :
  snd (generateSantanderRemittance sampleHost sampleCompany scenario 5) = 6%nat
  /\ snd (generateSantanderRemittance sampleHost sampleCompany
            [sampleDarf; undatedDarf; sampleDarf] 5) = 7%nat.
Proof.
  split.
  - destruct (clock_readings sampleHost sampleCompany scenario 5) as (_ & _ & Hnone & _).
    apply Hnone. intros darf [<-|[<-|[]]]; split; reflexivity.
  - destruct (clock_readings sampleHost sampleCompany
                [sampleDarf; undatedDarf; sampleDarf] 5) as (Hcount & _).
    exact Hcount.
Defined.

(** ** Amounts below zero *)

Section NegativeAmounts.

Local Open Scope Z_scope.

Lemma ofRatio_negate (n d : Z) :
  0 <= roundScaled n d -> ofRatio true n d = negate (ofRatio false n d).
Proof.
  intros Hz. unfold ofRatio. cbv zeta.
  destruct (overflow <=? roundScaled n d); [reflexivity|].
  destruct (Z.eqb_spec (roundScaled n d) 0) as [Hz0|Hne]; [reflexivity|].
  cbn [negate]. destruct (Z.eqb_spec (roundScaled n d) 0); [contradiction|reflexivity].
Qed.

(** The amount of [k] cents below zero, times 100 and rounded, is
    [-k]. *)
Lemma negative_cents (k : Z) :
  0 < k <= 10 ^ 11 ->
  negate (amount k) = ofDecimal true k (-2)
  /\ mathRound (mul (negate (amount k)) (ofInt 100)) = Fin (- k * scale).
Proof.
  intros Hk. destruct scale_facts as (eps & Hpos & Heps & _).
  pose proof scale_pos as Hscale.
  destruct (amount_spec k ltac:(lia)) as (v & Hv & Hvb & Hverr).
  specialize (Hverr eps Heps).
  destruct (mul100_spec v Hvb) as (t & Hmul & Ht & Hterr).
  specialize (Hterr eps Heps).
  change (10 ^ 11) with 100000000000 in Hk.
  assert (Hks : scale <= k * scale) by nia.
  assert (Hv0 : 0 < v) by lia.
  assert (Ht0 : 0 < t) by lia.
  split.
  - unfold amount, ofDecimal. cbn [Z.leb Z.compare Z.opp]. symmetry.
    apply ofRatio_negate.
    destruct (roundScaled_bound (k * scale) (10 ^ 2) 1105) as [[Hr _] _];
      [nia|reflexivity|lia| |exact Hr].
    destruct scale_facts as (e & _ & _ & H31 & _). rewrite H31.
    change (10 ^ 2) with 100. nia.
  - rewrite Hv. cbn [negate].
    destruct (Z.eqb_spec v 0) as [Hz|_]; [lia|].
    assert (Hneg : mul (Fin (- v)) (ofInt 100) = negate (mul (Fin v) (ofInt 100))).
    { unfold mul, ofInt. cbn [isNeg magnitude].
      replace (- v <? 0) with true by (symmetry; apply Z.ltb_lt; lia).
      replace (v <? 0) with false by (symmetry; apply Z.ltb_ge; lia).
      replace (100 * scale <? 0) with false by (symmetry; apply Z.ltb_ge; lia).
      rewrite Z.abs_opp. cbn [xorb]. apply ofRatio_negate.
      rewrite !Z.abs_eq by lia.
      destruct (roundScaled_bound (v * (100 * scale)) scale 1112) as [[Hr _] _];
        [nia|lia|lia| |exact Hr].
      destruct scale_facts as (e & _ & _ & _ & _ & H38 & _). rewrite H38. nia. }
    rewrite Hneg, Hmul. cbn [negate].
    destruct (Z.eqb_spec t 0) as [Hz|_]; [lia|].
    unfold mathRound.
    assert (Hr : (2 * - t + scale) / (2 * scale) = - k).
    { symmetry.
      apply (Z.div_unique_pos _ _ (- k) (2 * - t + scale - 2 * scale * - k)); lia. }
    rewrite Hr.
    destruct (Z.eqb_spec (- k) 0) as [Hz|_]; [lia|]. reflexivity.
Qed.

End NegativeAmounts.

(** X9: an amount below zero is not refused: for [k] cents below zero
    ([k] at most [10^11]) the field of [toCnabNumber] holds a minus
    sign between the zeros that fill it and the digits of [k], so it is
    not a field of digits. *)
Theorem toCnabNumber_negative (k : Z) (w : nat)
  (Hk : (0 < k <= 10 ^ 11)%Z) (Hw : (15 <= w)%nat) :
  let text := toCnabNumber (negate (amount k)) w in
  negate (amount k) = ofDecimal true k (-2)
  /\ text = repeat 48%N (w - S (length (digitsOfZ k))) ++ js "-" ++ digitsOfZ k
  /\ length text = w
  /\ forallb isDigit text = false.
Proof.
  intros text. destruct (negative_cents k Hk) as [Hneg Hround].
  pose proof scale_pos as Hscale.
  change (10 ^ 11)%Z with 100000000000%Z in Hk.
  assert (Hlen : (length (digitsOfZ k) <= 12)%nat).
  { unfold digitsOfZ. apply length_digitsOfN_le; [lia|].
    change (10 ^ N.of_nat 12)%N with 1000000000000%N. lia. }
  assert (Htext : text
            = repeat 48%N (w - S (length (digitsOfZ k))) ++ js "-" ++ digitsOfZ k).
  { unfold text, toCnabNumber. rewrite Hround. unfold numberToString.
    destruct (Z.eqb_spec (- k * scale) 0) as [Hz|_]; [nia|].
    replace (- k * scale <? 0)%Z with true by (symmetry; apply Z.ltb_lt; nia).
    replace (- (- k * scale))%Z with (k * scale)%Z by ring.
    assert (Hpos : positiveToString (k * scale) = digitsOfZ k).
    { rewrite <- (numberToString_int k)
        by (change (2 ^ 53)%Z with 9007199254740992%Z; lia).
      unfold numberToString.
      destruct (Z.eqb_spec (k * scale) 0) as [Hz|_]; [nia|].
      now replace (k * scale <? 0)%Z with false by (symmetry; apply Z.ltb_ge; nia). }
    rewrite Hpos.
    rewrite rightZero_fits by (rewrite length_app; simpl; len_lia).
    now rewrite length_app. }
  split; [exact Hneg|]. split; [exact Htext|]. split.
  - unfold text, toCnabNumber. apply rightZero_length. lia.
  - rewrite Htext, !forallb_app. cbn. now rewrite andb_false_r.
Qed.

Lemma toCnabNumber_negative_witness :
  toCnabNumber (normalizeNumber (js "-5,00")) 15 = js "00000000000-500".
Proof.
  assert (Hk : (0 < 500 <= 10 ^ 11)%Z)
    by (change (10 ^ 11)%Z with 100000000000%Z; lia).
  destruct (toCnabNumber_negative 500 15 Hk (le_n 15)) as (Hneg & Htext & _).
  assert (Hread : normalizeNumber (js "-5,00") = ofDecimal true 500 (-2))
    by (vm_compute; reflexivity).
  rewrite Hread, <- Hneg, Htext. reflexivity.
Defined.

(** * Further properties of the Extractor *)

(** ** Identifiers *)

Section Identifiers.

Variable randomUUID : nat -> jsstring.

Lemma push_ids (st : ScanState) : idsDrawn randomUUID st -> idsDrawn randomUUID (push randomUUID st).
Proof.
  unfold idsDrawn, push. cbn [darfs drawn]. intros Hst.
  rewrite seq_S, !map_app, Hst. reflexivity.
Qed.

Lemma applyField_ids (code value : jsstring) (st : ScanState) :
  idsDrawn randomUUID st -> idsDrawn randomUUID (applyField randomUUID code value st).
Proof.
  intros Hst. unfold applyField.
  set (st1 := match lookup textFields code with
              | Some key => withCurrent st (setText (current st) key value)
              | None =>
                  match lookup numericFields code with
                  | Some key =>
                      withCurrent st
                        (setNumber (current st) key (normalizeNumber value))
                  | None => st
                  end
              end).
  assert (H1 : idsDrawn randomUUID st1).
  { unfold st1. destruct (lookup textFields code); [exact Hst|].
    destruct (lookup numericFields code); exact Hst. }
  destruct (jsEqb code (js "10")); [|exact H1].
  destruct (hasKeys (current st1)); [|exact H1].
  apply (push_ids st1 H1).
Qed.

Lemma scanLine_ids (lines : list jsstring) (i : nat) (st : ScanState) :
  idsDrawn randomUUID st -> idsDrawn randomUUID (scanLine randomUUID lines i st).
Proof.
  intros Hst. unfold scanLine.
  destruct (nth_error lines i) as [line|]; [|exact Hst].
  destruct (exec fieldPattern line) as [m|]; [|exact Hst].
  now apply applyField_ids.
Qed.

Lemma scanFrom_ids (lines : list jsstring) (i todo : nat) (st : ScanState) :
  idsDrawn randomUUID st -> idsDrawn randomUUID (scanFrom randomUUID lines i todo st).
Proof.
  revert i st. induction todo as [|todo IH]; intros i st Hst; [exact Hst|].
  cbn [scanFrom]. apply IH. now apply scanLine_ids.
Qed.

Lemma scanBlock_ids (out : list DarfRecord * nat) (block : jsstring) :
  List.map id (fst out) = List.map randomUUID (List.seq 0 (snd out)) ->
  List.map id (fst (scanBlock randomUUID out block))
  = List.map randomUUID (List.seq 0 (snd (scanBlock randomUUID out block))).
Proof.
  intros Hout. unfold scanBlock.
  destruct (blockLines block) as [|line lines]; [exact Hout|].
  set (st := scanFrom randomUUID (line :: lines) 0 (length (line :: lines))
               {| current := emptyDarf; darfs := fst out; drawn := snd out |}).
  assert (Hst : idsDrawn randomUUID st) by (apply scanFrom_ids; exact Hout).
  destruct (hasKeys (current st) && negb (isSome (p_valorTotal (current st)))).
  - apply (push_ids st Hst).
  - exact Hst.
Qed.

Lemma scanBlocks_ids (blocks : list jsstring) (out : list DarfRecord * nat) :
  List.map id (fst out) = List.map randomUUID (List.seq 0 (snd out)) ->
  let res := fold_left (scanBlock randomUUID) blocks out in
  List.map id (fst res) = List.map randomUUID (List.seq 0 (snd res)).
Proof.
  revert out. induction blocks as [|block rest IH]; intros out Hout; [exact Hout|].
  cbn [fold_left]. apply IH. now apply scanBlock_ids.
Qed.

End Identifiers.

(** The identifiers of the records of a text. *)
Lemma parseDarfs_drawn (randomUUID : nat -> jsstring) (text : jsstring) :
  let records := parseDarfs randomUUID text in
  List.map id records = List.map randomUUID (List.seq 0 (length records)).
Proof.
  intros records.
  pose proof (scanBlocks_ids randomUUID (parseBlocks text) ([], 0%nat) eq_refl)
    as Hids.
  cbv zeta in Hids. fold (parseDarfs randomUUID text) in Hids. fold records in Hids.
  assert (Hlen : snd (fold_left (scanBlock randomUUID) (parseBlocks text) ([], 0%nat))
                 = length records).
  { apply (f_equal (@length jsstring)) in Hids.
    now rewrite !length_map, length_seq in Hids. }
  now rewrite Hlen in Hids.
Qed.

(** X10: the records the Extractor returns carry the identifiers that
    [randomUUID] gave, one call per record, in the order of the
    records; so the identifiers of the records of a text are pairwise
    distinct whenever [randomUUID] never repeats itself. *)
Theorem parseDarfs_ids (randomUUID : nat -> jsstring) (text : jsstring) :
  let records := parseDarfs randomUUID text in
  List.map id records = List.map randomUUID (List.seq 0 (length records))
  /\ ((forall i j, randomUUID i = randomUUID j -> i = j) ->
      NoDup (List.map id records)).
Proof.
  intros records. pose proof (parseDarfs_drawn randomUUID text) as Hids.
  cbv zeta in Hids. fold records in Hids. split; [exact Hids|].
  intros Hinj. rewrite Hids.
  apply NoDup_map_NoDup_ForallPairs; [|apply seq_NoDup].
  intros i j _ _. apply Hinj.
Qed.

Lemma parseDarfs_ids_witness :
  List.map id (parseDarfs sampleUUID twoSlips) = [js "id-0"; js "id-1"].
Proof.
  destruct (parseDarfs_ids sampleUUID twoSlips) as [Hids _].
  rewrite Hids.
  replace (length (parseDarfs sampleUUID twoSlips)) with 2%nat
    by (vm_compute; reflexivity).
  reflexivity.
Defined.

(** ** Trimmed lines *)

Section Trimmed.

Lemma dropWhile_suffix (p : char16 -> bool) (s : jsstring) :
  exists dropped, s = dropped ++ dropWhile p s.
Proof.
  induction s as [|c s [dropped IH]]; [now exists []|].
  cbn [dropWhile]. destruct (p c).
  - exists (c :: dropped). cbn. now f_equal.
  - now exists [].
Qed.

Lemma dropWhile_hd (p : char16 -> bool) (s : jsstring) (c : char16) :
  hd_error (dropWhile p s) = Some c -> p c = false.
Proof.
  induction s as [|x s IH]; [discriminate|].
  cbn [dropWhile]. destruct (p x) eqn:E; [exact IH|].
  intros Hc. injection Hc as <-. exact E.
Qed.

(** A trimmed text is the text without the white space before and
    after it. *)
Lemma trim_between (s : jsstring) :
  exists before after, s = before ++ trim s ++ after.
Proof.
  destruct (dropWhile_suffix isSpace s) as [before Hs].
  destruct (dropWhile_suffix isSpace (rev (dropWhile isSpace s))) as [after Hr].
  exists before, (rev after). unfold trim.
  rewrite <- rev_app_distr, <- Hr, rev_involutive. exact Hs.
Qed.

Lemma trim_ends (s : jsstring) :
  (forall c, hd_error (trim s) = Some c -> isSpace c = false)
  /\ (forall c, hd_error (rev (trim s)) = Some c -> isSpace c = false).
Proof.
  split.
  - intros c Hc.
    destruct (dropWhile_suffix isSpace (rev (dropWhile isSpace s))) as [after Hr].
    apply (f_equal (@rev char16)) in Hr.
    rewrite rev_involutive, rev_app_distr in Hr. fold (trim s) in Hr.
    apply (dropWhile_hd isSpace s c). rewrite Hr.
    destruct (trim s); [discriminate|exact Hc].
  - intros c Hc. unfold trim in Hc. rewrite rev_involutive in Hc.
    now apply dropWhile_hd in Hc.
Qed.

Lemma trim_trim (s : jsstring) : trim (trim s) = trim s.
Proof. destruct (trim_ends s). now apply trim_plain. Qed.

(** The lines of a block are trimmed and not empty. *)
Lemma blockLines_trimmed (block : jsstring) :
  Forall (fun line => line <> [] /\ trim line = line) (blockLines block).
Proof.
  apply Forall_forall. intros line Hin. unfold blockLines in Hin.
  apply filter_In in Hin as [Hin Hne]. apply in_map_iff in Hin as (raw & <- & _).
  split.
  - intros Hnil. now rewrite Hnil in Hne.
  - unfold sanitizeLine. apply trim_trim.
Qed.

End Trimmed.

(** X11: [extractValue] answers with a trimmed text: the line at the
    index when it holds more than white space, else the line after it,
    and the empty text when the index is past the end or when the line
    at the index holds white space only and no line follows it; it
    never looks further.  On the lines of a block, which are trimmed
    and not empty, it is the line at the index, whole. *)
Theorem extractValue_line (lines : list jsstring) (index : nat) :
  trim (extractValue lines index) = extractValue lines index
  /\ ((length lines <= index)%nat -> extractValue lines index = [])
  /\ (forall line, nth_error lines index = Some line -> trim line <> [] ->
        extractValue lines index = trim line)
  /\ (forall line next, nth_error lines index = Some line -> trim line = [] ->
        nth_error lines (index + 1) = Some next ->
        extractValue lines index = trim next)
  /\ (forall line, nth_error lines index = Some line -> trim line = [] ->
        nth_error lines (index + 1) = None ->
        extractValue lines index = [])
  /\ (forall block,
        extractValue (blockLines block) index = nth index (blockLines block) []).
Proof.
  assert (Hcases : forall ls,
            extractValue ls index
            = match nth_error ls index with
              | Some line =>
                  match trim line with
                  | [] => match nth_error ls (index + 1) with
                          | Some next => trim next
                          | None => []
                          end
                  | text => text
                  end
              | None => match nth_error ls (index + 1) with
                        | Some next => trim next
                        | None => []
                        end
              end).
  { intros ls. unfold extractValue, trimmedAt.
    destruct (nth_error ls index) as [line|]; cbn [option_map].
    - destruct (trim line); [|reflexivity].
      now destruct (nth_error ls (index + 1)).
    - now destruct (nth_error ls (index + 1)). }
  split; [|split; [|split; [|split; [|split]]]].
  - rewrite Hcases.
    destruct (nth_error lines index) as [line|].
    + destruct (trim line) as [|c text] eqn:E.
      * destruct (nth_error lines (index + 1)); [apply trim_trim|reflexivity].
      * rewrite <- E. apply trim_trim.
    + destruct (nth_error lines (index + 1)); [apply trim_trim|reflexivity].
  - intros Hlong. rewrite Hcases.
    replace (nth_error lines index) with (@None jsstring)
      by (symmetry; apply nth_error_None; lia).
    replace (nth_error lines (index + 1)) with (@None jsstring)
      by (symmetry; apply nth_error_None; lia).
    reflexivity.
  - intros line Hline Hne. rewrite Hcases, Hline.
    destruct (trim line); [contradiction|reflexivity].
  - intros line next Hline Hempty Hnext. now rewrite Hcases, Hline, Hempty, Hnext.
  - intros line Hline Hempty Hnext. now rewrite Hcases, Hline, Hempty, Hnext.
  - intros block. rewrite Hcases.
    pose proof (blockLines_trimmed block) as Hall.
    rewrite Forall_forall in Hall.
    destruct (nth_error (blockLines block) index) as [line|] eqn:Hline.
    + destruct (Hall line (nth_error_In _ _ Hline)) as [Hne Htrim].
      rewrite Htrim, (nth_error_nth _ _ _ Hline).
      destruct line; [contradiction|reflexivity].
    + rewrite (nth_overflow _ _ (proj1 (nth_error_None _ _) Hline)).
      replace (nth_error (blockLines block) (index + 1)) with (@None jsstring);
        [reflexivity|].
      symmetry. apply nth_error_None. apply nth_error_None in Hline. lia.
Qed.

Lemma extractValue_line_witness :
  extractValue [js "07 VALOR"; js "   "; js "  10,00 "] 1 = js "10,00"
  /\ extractValue [js "07 VALOR"] 1 = []
  /\ extractValue [js "07 VALOR"; js "   "] 1 = [].
Proof.
  destruct (extractValue_line [js "07 VALOR"; js "   "; js "  10,00 "] 1)
    as (_ & _ & _ & Hnext & _).
  destruct (extractValue_line [js "07 VALOR"] 1) as (_ & Hend & _).
  destruct (extractValue_line [js "07 VALOR"; js "   "] 1)
    as (_ & _ & _ & _ & Hlast & _).
  split; [|split].
  - rewrite (Hnext (js "   ") (js "  10,00 ") eq_refl eq_refl eq_refl). reflexivity.
  - apply Hend. simpl. lia.
  - exact (Hlast (js "   ") eq_refl eq_refl eq_refl).
Defined.

(** ** The matcher *)

Section Engine.

Lemma reads_refl (st : mstate) : reads st st.
Proof. now exists []. Qed.

Lemma reads_trans (a b c : mstate) : reads a b -> reads b c -> reads a c.
Proof.
  intros (t1 & A1 & B1) (t2 & A2 & B2). exists (t1 ++ t2). split.
  - now rewrite A1, A2, app_assoc.
  - now rewrite B2, B1, rev_app_distr, app_assoc.
Qed.

(** Whatever a pattern does, the continuation is called on a state
    further on in the same text. *)
Lemma run_reads (r : regex) :
  forall k st res,
    run r k st = Some res -> exists st', reads st st' /\ k st' = Some res.
Proof.
  induction r as [|p|r1 IH1 r2 IH2|r1 IH1 r2 IH2|min max r IH|i r IH| | | |r IH];
    intros k st res Hrun.
  - exists st. split; [apply reads_refl|exact Hrun].
  - cbn [run] in Hrun. destruct (Regex.after st) as [|c rest] eqn:Ea; [discriminate|].
    destruct (p c); [|discriminate].
    eexists. split; [|exact Hrun]. exists [c]. now rewrite Ea.
  - cbn [run] in Hrun. apply IH1 in Hrun as (st1 & R1 & Hrun).
    apply IH2 in Hrun as (st2 & R2 & Hrun).
    exists st2. split; [now apply reads_trans with st1|exact Hrun].
  - cbn [run] in Hrun. destruct (run r1 k st) as [res1|] eqn:E1.
    + injection Hrun as <-. now apply IH1.
    + now apply IH2.
  - cbn [run] in Hrun.
    remember (min + length (Regex.after st) + 1)%nat as fuel eqn:Hfuel.
    clear Hfuel. revert min max st Hrun.
    induction fuel as [|fuel IHfuel]; intros min max st Hrun; [discriminate|].
    destruct max as [[|m]|].
    + exists st. split; [apply reads_refl|exact Hrun].
    + destruct min as [|min].
      * match type of Hrun with
        | match run r ?again st with _ => _ end = _ =>
            destruct (run r again st) as [res1|] eqn:E1
        end.
        -- injection Hrun as <-. apply IH in E1 as (st1 & R1 & E1).
           cbv beta in E1.
           destruct ((0 =? 0)%nat
                     && (length (Regex.after st1) =? length (Regex.after st))%nat);
             [discriminate|].
           apply IHfuel in E1 as (st2 & R2 & E1).
           exists st2. split; [now apply reads_trans with st1|exact E1].
        -- exists st. split; [apply reads_refl|exact Hrun].
      * apply IH in Hrun as (st1 & R1 & E1). cbv beta in E1.
        destruct ((S min =? 0)%nat
                  && (length (Regex.after st1) =? length (Regex.after st))%nat);
          [discriminate|].
        apply IHfuel in E1 as (st2 & R2 & E1).
        exists st2. split; [now apply reads_trans with st1|exact E1].
    + destruct min as [|min].
      * match type of Hrun with
        | match run r ?again st with _ => _ end = _ =>
            destruct (run r again st) as [res1|] eqn:E1
        end.
        -- injection Hrun as <-. apply IH in E1 as (st1 & R1 & E1).
           cbv beta in E1.
           destruct ((0 =? 0)%nat
                     && (length (Regex.after st1) =? length (Regex.after st))%nat);
             [discriminate|].
           apply IHfuel in E1 as (st2 & R2 & E1).
           exists st2. split; [now apply reads_trans with st1|exact E1].
        -- exists st. split; [apply reads_refl|exact Hrun].
      * apply IH in Hrun as (st1 & R1 & E1). cbv beta in E1.
        destruct ((S min =? 0)%nat
                  && (length (Regex.after st1) =? length (Regex.after st))%nat);
          [discriminate|].
        apply IHfuel in E1 as (st2 & R2 & E1).
        exists st2. split; [now apply reads_trans with st1|exact E1].
  - cbn [run] in Hrun. apply IH in Hrun as (st1 & R1 & Hrun).
    eexists. split; [|exact Hrun].
    destruct R1 as (taken & A1 & B1). now exists taken.
  - cbn [run] in Hrun. exists st. split; [apply reads_refl|].
    destruct (Regex.before st); [exact Hrun|discriminate].
  - cbn [run] in Hrun. exists st. split; [apply reads_refl|].
    destruct (Regex.after st); [exact Hrun|discriminate].
  - cbn [run] in Hrun. exists st. split; [apply reads_refl|].
    destruct (xorb (wordAt (Regex.before st)) (wordAt (Regex.after st)));
      [exact Hrun|discriminate].
  - cbn [run] in Hrun. destruct (run r Some st) as [st1|]; [|discriminate].
    eexists. split; [|exact Hrun]. now exists [].
Qed.

(** A match takes a part of the text that follows its start. *)
Lemma matchAt_reads (r : regex) (before after : jsstring) (st : mstate) :
  matchAt r before after = Some st ->
  exists taken,
    after = taken ++ Regex.after st /\ Regex.before st = rev taken ++ before.
Proof.
  unfold matchAt. intros Hrun. apply run_reads in Hrun as (st' & R & Hst).
  injection Hst as ->. exact R.
Qed.

Lemma infix_refl (s : jsstring) : infix s s.
Proof. exists [], []. now rewrite app_nil_r. Qed.

Lemma infix_app (part a whole b : jsstring) :
  infix part whole -> infix part (a ++ whole ++ b).
Proof.
  intros (x & y & ->). exists (a ++ x), (y ++ b). now rewrite <- !app_assoc.
Qed.

Lemma infix_Forall (P : char16 -> Prop) (part whole : jsstring) :
  infix part whole -> Forall P whole -> Forall P part.
Proof.
  intros (x & y & ->) Hall.
  apply Forall_app in Hall as [_ Hall]. now apply Forall_app in Hall as [Hall _].
Qed.

(** The pieces of a split are parts of the text. *)
Lemma splitFuel_infix (r : regex) (fuel : nat) :
  forall piece before after,
    Forall (fun part => infix part (rev piece ++ after))
      (splitFuel fuel r piece before after).
Proof.
  induction fuel as [|fuel IH]; intros piece before after.
  - cbn [splitFuel]. repeat constructor. apply infix_refl.
  - cbn [splitFuel]. destruct after as [|c rest].
    + repeat constructor. exists [], []. reflexivity.
    + assert (Hadvance : Forall (fun part => infix part (rev piece ++ c :: rest))
                           (splitFuel fuel r (c :: piece) (c :: before) rest)).
      { specialize (IH (c :: piece) (c :: before) rest).
        cbn [rev] in IH. now rewrite <- app_assoc in IH. }
      destruct (matchAt r before (c :: rest)) as [st|] eqn:Em; [|exact Hadvance].
      apply matchAt_reads in Em as (taken & Ha & _).
      assert (Hcut : Forall (fun part => infix part (rev piece ++ c :: rest))
                       (rev piece :: splitFuel fuel r [] (Regex.before st)
                                       (Regex.after st))).
      { constructor.
        - exists [], (c :: rest). reflexivity.
        - specialize (IH [] (Regex.before st) (Regex.after st)). cbn [rev app] in IH.
          eapply Forall_impl; [|exact IH]. intros part Hpart. rewrite Ha.
          apply (infix_app part (rev piece ++ taken) (Regex.after st) []) in Hpart.
          now rewrite app_nil_r, <- app_assoc in Hpart. }
      destruct piece as [|x piece]; [|exact Hcut].
      destruct (length (Regex.after st) =? length (c :: rest))%nat;
        [exact Hadvance|exact Hcut].
Qed.

Lemma split_infix (r : regex) (s : jsstring) :
  Forall (fun part => infix part s) (split r s).
Proof.
  unfold split. destruct s as [|c s].
  - destruct (matchAt r [] []); repeat constructor. apply infix_refl.
  - apply (splitFuel_infix r _ [] [] (c :: s)).
Qed.

End Engine.

(** ** Blocks *)

Section BlockTexts.

Lemma replaceUnits_filter (p : char16 -> bool) (s : jsstring) :
  replaceUnits (fun c _ => p c) [] s = filter (fun c => negb (p c)) s.
Proof.
  induction s as [|c s IH]; [reflexivity|]. cbn [replaceUnits filter].
  destruct (p c); cbn; now rewrite IH.
Qed.

Lemma trim_infix (s : jsstring) : infix (trim s) s.
Proof. destruct (trim_between s) as (a & b & Hs). now exists a, b. Qed.

Lemma infix_trans (a b c : jsstring) : infix a b -> infix b c -> infix a c.
Proof. intros Hab (x & y & ->). now apply infix_app. Qed.

(** The blocks of the two splits hold no code unit that the text does
    not hold, the marker text put back apart. *)
Lemma blocks_Forall (P : char16 -> Prop) (cleaned : jsstring) :
  Forall P cleaned -> Forall P (js "01 NOME ") ->
  Forall (Forall P) (List.map trim (split darfMarker cleaned))
  /\ Forall (Forall P) (List.map trim (reattached (split nomeMarker cleaned))).
Proof.
  intros Hcleaned Hmarker. split.
  - apply Forall_map. eapply Forall_impl; [|apply split_infix].
    intros part Hpart. cbv beta.
    apply (infix_Forall P (trim part) cleaned); [|exact Hcleaned].
    apply infix_trans with part; [apply trim_infix|exact Hpart].
  - apply Forall_map.
    pose proof (split_infix nomeMarker cleaned) as Hparts.
    assert (Hall : Forall (Forall P) (split nomeMarker cleaned)).
    { eapply Forall_impl; [|exact Hparts]. intros part Hpart.
      now apply (infix_Forall P part cleaned). }
    assert (Hre : Forall (Forall P) (reattached (split nomeMarker cleaned))).
    { destruct (split nomeMarker cleaned) as [|first others]; [constructor|].
      cbn [reattached]. inversion Hall as [|? ? Hfirst Hothers]; subst.
      constructor; [exact Hfirst|]. apply Forall_map.
      eapply Forall_impl; [|exact Hothers]. intros part Hpart.
      apply Forall_app. now split. }
    eapply Forall_impl; [|exact Hre]. intros part Hpart.
    now apply (infix_Forall P (trim part) part); [apply trim_infix|].
Qed.

Lemma Forall_filter_in {A} (P : A -> Prop) (f : A -> bool) (l : list A) :
  Forall P l -> Forall P (filter f l).
Proof.
  intros Hl. apply Forall_forall. intros x Hx. apply filter_In in Hx as [Hx _].
  rewrite Forall_forall in Hl. now apply Hl.
Qed.

Lemma parseBlocks_cases (text : jsstring) :
  let cleaned := replaceAll (unit 13%N) [] text in
  let primary := filter nonEmpty (List.map trim (split darfMarker cleaned)) in
  let kept :=
    filter holdsFieldCode
      (List.map trim (reattached (split nomeMarker cleaned))) in
  parseBlocks text
  = if (1 <? length primary)%nat then primary
    else match kept with [] => [cleaned] | _ => kept end.
Proof.
  intros cleaned primary kept. unfold parseBlocks. fold cleaned. fold primary.
  rewrite reattach_spec. reflexivity.
Qed.

End BlockTexts.

(** X12: [parseBlocks] never returns an empty list, and no block holds
    a carriage return: they are removed from the text before it is
    split.  Every block is trimmed and not empty, unless the only block
    is the whole text without its carriage returns. *)
Theorem parseBlocks_blocks (text : jsstring) :
  let cleaned := replaceAll (unit 13%N) [] text in
  cleaned = filter (fun c => negb (13 =? c)%N) text
  /\ parseBlocks text <> []
  /\ Forall (Forall (fun c => c <> 13%N)) (parseBlocks text)
  /\ (parseBlocks text = [cleaned]
      \/ Forall (fun block => block <> [] /\ trim block = block) (parseBlocks text)).
Proof.
  intros cleaned.
  assert (Hcleaned : cleaned = filter (fun c => negb (13 =? c)%N) text).
  { unfold cleaned, unit.
    rewrite (replaceAll_takesOne _ _ _ _ (takesOne_Chr _)).
    apply replaceUnits_filter. }
  assert (Hfree : Forall (fun c => c <> 13%N) cleaned).
  { rewrite Hcleaned. apply Forall_forall. intros c Hc.
    apply filter_In in Hc as [_ Hc]. intros ->. discriminate. }
  destruct (blocks_Forall (fun c => c <> 13%N) cleaned Hfree) as [Hprimary Hkept].
  { repeat constructor; discriminate. }
  pose proof (parseBlocks_cases text) as Hcases. cbv zeta in Hcases.
  fold cleaned in Hcases, Hprimary, Hkept.
  set (primary := filter nonEmpty (List.map trim (split darfMarker cleaned))) in *.
  set (kept := filter holdsFieldCode
                 (List.map trim (reattached (split nomeMarker cleaned)))) in *.
  assert (Hp : Forall (fun block => block <> [] /\ trim block = block) primary).
  { apply Forall_forall. intros block Hin. unfold primary in Hin.
    apply filter_In in Hin as [Hin Hne]. apply in_map_iff in Hin as (raw & <- & _).
    split; [|apply trim_trim]. intros Hnil. now rewrite Hnil in Hne. }
  assert (Hk : Forall (fun block => block <> [] /\ trim block = block) kept).
  { apply Forall_forall. intros block Hin. unfold kept in Hin.
    apply filter_In in Hin as [Hin Hcode]. apply in_map_iff in Hin as (raw & <- & _).
    split; [|apply trim_trim]. intros Hnil. now rewrite Hnil in Hcode. }
  split; [exact Hcleaned|].
  rewrite Hcases. destruct (1 <? length primary)%nat eqn:Emany.
  - apply Nat.ltb_lt in Emany. split; [|split].
    + destruct primary; [simpl in Emany; lia|discriminate].
    + now apply Forall_filter_in.
    + right. exact Hp.
  - destruct kept as [|block rest] eqn:Ekept.
    + split; [discriminate|]. split; [repeat constructor; exact Hfree|now left].
    + split; [discriminate|]. split; [|right; exact Hk].
      rewrite <- Ekept. now apply Forall_filter_in.
Qed.

(** ** Quantifiers *)

Section Quantifiers.

Lemma run_Rep (min : nat) (max : option nat) (r : regex)
  (k : mstate -> option mstate) (st : mstate) :
  run (Rep min max r) k st
  = repFuel r k (min + length (Regex.after st) + 1) min max st.
Proof. reflexivity. Qed.

Lemma run_Seq (r1 r2 : regex) (k : mstate -> option mstate) (st : mstate) :
  run (Seq r1 r2) k st = run r1 (run r2 k) st.
Proof. reflexivity. Qed.






Lemma run_Chr (p : char16 -> bool) (k : mstate -> option mstate) (st : mstate) :
  run (Chr p) k st
  = match Regex.after st with
    | c :: rest =>
        if p c
        then k {| Regex.before := c :: Regex.before st;
                  Regex.after := rest;
                  caps := caps st |}
        else None
    | [] => None
    end.
Proof. reflexivity. Qed.

(** A quantifier over one class of code units takes all it can, when
    what follows the quantifier matches there. *)
Lemma repFuel_greedy (p : char16 -> bool) (k : mstate -> option mstate)
  (res : mstate) (rest : jsstring) :
  forall taken fuel min max st,
    Regex.after st = taken ++ rest ->
    forallb p taken = true ->
    (length taken < fuel)%nat ->
    (min <= length taken)%nat ->
    match max with
    | Some m => (length taken <= m)%nat
    | None => True
    end ->
    (max = Some (length taken)
     \/ match rest with
        | [] => True
        | c :: _ => p c = false
        end) ->
    k (advance taken st rest) = Some res ->
    repFuel (Chr p) k fuel min max st = Some res.
Proof.
  induction taken as [|x taken IH];
    intros fuel min max st Hafter Hp Hfuel Hmin Hmax Hstop Hk;
    (destruct fuel as [|fuel]; [simpl in Hfuel; lia|]).
  - assert (Hst : advance [] st rest = st).
    { destruct st as [b a c]. unfold advance. cbn in *. now rewrite Hafter. }
    rewrite Hst in Hk. cbn [app] in Hafter.
    destruct min as [|min]; [|simpl in Hmin; lia].
    cbn [repFuel]. destruct max as [[|m]|]; [exact Hk| |].
    + destruct Hstop as [Hm|Hrest]; [discriminate|].
      cbn [run]. rewrite Hafter. destruct rest as [|c rest]; [exact Hk|].
      now rewrite Hrest.
    + destruct Hstop as [Hm|Hrest]; [discriminate|].
      cbn [run]. rewrite Hafter. destruct rest as [|c rest]; [exact Hk|].
      now rewrite Hrest.
  - cbn [forallb] in Hp. apply andb_prop in Hp as [Hx Hp]. cbn [length] in *.
    set (st1 := {| Regex.before := x :: Regex.before st;
                   Regex.after := taken ++ rest;
                   caps := caps st |}).
    assert (Hnext : forall min' max',
              (min' <= length taken)%nat ->
              match max' with
              | Some m => (length taken <= m)%nat
              | None => True
              end ->
              (max' = Some (length taken)
               \/ match rest with
                  | [] => True
                  | c :: _ => p c = false
                  end) ->
              repFuel (Chr p) k fuel min' max' st1 = Some res).
    { intros min' max' Hmin' Hmax' Hstop'.
      apply (IH fuel min' max' st1); try assumption; [reflexivity|lia|].
      unfold advance, st1. cbn [Regex.before Regex.after caps].
      unfold advance in Hk. cbn [rev] in Hk. now rewrite <- app_assoc in Hk. }
    assert (Hlen : (length (Regex.after st1) =? length (Regex.after st))%nat = false).
    { apply Nat.eqb_neq. rewrite Hafter. unfold st1. cbn. lia. }
    rewrite Hafter in Hlen. cbn [app] in Hlen.
    assert (Hmax' : match option_map Nat.pred max with
                    | Some m => (length taken <= m)%nat
                    | None => True
                    end)
      by (destruct max as [m|]; cbn; [lia|exact I]).
    assert (Hstop' : option_map Nat.pred max = Some (length taken)
                     \/ match rest with
                        | [] => True
                        | c :: _ => p c = false
                        end).
    { destruct Hstop as [->|Hrest]; [left; reflexivity|now right]. }
    cbn [repFuel]. destruct max as [[|m]|]; [lia| |].
    + cbn [run]. rewrite Hafter. cbn [app]. rewrite Hx. fold st1.
      rewrite Hlen, andb_false_r.
      rewrite (Hnext (Nat.pred min) (option_map Nat.pred (Some (S m))))
        by (assumption || lia).
      now destruct min.
    + cbn [run]. rewrite Hafter. cbn [app]. rewrite Hx. fold st1.
      rewrite Hlen, andb_false_r.
      rewrite (Hnext (Nat.pred min) (option_map Nat.pred None))
        by (assumption || lia).
      now destruct min.
Qed.

(** The same, for a quantifier of [run]. *)
Lemma run_greedy (p : char16 -> bool) (k : mstate -> option mstate)
  (res : mstate) (taken rest : jsstring) (min : nat) (max : option nat)
  (st : mstate) :
  Regex.after st = taken ++ rest ->
  forallb p taken = true ->
  (min <= length taken)%nat ->
  match max with
  | Some m => (length taken <= m)%nat
  | None => True
  end ->
  (max = Some (length taken)
   \/ match rest with
      | [] => True
      | c :: _ => p c = false
      end) ->
  k (advance taken st rest) = Some res ->
  run (Rep min max (Chr p)) k st = Some res.
Proof.
  intros Hafter Hp Hmin Hmax Hstop Hk. rewrite run_Rep.
  apply (repFuel_greedy p k res rest taken); try assumption.
  rewrite Hafter, length_app. lia.
Qed.

(** A quantifier that needs one code unit of a class fails where none
    stands. *)
Lemma run_none (p : char16 -> bool) (k : mstate -> option mstate)
  (min : nat) (max : option nat) (st : mstate) :
  max <> Some 0%nat ->
  match Regex.after st with
  | [] => True
  | c :: _ => p c = false
  end ->
  run (Rep (S min) max (Chr p)) k st = None.
Proof.
  intros Hmax Hhead. rewrite run_Rep.
  replace (S min + length (Regex.after st) + 1)%nat
    with (S (min + length (Regex.after st) + 1)) by lia.
  cbn [repFuel]. destruct max as [[|m]|]; [contradiction| |];
    cbn [run]; destruct (Regex.after st) as [|c rest]; try reflexivity;
    now rewrite Hhead.
Qed.


End Quantifiers.

(** ** Lines that are no field lines *)

Section NoField.

Variable randomUUID : nat -> jsstring.







End NoField.



(** ** Field lines *)

Section FieldLines.


Lemma takeWhile_dropWhile (p : char16 -> bool) (s : jsstring) :
  s = takeWhile p s ++ dropWhile p s.
Proof.
  induction s as [|c s IH]; [reflexivity|]. cbn [takeWhile dropWhile].
  destruct (p c); [|reflexivity]. cbn [app]. now f_equal.
Qed.

Lemma forallb_takeWhile (p : char16 -> bool) (s : jsstring) :
  forallb p (takeWhile p s) = true.
Proof.
  induction s as [|c s IH]; [reflexivity|]. cbn [takeWhile].
  destruct (p c) eqn:E; [|reflexivity]. cbn [forallb]. now rewrite E.
Qed.


Lemma dropWhile_stop (p : char16 -> bool) (s : jsstring) :
  match dropWhile p s with
  | [] => True
  | c :: _ => p c = false
  end.
Proof.
  destruct (dropWhile p s) as [|c rest] eqn:E; [exact I|].
  apply (dropWhile_hd p s). now rewrite E.
Qed.





Variables (gap label value : jsstring) (sep : char16).

Hypothesis Hgap : forallb isSpace gap = true.
Hypothesis Hlabel : forallb isLabelChar label = true.
Hypothesis Hhead : match label with
                   | [] => False
                   | c :: _ => isSpace c = false
                   end.
Hypothesis Hsep : isDashColon sep = true.
Hypothesis Hvalue : forallb (fun c => negb (isLineTerminator c)) value = true.



End FieldLines.



(** ** The three replacements of [sanitizeLine] *)

Section Squeeze.

Variable p : char16 -> bool.
Variable least : nat.
Variable replacement : jsstring.

(** A run and what follows it. *)
Lemma squeeze_run (taken rest run : jsstring) :
  forallb p taken = true ->
  match rest with
  | [] => True
  | c :: _ => p c = false
  end ->
  squeeze p least replacement run (taken ++ rest)
  = closeRun least replacement (rev taken ++ run)
    ++ squeeze p least replacement [] rest.
Proof.
  revert run. induction taken as [|x taken IH]; intros run Hp Hstop.
  - cbn [app rev]. destruct rest as [|c rest].
    + cbn [squeeze closeRun]. now rewrite app_nil_r.
    + cbn [squeeze]. now rewrite Hstop.
  - cbn [forallb] in Hp. apply andb_prop in Hp as [Hx Hp].
    cbn [app squeeze]. rewrite Hx, IH by assumption.
    cbn [rev]. now rewrite <- app_assoc.
Qed.

Lemma closeRun_short (run : jsstring) :
  (length run < least)%nat -> closeRun least replacement run = rev run.
Proof.
  intros Hshort. unfold closeRun. destruct run as [|c run]; [reflexivity|].
  now replace (least <=? length (c :: run))%nat with false
    by (symmetry; apply Nat.leb_gt; exact Hshort).
Qed.

Lemma closeRun_long (run : jsstring) :
  run <> [] -> (least <= length run)%nat ->
  closeRun least replacement run = replacement.
Proof.
  intros Hne Hlong. unfold closeRun. destruct run as [|c run]; [contradiction|].
  now replace (least <=? length (c :: run))%nat with true
    by (symmetry; apply Nat.leb_le; exact Hlong).
Qed.

Variable r : regex.

(** What the pattern of a replacement does at a run: it takes the
    whole run when the run is long enough, and does not match
    otherwise. *)
Hypothesis Hleast : (1 <= least)%nat.
Hypothesis Hmatch : forall before taken rest,
    forallb p taken = true ->
    match rest with
    | [] => True
    | c :: _ => p c = false
    end ->
    option_map (fun st => (Regex.before st, Regex.after st))
      (matchAt r before (taken ++ rest))
    = if (least <=? length taken)%nat then Some (rev taken ++ before, rest)
      else None.

Lemma replaceFuel_squeeze :
  forall fuel after before,
    (length after < fuel)%nat ->
    replaceFuel fuel r replacement before after
    = squeeze p least replacement [] after.
Proof.
  induction fuel as [|fuel IH]; intros after before Hfuel; [lia|].
  cbn [replaceFuel].
  pose proof (Hmatch before (takeWhile p after) (dropWhile p after)
                (forallb_takeWhile p after) (dropWhile_stop p after)) as Hm.
  rewrite <- takeWhile_dropWhile in Hm.
  destruct after as [|c rest].
  - cbn [takeWhile length] in Hm.
    replace (least <=? 0)%nat with false in Hm by (symmetry; apply Nat.leb_gt; lia).
    destruct (matchAt r before []); [discriminate|reflexivity].
  - cbn [length] in Hfuel. cbn [takeWhile dropWhile] in Hm. cbn [squeeze].
    destruct (p c) eqn:Ec.
    + pose proof (squeeze_run (takeWhile p rest) (dropWhile p rest) [c]
                    (forallb_takeWhile p rest) (dropWhile_stop p rest)) as Hrun.
      rewrite <- takeWhile_dropWhile in Hrun. rewrite Hrun.
      destruct (least <=? length (c :: takeWhile p rest))%nat eqn:El.
      * destruct (matchAt r before (c :: rest)) as [st|]; [|discriminate].
        cbn [option_map] in Hm. injection Hm as Hb Ha. rewrite Ha.
        assert (Hshort : (length (dropWhile p rest) <= length rest)%nat).
        { rewrite (takeWhile_dropWhile p rest) at 2. rewrite length_app. lia. }
        replace (length (dropWhile p rest) <? length (c :: rest))%nat with true
          by (symmetry; apply Nat.ltb_lt; cbn [length]; lia).
        rewrite IH by lia.
        rewrite closeRun_long; [reflexivity| |].
        -- destruct (rev (takeWhile p rest)); discriminate.
        -- apply Nat.leb_le in El.
           rewrite length_app, length_rev. cbn [length] in *. lia.
      * destruct (matchAt r before (c :: rest)) as [st|]; [discriminate|].
        rewrite IH by lia. apply Nat.leb_gt in El. cbn [length] in El.
        rewrite closeRun_short
          by (rewrite length_app, length_rev; cbn [length]; lia).
        rewrite rev_app_distr, rev_involutive. cbn [rev app]. f_equal.
        pose proof (squeeze_run (takeWhile p rest) (dropWhile p rest) []
                      (forallb_takeWhile p rest) (dropWhile_stop p rest)) as Hrun0.
        rewrite <- takeWhile_dropWhile, app_nil_r in Hrun0.
        rewrite Hrun0, closeRun_short by (rewrite length_rev; lia).
        now rewrite rev_involutive.
    + cbn [length] in Hm.
      replace (least <=? 0)%nat with false in Hm by (symmetry; apply Nat.leb_gt; lia).
      destruct (matchAt r before (c :: rest)); [discriminate|].
      cbn [closeRun app]. f_equal. apply IH. lia.
Qed.

End Squeeze.

Section SanitizeLine.

Lemma matchAt_state (r : regex) (before after : jsstring) (b a : jsstring) :
  matchAt r before after = Some {| Regex.before := b; Regex.after := a; caps := [] |} ->
  option_map (fun st => (Regex.before st, Regex.after st)) (matchAt r before after)
  = Some (b, a).
Proof. now intros ->. Qed.

(** [/\s+/g]: every run of white space gives way to one space. *)
Lemma replaceAll_spaces (s : jsstring) :
  replaceAll (plus space) (js " ") s = squeeze isSpace 1 (js " ") [] s.
Proof.
  apply replaceFuel_squeeze; [lia| |lia].
  intros before taken rest Hp Hstop. unfold plus, space.
  destruct taken as [|x taken].
  - cbn [length Nat.leb app]. unfold matchAt. now rewrite run_none.
  - cbn [length Nat.leb]. apply matchAt_state. unfold matchAt.
    apply (run_greedy isSpace Some _ (x :: taken) rest);
      [reflexivity|exact Hp|simpl; lia|exact I|right; exact Hstop|reflexivity].
Qed.

(** [/\.\.+/g]: every run of two periods or more gives way to one
    space. *)
Lemma replaceAll_periods (s : jsstring) :
  replaceAll (Seq dot (plus dot)) (js " ") s = squeeze (N.eqb 46) 2 (js " ") [] s.
Proof.
  apply replaceFuel_squeeze; [lia| |lia].
  intros before taken rest Hp Hstop. unfold plus, dot.
  change (lit ".") with (Chr (N.eqb 46%N)).
  unfold matchAt. rewrite run_Seq, run_Chr. cbn [Regex.before Regex.after caps].
  destruct taken as [|x [|y taken]].
  - cbn [app length Nat.leb]. destruct rest as [|c rest]; [reflexivity|].
    now rewrite Hstop.
  - cbn [forallb] in Hp. apply andb_prop in Hp as [Hx _].
    cbn [app length Nat.leb]. rewrite Hx. now rewrite run_none.
  - cbn [forallb] in Hp. apply andb_prop in Hp as [Hx Hp].
    cbn [app]. rewrite Hx.
    replace (2 <=? length (x :: y :: taken))%nat with true by reflexivity.
    set (st1 := {| Regex.before := x :: before;
                   Regex.after := y :: taken ++ rest;
                   caps := [] |}).
    assert (Hrun : run (Rep 1 None (Chr (N.eqb 46))) Some st1
                   = Some (advance (y :: taken) st1 rest)).
    { apply (run_greedy (N.eqb 46) Some _ (y :: taken) rest);
        [reflexivity|exact Hp|simpl; lia|exact I|right; exact Hstop|reflexivity]. }
    rewrite Hrun. unfold advance, st1. cbn [option_map Regex.before Regex.after rev].
    now rewrite <- !app_assoc.
Qed.

Lemma tighten_two (c d : char16) (rest : jsstring) :
  tighten (c :: d :: rest)
  = if isSpace c && (d =? 58)%N then 58%N :: tighten rest
    else c :: tighten (d :: rest).
Proof. reflexivity. Qed.

(** [/\s:/g]: a white space before a colon goes. *)
Lemma replaceFuel_tighten :
  forall fuel after before,
    (length after < fuel)%nat ->
    replaceFuel fuel (Seq space (lit ":")) (js ":") before after = tighten after.
Proof.
  assert (Hat : forall before after,
            option_map (fun st => Regex.after st)
              (matchAt (Seq space (lit ":")) before after)
            = match after with
              | c :: d :: rest' =>
                  if isSpace c && (d =? 58)%N then Some rest' else None
              | _ => None
              end).
  { intros before after. unfold matchAt, space.
    change (lit ":") with (Chr (N.eqb 58%N)).
    rewrite run_Seq, run_Chr. cbn [Regex.after].
    destruct after as [|c [|d rest']]; try reflexivity.
    - now destruct (isSpace c).
    - destruct (isSpace c); [|reflexivity]. rewrite run_Chr. cbn [Regex.after].
      rewrite (N.eqb_sym d 58). now destruct (58 =? d)%N. }
  induction fuel as [|fuel IH]; intros after before Hfuel; [lia|].
  cbn [replaceFuel]. specialize (Hat before after).
  destruct after as [|c [|d rest']].
  - now destruct (matchAt (Seq space (lit ":")) before []).
  - destruct (matchAt (Seq space (lit ":")) before [c]); [discriminate|].
    cbn [tighten]. f_equal. apply IH. simpl in *. lia.
  - cbn [length] in Hfuel. rewrite tighten_two.
    destruct (isSpace c && (d =? 58)%N).
    + destruct (matchAt (Seq space (lit ":")) before (c :: d :: rest')) as [st|];
        [|discriminate].
      cbn [option_map] in Hat. injection Hat as Ha. rewrite Ha.
      replace (length rest' <? length (c :: d :: rest'))%nat with true
        by (symmetry; apply Nat.ltb_lt; simpl; lia).
      change (js ":") with [58%N]. cbn [app]. f_equal. apply IH. lia.
    + destruct (matchAt (Seq space (lit ":")) before (c :: d :: rest'));
        [discriminate|].
      f_equal. apply IH. simpl. lia.
Qed.

Lemma squeeze_spaces_plain (s run : jsstring) :
  Forall plainSpace (squeeze isSpace 1 (js " ") run s).
Proof.
  assert (Hclose : forall run', Forall plainSpace (closeRun 1 (js " ") run')).
  { intros [|c run']; [constructor|]. cbn. repeat constructor. }
  revert run. induction s as [|c s IH]; intros run; cbn [squeeze];
    [apply Hclose|].
  destruct (isSpace c) eqn:Ec; [apply IH|].
  apply Forall_app. split; [apply Hclose|]. constructor; [|apply IH].
  unfold plainSpace. intros Hc. congruence.
Qed.

Lemma squeeze_periods_plain (s run : jsstring) :
  Forall plainSpace s -> Forall plainSpace run ->
  Forall plainSpace (squeeze (N.eqb 46) 2 (js " ") run s).
Proof.
  assert (Hclose : forall run',
            Forall plainSpace run' -> Forall plainSpace (closeRun 2 (js " ") run')).
  { intros run' Hrun. unfold closeRun. destruct run' as [|c run']; [constructor|].
    destruct (2 <=? length (c :: run'))%nat.
    - repeat constructor.
    - now apply Forall_rev. }
  revert run. induction s as [|c s IH]; intros run Hs Hrun; cbn [squeeze];
    [now apply Hclose|].
  inversion Hs as [|? ? Hc Hs']; subst.
  destruct (46 =? c)%N.
  - apply IH; [exact Hs'|now constructor].
  - apply Forall_app. split; [now apply Hclose|].
    constructor; [exact Hc|]. apply IH; [exact Hs'|constructor].
Qed.

Lemma tighten_Forall (P : char16 -> Prop) (s : jsstring) :
  P 58%N -> Forall P s -> Forall P (tighten s).
Proof.
  intros Hcolon.
  assert (Hgen : forall n s', (length s' <= n)%nat -> Forall P s' ->
                              Forall P (tighten s')).
  { induction n as [|n IH]; intros s' Hlen Hs'.
    - destruct s'; [constructor|simpl in Hlen; lia].
    - destruct s' as [|c [|d rest']]; [constructor|exact Hs'|].
      rewrite tighten_two. cbn [length] in Hlen.
      inversion Hs' as [|? ? Hc Hrest]; subst.
      inversion Hrest as [|? ? Hd Hrest']; subst.
      destruct (isSpace c && (d =? 58)%N).
      + constructor; [exact Hcolon|]. apply IH; [lia|exact Hrest'].
      + constructor; [exact Hc|]. apply IH; [simpl; lia|exact Hrest]. }
  intros Hs. now apply (Hgen (length s)).
Qed.

Lemma noDoublePeriod_two (c d : char16) (s : jsstring) :
  noDoublePeriod (c :: d :: s)
  = negb ((c =? 46)%N && (d =? 46)%N) && noDoublePeriod (d :: s).
Proof. reflexivity. Qed.

Lemma noDoublePeriod_cons (c : char16) (s : jsstring) :
  (c =? 46)%N = false -> noDoublePeriod s = true -> noDoublePeriod (c :: s) = true.
Proof.
  intros Hc Hs. cbn [noDoublePeriod]. destruct s as [|d s]; [reflexivity|].
  now rewrite Hc, Hs.
Qed.

Lemma squeeze_periods_single (s run : jsstring) :
  forallb (N.eqb 46) run = true ->
  noDoublePeriod (squeeze (N.eqb 46) 2 (js " ") run s) = true.
Proof.
  assert (Hclose : forall run' tail,
            forallb (N.eqb 46) run' = true ->
            match tail with
            | [] => True
            | c :: _ => (c =? 46)%N = false
            end ->
            noDoublePeriod tail = true ->
            noDoublePeriod (closeRun 2 (js " ") run' ++ tail) = true).
  { intros run' tail Hrun Htail Hnd. unfold closeRun.
    destruct run' as [|c [|d run']]; [exact Hnd| |].
    - cbn [length Nat.leb rev app]. cbn [noDoublePeriod].
      destruct tail as [|e tail]; [reflexivity|].
      now rewrite Htail, andb_false_r, Hnd.
    - cbn [length Nat.leb]. change (js " ") with [32%N]. cbn [app].
      now apply noDoublePeriod_cons. }
  revert run. induction s as [|c s IH]; intros run Hrun; cbn [squeeze].
  - rewrite <- (app_nil_r (closeRun 2 (js " ") run)). now apply Hclose.
  - destruct (46 =? c)%N eqn:Ec.
    + apply IH. cbn [forallb]. now rewrite Ec, Hrun.
    + apply Hclose; [exact Hrun|now rewrite N.eqb_sym|].
      apply noDoublePeriod_cons; [now rewrite N.eqb_sym|]. now apply IH.
Qed.

Lemma tighten_hd (c : char16) (s : jsstring) :
  exists c' tail, tighten (c :: s) = c' :: tail /\ (c' = c \/ c' = 58%N).
Proof.
  destruct s as [|d rest']; [exists c, []; auto|]. rewrite tighten_two.
  destruct (isSpace c && (d =? 58)%N); eexists; eexists; split; eauto.
Qed.

Lemma noDoublePeriod_tail (c : char16) (s : jsstring) :
  noDoublePeriod (c :: s) = true -> noDoublePeriod s = true.
Proof.
  cbn [noDoublePeriod]. destruct s as [|d s]; [reflexivity|].
  intros Hs. now apply andb_prop in Hs.
Qed.

Lemma tighten_single (s : jsstring) :
  noDoublePeriod s = true -> noDoublePeriod (tighten s) = true.
Proof.
  assert (Hgen : forall n s', (length s' <= n)%nat -> noDoublePeriod s' = true ->
                              noDoublePeriod (tighten s') = true).
  { induction n as [|n IH]; intros s' Hlen Hs'.
    - destruct s'; [reflexivity|simpl in Hlen; lia].
    - destruct s' as [|c [|d rest']]; [reflexivity|reflexivity|].
      cbn [length] in Hlen. pose proof (noDoublePeriod_tail _ _ Hs') as Hrest.
      rewrite tighten_two. destruct (isSpace c && (d =? 58)%N).
      + apply noDoublePeriod_cons; [reflexivity|].
        apply IH; [lia|]. now apply noDoublePeriod_tail in Hrest.
      + destruct (tighten_hd d rest') as (d' & tail & Ht & Hd').
        assert (Hnd : noDoublePeriod (tighten (d :: rest')) = true)
          by (apply IH; [simpl; lia|exact Hrest]).
        rewrite Ht in *. rewrite noDoublePeriod_two in Hs' |- *.
        apply andb_prop in Hs' as [Hcd _]. rewrite Hnd, andb_true_r.
        destruct Hd' as [->| ->]; [exact Hcd|now rewrite andb_false_r]. }
  intros Hs. now apply (Hgen (length s)).
Qed.

Lemma noDoublePeriod_app (a b : jsstring) :
  noDoublePeriod (a ++ b) = true ->
  noDoublePeriod a = true /\ noDoublePeriod b = true.
Proof.
  induction a as [|c a IH]; intros Hab; [now split|].
  cbn [app] in Hab. pose proof (noDoublePeriod_tail _ _ Hab) as Htail.
  destruct (IH Htail) as [Ha Hb]. split; [|exact Hb].
  cbn [noDoublePeriod]. destruct a as [|d a]; [reflexivity|].
  cbn [app noDoublePeriod] in Hab. apply andb_prop in Hab as [Hcd _].
  now rewrite Hcd, Ha.
Qed.

Lemma noDoublePeriod_infix (part whole : jsstring) :
  infix part whole -> noDoublePeriod whole = true -> noDoublePeriod part = true.
Proof.
  intros (a & b & ->) Hw. apply noDoublePeriod_app in Hw as [_ Hw].
  now apply noDoublePeriod_app in Hw as [Hw _].
Qed.

(** [sanitizeLine], replacement by replacement. *)
Lemma sanitizeLine_eq (line : jsstring) :
  sanitizeLine line
  = trim (tighten (squeeze (N.eqb 46) 2 (js " ") []
                     (squeeze isSpace 1 (js " ") [] line))).
Proof.
  unfold sanitizeLine. rewrite replaceAll_spaces, replaceAll_periods.
  f_equal. apply replaceFuel_tighten. lia.
Qed.

Lemma sanitizeLine_plain (line : jsstring) :
  Forall plainSpace (sanitizeLine line).
Proof.
  rewrite sanitizeLine_eq.
  apply (infix_Forall _ _ _ (trim_infix _)).
  apply tighten_Forall; [discriminate|].
  apply squeeze_periods_plain; [apply squeeze_spaces_plain|constructor].
Qed.

Lemma sanitizeLine_single (line : jsstring) :
  noDoublePeriod (sanitizeLine line) = true.
Proof.
  rewrite sanitizeLine_eq.
  apply (noDoublePeriod_infix _ _ (trim_infix _)).
  apply tighten_single. now apply squeeze_periods_single.
Qed.

End SanitizeLine.

(** X15: [sanitizeLine] turns every run of white space into one space,
    then every run of two periods or more into one space, then drops a
    white space that stands before a colon, and trims.  Its result is
    trimmed, its only white space is the space U+0020 (no tab and no
    line break is left) and it holds no two periods in a row. *)
Theorem sanitizeLine_spec (line : jsstring) :
  sanitizeLine line
  = trim (tighten (squeeze (N.eqb 46) 2 (js " ") []
                     (squeeze isSpace 1 (js " ") [] line)))
  /\ trim (sanitizeLine line) = sanitizeLine line
  /\ Forall plainSpace (sanitizeLine line)
  /\ noDoublePeriod (sanitizeLine line) = true.
Proof.
  split; [apply sanitizeLine_eq|]. split; [apply trim_trim|].
  split; [apply sanitizeLine_plain|apply sanitizeLine_single].
Qed.

Lemma sanitizeLine_spec_witness :
  sanitizeLine (js "07   VALOR ..... :  R$ 1,00 ") = js "07 VALOR  : R$ 1,00".
Proof.
  destruct (sanitizeLine_spec (js "07   VALOR ..... :  R$ 1,00 ")) as [Heq _].
  rewrite Heq. vm_compute. reflexivity.
Defined.

(** ** Amounts as they are written *)

Section Written.

Local Open Scope Z_scope.

Lemma dropThousands_eq (s : jsstring) :
  dropThousands s = replaceUnits thousandsAt [] s.
Proof. reflexivity. Qed.

Lemma replaceUnits_cons (q : char16 -> jsstring -> bool) (replacement : jsstring)
  (c : char16) (rest : jsstring) :
  replaceUnits q replacement (c :: rest)
  = if q c rest then replacement ++ replaceUnits q replacement rest
    else c :: replaceUnits q replacement rest.
Proof. reflexivity. Qed.

Lemma replaceUnits_digits (q : char16 -> jsstring -> bool) (s tail : jsstring) :
  (forall c rest, isDigit c = true -> q c rest = false) ->
  forallb isDigit s = true ->
  replaceUnits q [] (s ++ tail) = s ++ replaceUnits q [] tail.
Proof.
  intros Hq. induction s as [|c s IH]; intros Hs; [reflexivity|].
  cbn [forallb] in Hs. apply andb_prop in Hs as [Hc Hs].
  cbn [app replaceUnits]. rewrite (Hq c _ Hc). f_equal. now apply IH.
Qed.

Lemma thousands_digit (c : char16) (rest : jsstring) :
  isDigit c = true -> thousandsAt c rest = false.
Proof.
  intros Hc. unfold thousandsAt. destruct (N.eqb_spec 46%N c) as [<-|]; [discriminate|].
  reflexivity.
Qed.

(** The periods of an amount as it is written are dropped, group by
    group. *)
Lemma dropThousands_groups (groups : list jsstring) (cents : jsstring) :
  forallb threeDigits groups = true ->
  dropThousands (concat (List.map (app [46%N]) groups) ++ [44%N] ++ cents)
  = concat groups ++ [44%N] ++ dropThousands cents.
Proof.
  rewrite !dropThousands_eq.
  induction groups as [|g groups IH]; intros Hg; [reflexivity|].
  cbn [forallb] in Hg. apply andb_prop in Hg as [Hthree Hg].
  unfold threeDigits in Hthree. apply andb_prop in Hthree as [Hlen Hdig].
  apply Nat.eqb_eq in Hlen.
  set (tail := concat (List.map (app [46%N]) groups) ++ [44%N] ++ cents) in *.
  replace (concat (List.map (app [46%N]) (g :: groups)) ++ [44%N] ++ cents)
    with (46%N :: g ++ tail)
    by (unfold tail; cbn [List.map concat]; now rewrite <- !app_assoc).
  assert (Hq : thousandsAt 46%N (g ++ tail) = true).
  { destruct g as [|d1 [|d2 [|d3 [|? ?]]]]; try discriminate.
    cbn [forallb] in Hdig.
    apply andb_prop in Hdig as [D1 Hdig]. apply andb_prop in Hdig as [D2 Hdig].
    apply andb_prop in Hdig as [D3 _].
    unfold thousandsAt. cbn [N.eqb Pos.eqb andb app beforeThreeDigits].
    rewrite D1, D2, D3. cbn [andb]. unfold tail.
    destruct groups as [|g' groups']; reflexivity. }
  rewrite replaceUnits_cons, Hq. cbn [app].
  rewrite (replaceUnits_digits thousandsAt g tail thousands_digit Hdig).
  rewrite (IH Hg). cbn [concat]. now rewrite <- app_assoc.
Qed.

Lemma concat_threeDigits (groups : list jsstring) :
  forallb threeDigits groups = true -> forallb isDigit (concat groups) = true.
Proof.
  induction groups as [|g groups IH]; intros Hgroups; [reflexivity|].
  cbn [forallb] in Hgroups. apply andb_prop in Hgroups as [Hg Hgroups].
  unfold threeDigits in Hg. apply andb_prop in Hg as [_ Hg].
  cbn [concat]. rewrite forallb_app. apply andb_true_intro. split; [exact Hg|].
  now apply IH.
Qed.

(** What [normalizeNumber] hands to [parseFloat] for an amount as it
    is written, after any text that holds no digit, comma, period or
    minus sign. *)
Lemma sanitized_written (junk first : jsstring) (groups : list jsstring)
  (cents : jsstring) :
  forallb (fun c => negb (isMoneyChar c)) junk = true ->
  forallb isDigit first = true ->
  forallb threeDigits groups = true ->
  forallb isDigit cents = true ->
  sanitized (junk ++ written first groups cents)
  = first ++ concat groups ++ js "." ++ cents.
Proof.
  intros Hjunk Hfirst Hgroups Hcents. rewrite sanitized_spec.
  assert (Hmoney : forall s, forallb isDigit s = true -> filter isMoneyChar s = s).
  { intros s Hs. induction s as [|c s IH]; [reflexivity|].
    cbn [forallb] in Hs. apply andb_prop in Hs as [Hc Hs].
    cbn [filter]. unfold isMoneyChar at 1. rewrite Hc. cbn [orb].
    f_equal. now apply IH. }
  assert (Hkeep : filter isMoneyChar (written first groups cents)
                  = written first groups cents).
  { unfold written. rewrite !filter_app.
    f_equal; [now apply Hmoney|]. f_equal; [|f_equal; now apply Hmoney].
    induction groups as [|g groups IH]; [reflexivity|].
    cbn [forallb] in Hgroups. apply andb_prop in Hgroups as [Hg Hgroups].
    unfold threeDigits in Hg. apply andb_prop in Hg as [_ Hg].
    cbn [List.map concat]. rewrite !filter_app.
    f_equal; [f_equal; now apply Hmoney|now apply IH]. }
  assert (Hdrop : filter isMoneyChar junk = []).
  { induction junk as [|c junk' IH]; [reflexivity|].
    cbn [forallb] in Hjunk. apply andb_prop in Hjunk as [Hc Hjunk].
    cbn [filter]. destruct (isMoneyChar c); [discriminate|]. now apply IH. }
  rewrite filter_app, Hdrop, Hkeep. cbn [app]. unfold written.
  rewrite dropThousands_eq.
  rewrite (replaceUnits_digits thousandsAt first _ thousands_digit Hfirst).
  pose proof (dropThousands_groups groups cents Hgroups) as Hg.
  rewrite !dropThousands_eq in Hg. rewrite Hg.
  pose proof (replaceUnits_digits thousandsAt cents [] thousands_digit Hcents) as Hc.
  rewrite app_nil_r in Hc. cbn [replaceUnits] in Hc. rewrite app_nil_r in Hc.
  rewrite (dropThousands_eq cents), Hc.
  assert (Hmap : forall s, forallb isDigit s = true -> List.map commaToPeriod s = s).
  { intros s Hs. induction s as [|c s IH]; [reflexivity|].
    cbn [forallb] in Hs. apply andb_prop in Hs as [Hd Hs].
    cbn [List.map]. rewrite (IH Hs). f_equal. unfold commaToPeriod.
    destruct (N.eqb_spec 44 c) as [<-|]; [discriminate|reflexivity]. }
  pose proof (concat_threeDigits groups Hgroups) as Hcat.
  rewrite !map_app.
  f_equal; [now apply Hmap|]. f_equal; [now apply Hmap|].
  f_equal. now apply Hmap.
Qed.

(** The hundredths of the double nearest to [k] cents are [k]. *)
Lemma hundredths_amount (k v : Z) :
  0 <= k <= 10 ^ 11 -> amount k = Fin v -> 0 <= v /\ hundredths v = k
  /\ v < 10 ^ 21 * scale.
Proof.
  intros Hk Hv. destruct scale_facts as (eps & Hpos & Heps & _).
  destruct (amount_spec k Hk) as (v' & Hv' & Hvb & Hverr).
  rewrite Hv in Hv'. injection Hv' as <-. specialize (Hverr eps Heps).
  pose proof scale_pos as Hscale.
  split; [lia|]. split.
  - unfold hundredths. symmetry.
    apply (Z.div_unique_pos _ _ k (2 * v * 100 + scale - 2 * scale * k)); lia.
  - change (10 ^ 21) with 1000000000000000000000. nia.
Qed.

End Written.

(** X16: an amount as it is written in Brazil (digits, groups of three
    digits after a period each, a comma and two digits of cents, after
    any text without digits and signs, such as the currency sign) is
    read as the amount of exactly those cents, up to [10^11] cents; and
    the Encoder writes that amount back as the same cents, in digits,
    zero-filled to the 15 code units of its field. *)
Theorem normalizeNumber_written (junk first : jsstring) (groups : list jsstring)
  (cents : jsstring)
  (Hjunk : forallb (fun c => negb (isMoneyChar c)) junk = true)
  (Hfirst : first <> [] /\ forallb isDigit first = true)
  (Hgroups : forallb threeDigits groups = true)
  (Hcents : length cents = 2%nat /\ forallb isDigit cents = true)
  (Hk : (valueOfDigitsZ (digitsWritten first groups cents) <= 10 ^ 11)%Z) :
  let k := valueOfDigitsZ (digitsWritten first groups cents) in
  let x := normalizeNumber (junk ++ written first groups cents) in
  x = amount k
  /\ length (toCnabNumber x 15) = 15%nat
  /\ forallb isDigit (toCnabNumber x 15) = true
  /\ centsIn (toCnabNumber x 15) = k.
Proof.
  intros k x. destruct Hfirst as [Hne Hfirst]. destruct Hcents as [Hlen Hcents].
  pose proof (valueOfDigitsZ_nonneg (digitsWritten first groups cents)) as Hk0.
  fold k in Hk, Hk0.
  pose proof (concat_threeDigits groups Hgroups) as Hcat.
  assert (Hparsed : parseFloat (sanitized (junk ++ written first groups cents))
                    = amount k).
  { rewrite (sanitized_written junk first groups cents Hjunk Hfirst Hgroups Hcents).
    assert (Ha : first ++ concat groups <> [])
      by (destruct first; [contradiction|discriminate]).
    assert (Hda : forallb isDigit (first ++ concat groups) = true)
      by (rewrite forallb_app; apply andb_true_intro; now split).
    pose proof (scanUnsigned_fixed false (first ++ concat groups) cents Ha Hda Hcents)
      as Hscan.
    rewrite Hlen in Hscan. change (0 - Z.of_nat 2)%Z with (-2)%Z in Hscan.
    rewrite <- !app_assoc in Hscan. fold (digitsWritten first groups cents) in Hscan.
    fold k in Hscan. fold (amount k) in Hscan.
    unfold parseFloat.
    destruct first as [|c first']; [contradiction|].
    cbn [forallb] in Hfirst. apply andb_prop in Hfirst as [Hc _].
    cbn [app dropWhile] in *. rewrite (isSpace_digit c Hc).
    unfold scanDecimal.
    unfold isDigit in Hc. apply andb_prop in Hc as [Hc1 Hc2].
    apply N.leb_le in Hc1, Hc2.
    destruct (N.eqb_spec c 45); [lia|]. destruct (N.eqb_spec c 43); [lia|].
    now rewrite Hscan. }
  assert (Hx : x = amount k).
  { unfold x, normalizeNumber. rewrite Hparsed.
    destruct (amount_spec k (conj Hk0 Hk)) as (v & Hv & _).
    destruct (hundredths_amount k v (conj Hk0 Hk) Hv) as (Hv0 & Hh & Hsmall).
    rewrite Hv. cbn [isNaN].
    rewrite numberOfString_toFixed
      by (eauto || (cbn [magnitude]; rewrite Z.abs_eq by lia; exact Hsmall)).
    cbn [isNeg magnitude]. rewrite Z.abs_eq by lia. rewrite Hh.
    replace (v <? 0)%Z with false by (symmetry; apply Z.ltb_ge; lia).
    exact Hv. }
  split; [exact Hx|]. rewrite Hx.
  apply toCnabNumber_field; [apply amount_cents| |]; lia.
Qed.

Lemma normalizeNumber_written_witness :
  normalizeNumber (js "R$ 1.234.567,89") = amount 123456789
  /\ centsIn (toCnabNumber (normalizeNumber (js "R$ 1.234.567,89")) 15) = 123456789%Z.
Proof.
  assert (Hk : (valueOfDigitsZ (digitsWritten (js "1") [js "234"; js "567"] (js "89"))
                <= 10 ^ 11)%Z) by (vm_compute; discriminate).
  assert (Hjunk : forallb (fun c => negb (isMoneyChar c)) (js "R$ ") = true)
    by reflexivity.
  assert (Hfirst : js "1" <> [] /\ forallb isDigit (js "1") = true)
    by (split; [discriminate|reflexivity]).
  assert (Hgroups : forallb threeDigits [js "234"; js "567"] = true) by reflexivity.
  assert (Hcents : length (js "89") = 2%nat /\ forallb isDigit (js "89") = true)
    by (split; reflexivity).
  pose proof (normalizeNumber_written (js "R$ ") (js "1") [js "234"; js "567"]
                (js "89") Hjunk Hfirst Hgroups Hcents Hk) as Hwritten.
  cbv zeta in Hwritten. destruct Hwritten as (Hx & _ & _ & Hfield).
  split; [exact Hx|exact Hfield].
Defined.

(** ** The records the page keeps *)

Section Received.

Variable H : Host.

Lemma sanitizeDocument_digits (value : jsstring) :
  Page.sanitizeDocument value = sanitizeNumber value.
Proof.
  unfold Page.sanitizeDocument, sanitizeNumber.
  rewrite (replaceAll_takesOne _ (fun c _ => negb (isDigit c)))
    by apply takesOne_Chr.
  apply filter_replaceUnits.
Qed.

Lemma sanitizeNumber_twice (value : jsstring) :
  sanitizeNumber (sanitizeNumber value) = sanitizeNumber value.
Proof.
  unfold sanitizeNumber. induction value as [|c value IH]; [reflexivity|].
  cbn [filter]. destruct (isDigit c) eqn:Ec; [|exact IH].
  cbn [filter]. rewrite Ec. now f_equal.
Qed.

Lemma detailOf_received (sequential : nat) (darf : DarfRecord)
  (period vencimento : jsstring) :
  detailOf H sequential (Page.received darf) period vencimento
  = detailOf H sequential darf period vencimento.
Proof.
  unfold detailOf, Page.received. cbn [cnpj nome codigoReceita numeroReferencia
    valorPrincipal valorMulta valorJuros valorTotal].
  now rewrite sanitizeDocument_digits, sanitizeNumber_twice.
Qed.

Lemma detailLinesFrom_received (creationDate : JsDate) (darfs : list DarfRecord) :
  forall sequential t,
    detailLinesFrom H creationDate sequential (List.map Page.received darfs) t
    = detailLinesFrom H creationDate sequential darfs t.
Proof.
  induction darfs as [|darf rest IH]; intros sequential t; [reflexivity|].
  cbn [List.map detailLinesFrom]. unfold bind.
  assert (Hline : detailLine H creationDate sequential (Page.received darf) t
                  = detailLine H creationDate sequential darf t).
  { unfold detailLine, bind, ret. cbn [Page.received dataVencimento periodoApuracao].
    destruct (formatDateToCnab H (OfString (dataVencimento darf)) t) as [v t1].
    destruct (formatDateToCnab H _ t1) as [p t2].
    now rewrite detailOf_received. }
  rewrite Hline. destruct (detailLine H creationDate sequential darf t) as [line t1].
  now rewrite IH.
Qed.

Lemma total_received (f : DarfRecord -> number) (darfs : list DarfRecord) :
  (forall darf, f (Page.received darf) = f darf) ->
  total f (List.map Page.received darfs) = total f darfs.
Proof.
  intros Hf. unfold total. generalize (Fin 0).
  induction darfs as [|darf rest IH]; intros x; [reflexivity|].
  cbn [List.map fold_left]. now rewrite Hf, IH.
Qed.

Lemma remittanceLines_received (company : CompanyInfo) (darfs : list DarfRecord)
  (t : nat) :
  remittanceLines H company (List.map Page.received darfs) t
  = remittanceLines H company darfs t.
Proof.
  unfold remittanceLines, bind, ret.
  destruct (newDate H t) as [creationDate t1].
  destruct (formatDateToCnab H (OfDate creationDate) t1) as [fileDate t2].
  rewrite detailLinesFrom_received.
  destruct (detailLinesFrom H creationDate 1 darfs t2) as [detailLines t3].
  unfold headerLote, trailerLote. rewrite length_map.
  now rewrite !total_received by reflexivity.
Qed.

End Received.

(** X17: the page keeps of the tax number of every record it receives
    its digits only, in their order, and every other field of the
    record as it is; the Encoder writes for the records the page keeps
    the file it writes for the records as they were received. *)
Theorem received_records (H : Host) (company : CompanyInfo)
  (darfs : list DarfRecord) (t : nat) :
  (forall darf,
      cnpj (Page.received darf) = filter isDigit (cnpj darf)
      /\ id (Page.received darf) = id darf
      /\ nome (Page.received darf) = nome darf
      /\ periodoApuracao (Page.received darf) = periodoApuracao darf
      /\ codigoReceita (Page.received darf) = codigoReceita darf
      /\ numeroReferencia (Page.received darf) = numeroReferencia darf
      /\ dataVencimento (Page.received darf) = dataVencimento darf
      /\ valorPrincipal (Page.received darf) = valorPrincipal darf
      /\ valorMulta (Page.received darf) = valorMulta darf
      /\ valorJuros (Page.received darf) = valorJuros darf
      /\ valorTotal (Page.received darf) = valorTotal darf
      /\ Page.received (Page.received darf) = Page.received darf)
  /\ generateSantanderRemittance H company (List.map Page.received darfs) t
     = generateSantanderRemittance H company darfs t.
Proof.
  split.
  - intros darf. split; [cbn [Page.received cnpj]; apply sanitizeDocument_digits|].
    do 10 (split; [reflexivity|]).
    unfold Page.received at 1 3. cbn [Page.received id nome periodoApuracao cnpj
      codigoReceita numeroReferencia dataVencimento valorPrincipal valorMulta
      valorJuros valorTotal].
    now rewrite !sanitizeDocument_digits, sanitizeNumber_twice.
  - unfold generateSantanderRemittance, bind.
    now rewrite remittanceLines_received.
Qed.

(** ** The summary of the page *)

Section SummaryTotals.

Local Open Scope Z_scope.

(** Below [2^53] the integers are doubles: one more is exact. *)
Lemma add_one (n : Z) :
  0 <= n < 2 ^ 53 -> add (ofInt n) (ofInt 1) = ofInt (n + 1).
Proof.
  intros Hn. unfold add, ofInt.
  replace (n * scale + 1 * scale) with ((n + 1) * scale) by ring.
  assert (Hscale : scale = 2 ^ 1074) by (vm_compute; reflexivity).
  assert (Hpos : 0 < scale) by (rewrite Hscale; apply Z.pow_pos_nonneg; lia).
  assert (Hm : 0 < (n + 1) * scale) by nia.
  replace ((n + 1) * scale <? 0) with false by (symmetry; apply Z.ltb_ge; lia).
  rewrite Z.abs_eq by lia.
  assert (Hround : roundScaled ((n + 1) * scale) 1 = (n + 1) * scale).
  { unfold roundScaled. rewrite Z.div_1_r, Z.mul_1_l, Hscale.
    rewrite Z.log2_mul_pow2 by lia.
    pose proof (Z.log2_nonneg (n + 1)) as Hlog0.
    assert (Hlog : Z.log2 (n + 1) <= 53).
    { destruct (Z.eq_dec (n + 1) (2 ^ 53)) as [->|Hne].
      - rewrite Z.log2_pow2; lia.
      - assert (Z.log2 (n + 1) < 53); [|lia].
        apply Z.log2_lt_pow2; lia. }
    set (l := Z.log2 (n + 1)) in *.
    replace (Z.max 0 (1074 + l - 52)) with (l + 1022) by lia.
    assert (Hq : exists q, 0 <= q /\ (n + 1) * 2 ^ 1074 = q * 2 ^ (l + 1022)).
    { destruct (Z.eq_dec l 53) as [Hl|Hl].
      - exists (2 ^ 52). split; [apply Z.pow_nonneg; lia|].
        assert (Hn1 : n + 1 = 2 ^ 53).
        { pose proof (Z.log2_spec (n + 1) ltac:(lia)) as [Hlow _].
          fold l in Hlow. rewrite Hl in Hlow. lia. }
        rewrite Hn1, Hl, <- !Z.pow_add_r by lia. reflexivity.
      - exists ((n + 1) * 2 ^ (52 - l)). split.
        + apply Z.mul_nonneg_nonneg; [lia|apply Z.pow_nonneg; lia].
        + rewrite <- Z.mul_assoc, <- Z.pow_add_r by lia. do 2 f_equal. lia. }
    destruct Hq as (q & Hq0 & ->).
    assert (Hd : 0 < 2 ^ (l + 1022)) by (apply Z.pow_pos_nonneg; lia).
    unfold divHalfEven. rewrite Z.div_mul, Z.mod_mul by lia.
    replace (2 * 0 <? 2 ^ (l + 1022)) with true by (symmetry; apply Z.ltb_lt; lia).
    reflexivity. }
  rewrite ofRatio_finite; [now rewrite Hround|].
  rewrite Hround.
  assert (Hov : 9007199254740992 * scale < overflow) by (vm_compute; reflexivity).
  assert (n + 1 <= 2 ^ 53) by lia. change (2 ^ 53) with 9007199254740992 in *. nia.
Qed.

Lemma counted_snoc (darfs : list DarfRecord) (darf : DarfRecord) :
  counted (darfs ++ [darf]) = add (counted darfs) (ofInt 1).
Proof. unfold counted. now rewrite fold_left_app. Qed.

Lemma total_snoc (f : DarfRecord -> number) (darfs : list DarfRecord)
  (darf : DarfRecord) :
  total f (darfs ++ [darf]) = add (total f darfs) (f darf).
Proof. unfold total. now rewrite fold_left_app. Qed.

Lemma counted_length (darfs : list DarfRecord) :
  Z.of_nat (length darfs) <= 2 ^ 53 ->
  counted darfs = ofInt (Z.of_nat (length darfs)).
Proof.
  induction darfs as [|darf darfs IH] using rev_ind; intros Hlen; [reflexivity|].
  rewrite length_app in Hlen. cbn [length] in Hlen.
  rewrite counted_snoc, IH by lia. rewrite add_one by lia.
  f_equal. rewrite length_app. cbn [length]. lia.
Qed.

Lemma tally_totals (darfs : list DarfRecord) (s : Page.Tally) :
  let s' := fold_left Page.tally darfs s in
  Page.t_guias s' = fold_left (fun n _ => add n (ofInt 1)) darfs (Page.t_guias s)
  /\ Page.t_principal s'
     = fold_left (fun total darf => add total (valorPrincipal darf)) darfs
         (Page.t_principal s)
  /\ Page.t_multa s'
     = fold_left (fun total darf => add total (valorMulta darf)) darfs
         (Page.t_multa s)
  /\ Page.t_juros s'
     = fold_left (fun total darf => add total (valorJuros darf)) darfs
         (Page.t_juros s)
  /\ Page.t_geral s'
     = fold_left (fun total darf => add total (valorTotal darf)) darfs
         (Page.t_geral s).
Proof.
  revert s. induction darfs as [|darf rest IH]; intros s; [cbn; auto|].
  cbn [fold_left]. cbv zeta. specialize (IH (Page.tally s darf)). cbv zeta in IH.
  exact IH.
Qed.

End SummaryTotals.

Section SummaryGroups.

Lemma codesOf_snoc (darfs : list DarfRecord) (darf : DarfRecord) :
  codesOf (darfs ++ [darf])
  = if existsb (jsEqb (codigoReceita darf)) (codesOf darfs) then codesOf darfs
    else codesOf darfs ++ [codigoReceita darf].
Proof. unfold codesOf. now rewrite fold_left_app. Qed.

Lemma ofCode_snoc (code : jsstring) (darfs : list DarfRecord) (darf : DarfRecord) :
  ofCode code (darfs ++ [darf])
  = ofCode code darfs ++ (if jsEqb (codigoReceita darf) code then [darf] else []).
Proof. unfold ofCode. rewrite filter_app. cbn [filter]. reflexivity. Qed.

Lemma existsb_jsEqb (key : jsstring) (codes : list jsstring) :
  existsb (jsEqb key) codes = true <-> In key codes.
Proof.
  rewrite existsb_exists. split.
  - intros (c & Hc & Heq). apply jsEqb_eq in Heq. now subst c.
  - intros Hin. exists key. split; [exact Hin|now apply jsEqb_eq].
Qed.

Lemma jsEqb_neq (a b : jsstring) : a <> b -> jsEqb a b = false.
Proof.
  intros Hne. destruct (jsEqb a b) eqn:E; [|reflexivity].
  apply jsEqb_eq in E. contradiction.
Qed.

(** The codes are those of the records, each once. *)
Lemma codesOf_spec (darfs : list DarfRecord) :
  NoDup (codesOf darfs)
  /\ forall code,
       In code (codesOf darfs)
       <-> exists darf, In darf darfs /\ codigoReceita darf = code.
Proof.
  induction darfs as [|darf darfs [IHnd IHin]] using rev_ind.
  - split; [constructor|]. intros code. split; [intros []|intros (d & [] & _)].
  - rewrite codesOf_snoc.
    destruct (existsb (jsEqb (codigoReceita darf)) (codesOf darfs)) eqn:E.
    + apply existsb_jsEqb in E. split; [exact IHnd|]. intros code. rewrite IHin. split.
      * intros (d & Hd & Hcode). exists d. split; [|exact Hcode].
        apply in_or_app. now left.
      * intros (d & Hd & Hcode). apply in_app_or in Hd as [Hd|[<-|[]]].
        -- now exists d.
        -- subst code. now apply IHin.
    + assert (Hnot : ~ In (codigoReceita darf) (codesOf darfs)).
      { intros Hin. apply existsb_jsEqb in Hin. congruence. }
      split.
      * apply NoDup_app; [exact IHnd|repeat constructor; intros []|].
        intros c Hc [<-|[]]. contradiction.
      * intros code. rewrite in_app_iff, IHin. cbn [In]. split.
        -- intros [(d & Hd & Hcode)|[<-|[]]].
           ++ exists d. split; [apply in_or_app; now left|exact Hcode].
           ++ exists darf. split; [apply in_or_app; right; now left|reflexivity].
        -- intros (d & Hd & Hcode). apply in_app_or in Hd as [Hd|[<-|[]]].
           ++ left. now exists d.
           ++ right. now left.
Qed.

Lemma ofCode_absent (code : jsstring) (darfs : list DarfRecord) :
  ~ In code (codesOf darfs) -> ofCode code darfs = [].
Proof.
  intros Hnot. unfold ofCode.
  induction darfs as [|darf rest IH] using rev_ind; [reflexivity|].
  rewrite filter_app. cbn [filter].
  destruct (jsEqb (codigoReceita darf) code) eqn:E.
  - exfalso. apply Hnot. apply (proj2 (codesOf_spec (rest ++ [darf]))).
    exists darf. split; [apply in_or_app; right; now left|now apply jsEqb_eq].
  - rewrite IH; [reflexivity|]. intros Hin. apply Hnot.
    apply (proj2 (codesOf_spec (rest ++ [darf]))).
    apply (proj2 (codesOf_spec rest)) in Hin as (d & Hd & Hcode).
    exists d. split; [apply in_or_app; now left|exact Hcode].
Qed.

Section Entries.

Variables G G' : jsstring -> Page.CodeGroup.
Variable key : jsstring.
Hypothesis Hother : forall c, c <> key -> G' c = G c.

Lemma entries_other (codes : list jsstring) :
  ~ In key codes ->
  List.map (fun c => (c, G c)) codes = List.map (fun c => (c, G' c)) codes.
Proof.
  intros Hnot. apply map_ext_in. intros c Hc. f_equal. symmetry. apply Hother.
  intros ->. contradiction.
Qed.

Lemma lookup_entries (codes : list jsstring) :
  lookup (List.map (fun c => (c, G c)) codes) key
  = if existsb (jsEqb key) codes then Some (G key) else None.
Proof.
  induction codes as [|c codes IH]; [reflexivity|].
  cbn [List.map lookup existsb]. rewrite (jsEqb_sym key c).
  destruct (jsEqb c key) eqn:E; [|exact IH].
  apply jsEqb_eq in E. now subst c.
Qed.

Lemma mapSet_present (codes : list jsstring) :
  NoDup codes -> In key codes ->
  Page.mapSet (List.map (fun c => (c, G c)) codes) key (G' key)
  = List.map (fun c => (c, G' c)) codes.
Proof.
  induction codes as [|c codes IH]; intros Hnd Hin; [destruct Hin|].
  inversion Hnd as [|? ? Hc Hnd']; subst. cbn [List.map Page.mapSet].
  destruct (jsEqb c key) eqn:E.
  - apply jsEqb_eq in E. subst c. f_equal. now apply entries_other.
  - assert (Hne : c <> key) by (intros ->; rewrite (proj2 (jsEqb_eq key key) eq_refl) in E; discriminate).
    rewrite (Hother c Hne). f_equal. apply IH; [exact Hnd'|].
    destruct Hin as [->|Hin]; [contradiction|exact Hin].
Qed.

Lemma mapSet_absent (codes : list jsstring) :
  ~ In key codes ->
  Page.mapSet (List.map (fun c => (c, G c)) codes) key (G' key)
  = List.map (fun c => (c, G' c)) (codes ++ [key]).
Proof.
  induction codes as [|c codes IH]; intros Hnot; [reflexivity|].
  cbn [List.map Page.mapSet app]. rewrite jsEqb_neq by (intros ->; apply Hnot; now left).
  rewrite (Hother c) by (intros ->; apply Hnot; now left).
  f_equal. apply IH. intros Hin. apply Hnot. now right.
Qed.

End Entries.

Lemma byCodigo_fold (darfs : list DarfRecord) :
  Page.byCodigo
    (fold_left Page.tally darfs
       {| Page.t_guias := ofInt 0; Page.t_principal := ofInt 0;
          Page.t_multa := ofInt 0; Page.t_juros := ofInt 0;
          Page.t_geral := ofInt 0; Page.byCodigo := [] |})
  = List.map (fun code => (code, groupOf code (ofCode code darfs))) (codesOf darfs).
Proof.
  induction darfs as [|darf darfs IH] using rev_ind; [reflexivity|].
  rewrite fold_left_app. cbn [fold_left]. unfold Page.tally at 1.
  cbn [Page.byCodigo]. rewrite IH. clear IH.
  set (key := codigoReceita darf).
  set (G := fun code => groupOf code (ofCode code darfs)).
  set (G' := fun code => groupOf code (ofCode code (darfs ++ [darf]))).
  assert (Hother : forall c, c <> key -> G' c = G c).
  { intros c Hc. unfold G', G. rewrite ofCode_snoc. fold key.
    rewrite jsEqb_neq by congruence. now rewrite app_nil_r. }
  destruct (codesOf_spec darfs) as [Hnd _].
  rewrite (lookup_entries G key), codesOf_snoc. fold key.
  destruct (existsb (jsEqb key) (codesOf darfs)) eqn:E.
  - apply existsb_jsEqb in E.
    transitivity (Page.mapSet (List.map (fun c => (c, G c)) (codesOf darfs)) key (G' key));
      [|exact (mapSet_present G G' key Hother _ Hnd E)].
    f_equal. unfold G', G, groupOf. cbn [Page.g_codigoReceita Page.g_quantidade
      Page.g_valorPrincipal Page.g_valorMulta Page.g_valorJuros Page.g_valorTotal].
    rewrite ofCode_snoc. fold key. rewrite (proj2 (jsEqb_eq key key) eq_refl).
    now rewrite counted_snoc, !total_snoc.
  - assert (Hnot : ~ In key (codesOf darfs)).
    { intros Hin. apply existsb_jsEqb in Hin. congruence. }
    transitivity (Page.mapSet (List.map (fun c => (c, G c)) (codesOf darfs)) key (G' key));
      [|exact (mapSet_absent G G' key Hother _ Hnot)].
    f_equal. unfold G', groupOf. rewrite ofCode_snoc. fold key.
    rewrite (proj2 (jsEqb_eq key key) eq_refl).
    rewrite (ofCode_absent key darfs Hnot). reflexivity.
Qed.

End SummaryGroups.

(** X18: the five totals of the summary are the number of the records
    and the sums of their four amounts, added up in the order of the
    records: the same numbers the Encoder adds up for the trailer of
    the batch.  The number of the records is exact for every list the
    page can hold (up to [2^53] records). *)
Theorem summary_totals (darfs : list DarfRecord)
  (Hcount : (Z.of_nat (length darfs) <= 2 ^ 53)%Z) :
  Page.totalGuias (Page.summary darfs) = ofInt (Z.of_nat (length darfs))
  /\ Page.totalPrincipal (Page.summary darfs) = total valorPrincipal darfs
  /\ Page.totalMulta (Page.summary darfs) = total valorMulta darfs
  /\ Page.totalJuros (Page.summary darfs) = total valorJuros darfs
  /\ Page.totalGeral (Page.summary darfs) = total valorTotal darfs.
Proof.
  unfold Page.summary. cbv zeta.
  cbn [Page.totalGuias Page.totalPrincipal Page.totalMulta Page.totalJuros
       Page.totalGeral].
  match goal with
  | |- context [fold_left Page.tally darfs ?s] =>
      destruct (tally_totals darfs s) as (Hg & Hp & Hm & Hj & Ht)
  end.
  cbv zeta in Hg, Hp, Hm, Hj, Ht.
  rewrite Hg, Hp, Hm, Hj, Ht. cbn [Page.t_guias Page.t_principal Page.t_multa
    Page.t_juros Page.t_geral].
  split; [exact (counted_length darfs Hcount)|]. repeat split.
Qed.

Lemma summary_totals_witness :
  Page.totalGuias (Page.summary scenario) = ofInt 2
  /\ Page.totalGeral (Page.summary scenario) = total valorTotal scenario.
Proof.
  assert (Hcount : (Z.of_nat (length scenario) <= 2 ^ 53)%Z).
  { change (2 ^ 53)%Z with 9007199254740992%Z. cbn. lia. }
  destruct (summary_totals scenario Hcount) as (Hg & _ & _ & _ & Ht).
  split; [exact Hg|exact Ht].
Defined.

(** X19: the summary holds one group for every revenue code of the
    records, in the order the codes first appear and no code twice;
    the group of a code counts the records of that code and adds up
    their four amounts in the order of the records. *)
Theorem summary_groups (darfs : list DarfRecord) :
  Page.porCodigo (Page.summary darfs)
  = List.map (fun code => groupOf code (ofCode code darfs)) (codesOf darfs)
  /\ NoDup (codesOf darfs)
  /\ (forall code,
        In code (codesOf darfs)
        <-> exists darf, In darf darfs /\ codigoReceita darf = code)
  /\ (forall code, (Z.of_nat (length (ofCode code darfs)) <= 2 ^ 53)%Z ->
        counted (ofCode code darfs)
        = ofInt (Z.of_nat (length (ofCode code darfs)))).
Proof.
  split; [|split; [apply codesOf_spec|split; [apply codesOf_spec|]]].
  - unfold Page.summary. cbv zeta. cbn [Page.porCodigo].
    rewrite byCodigo_fold, map_map. reflexivity.
  - intros code. apply counted_length.
Qed.

(** ** The handler of the page *)

Section Handler.

Variable H : Host.
Variable toISOString : JsDate -> jsstring.

Lemma missing_length (value label : jsstring) :
  length (Page.missing value label) = if holdsText value then 0%nat else 1%nat.
Proof. now destruct value. Qed.

Lemma validateCompany_length (company : CompanyInfo) :
  length (Page.validateCompany company) = emptyFields company.
Proof.
  unfold Page.validateCompany, emptyFields. rewrite !length_app, !missing_length.
  cbn [filter].
  destruct (holdsText (Company.banco company)), (holdsText (Company.agencia company)),
    (holdsText (Company.dvAgencia company)), (holdsText (Company.conta company)),
    (holdsText (Company.dvConta company)), (holdsText (Company.convenio company)),
    (holdsText (Company.empresa company)), (holdsText (Company.cnpj company));
    reflexivity.
Qed.

Lemma validateCompany_filled (company : CompanyInfo) :
  Page.validateCompany company = [] <-> filled company = true.
Proof.
  rewrite <- length_zero_iff_nil, validateCompany_length.
  unfold emptyFields, filled. cbn [filter forallb].
  destruct (holdsText (Company.banco company)), (holdsText (Company.agencia company)),
    (holdsText (Company.dvAgencia company)), (holdsText (Company.conta company)),
    (holdsText (Company.dvConta company)), (holdsText (Company.convenio company)),
    (holdsText (Company.empresa company)), (holdsText (Company.cnpj company));
    cbn; split; intros Heq; try reflexivity; discriminate.
Qed.

Lemma slice_prefix (s : jsstring) (n : nat) :
  slice s 0 (Some (Z.of_nat n)) = firstn n s.
Proof.
  unfold slice, relIndex. cbn [Z.ltb Z.compare Z.to_nat Nat.min skipn].
  replace (Z.of_nat n <? 0)%Z with false by (symmetry; apply Z.ltb_ge; lia).
  rewrite Nat2Z.id, Nat.sub_0_r.
  destruct (Nat.le_ge_cases n (length s)) as [Hle|Hge].
  - now rewrite Nat.min_l.
  - rewrite Nat.min_r by exact Hge. now rewrite !firstn_all2.
Qed.

Lemma timestamp_eq (stamp : JsDate) :
  slice (replaceAll (Chr Page.isStampSeparator) [] (toISOString stamp)) 0 (Some 14%Z)
  = firstn 14 (filter (fun c => negb (Page.isStampSeparator c)) (toISOString stamp)).
Proof.
  rewrite (replaceAll_takesOne _ (fun c _ => Page.isStampSeparator c))
    by apply takesOne_Chr.
  rewrite replaceUnits_filter. exact (slice_prefix _ 14).
Qed.

Lemma handler_cases (company : CompanyInfo) (darfs : list DarfRecord) (t : nat) :
  let encoded := generateSantanderRemittance H company darfs t in
  Page.handleGenerateRemittance H toISOString company darfs t
  = if filled company then
      match darfs with
      | [] =>
          (Page.Refused
             (js "Importe um PDF com ao menos uma guia de DARF antes de gerar a remessa."),
           t)
      | _ =>
          (Page.Downloaded
             (js "REM_"
              ++ firstn 14 (filter (fun c => negb (Page.isStampSeparator c))
                              (toISOString (now H (snd encoded))))
              ++ js ".rem")
             (fst encoded) (js "Arquivo de remessa gerado com sucesso!"),
           S (snd encoded))
      end
    else
      (Page.Refused
         (js "Preencha os campos obrigat" ++ [195; 179]%N ++ js "rios: "
          ++ join (js ", ") (Page.validateCompany company) ++ js "."),
       t).
Proof.
  intros encoded. unfold Page.handleGenerateRemittance.
  pose proof (validateCompany_filled company) as Hfilled.
  destruct (Page.validateCompany company) as [|label labels] eqn:Emissing.
  - rewrite (proj1 Hfilled eq_refl). destruct darfs as [|darf rest]; [reflexivity|].
    unfold bind, ret, newDate. subst encoded.
    destruct (generateSantanderRemittance H company (darf :: rest) t) as [text t1].
    cbn [fst snd]. now rewrite timestamp_eq.
  - destruct (filled company); [|reflexivity].
    destruct Hfilled as [_ Hnil]. discriminate (Hnil eq_refl).
Qed.

Lemma isDigit_not_separator (s : jsstring) :
  forallb isDigit s = true ->
  filter (fun c => negb (Page.isStampSeparator c)) s = s.
Proof.
  induction s as [|c s IH]; [reflexivity|]. cbn [forallb filter].
  intros Hc. apply andb_prop in Hc as [Hc Hs].
  assert (Hsep : Page.isStampSeparator c = false).
  { unfold isDigit in Hc. apply andb_prop in Hc as [Hlo Hhi].
    apply N.leb_le in Hlo, Hhi. unfold Page.isStampSeparator.
    destruct (N.eqb_spec c 45), (N.eqb_spec c 58), (N.eqb_spec c 84);
      try reflexivity; lia. }
  rewrite Hsep. cbn [negb]. now rewrite IH.
Qed.

End Handler.

(** X20: the handler hands a file to the browser exactly when every
    one of the eight fields of the company holds some text and there
    is a record; else it refuses, reads no clock and encodes nothing.
    [validateCompany] lists one label for every empty field.  The file
    is the text the Encoder gives for the company and the records, and
    the name of the file is taken from a reading of the clock made
    after the Encoder has finished. *)
Theorem handleGenerateRemittance_outcome (H : Host) (toISOString : JsDate -> jsstring)
  (company : CompanyInfo) (darfs : list DarfRecord) (t : nat) :
  let run := Page.handleGenerateRemittance H toISOString company darfs t in
  let encoded := generateSantanderRemittance H company darfs t in
  length (Page.validateCompany company) = emptyFields company
  /\ (Page.validateCompany company = [] <-> filled company = true)
  /\ match fst run with
     | Page.Refused _ => (filled company = false \/ darfs = []) /\ snd run = t
     | Page.Downloaded name content _ =>
         filled company = true /\ darfs <> []
         /\ content = fst encoded
         /\ snd run = S (snd encoded)
         /\ name
            = js "REM_"
              ++ firstn 14 (filter (fun c => negb (Page.isStampSeparator c))
                              (toISOString (now H (snd encoded))))
              ++ js ".rem"
     end.
Proof.
  intros run encoded. split; [apply validateCompany_length|].
  split; [apply validateCompany_filled|].
  subst run. rewrite handler_cases. cbv zeta. fold encoded.
  destruct (filled company).
  - destruct darfs as [|darf rest].
    + cbn [fst snd]. split; [now right|reflexivity].
    + cbn [fst snd]. repeat split. discriminate.
  - cbn [fst snd]. split; [now left|reflexivity].
Qed.

(** X21: when the clock reads, in ISO 8601, a year of four digits, the
    name of the file is REM_, the fourteen digits of the year, the
    month, the day, the hours, the minutes and the seconds, and .rem:
    the separators are dropped and the fraction of the second is cut
    off. *)
Theorem download_name (H : Host) (toISOString : JsDate -> jsstring)
  (company : CompanyInfo) (darfs : list DarfRecord) (t : nat)
  (y mo d h mi s rest : jsstring)
  (Hfilled : filled company = true) (Hdarfs : darfs <> [])
  (Hiso : toISOString (now H (snd (generateSantanderRemittance H company darfs t)))
          = y ++ js "-" ++ mo ++ js "-" ++ d ++ js "T" ++ h ++ js ":" ++ mi
            ++ js ":" ++ s ++ rest)
  (Hdigits : forallb isDigit (y ++ mo ++ d ++ h ++ mi ++ s) = true)
  (Hlen : length (y ++ mo ++ d ++ h ++ mi ++ s) = 14%nat) :
  exists content message,
    fst (Page.handleGenerateRemittance H toISOString company darfs t)
    = Page.Downloaded (js "REM_" ++ y ++ mo ++ d ++ h ++ mi ++ s ++ js ".rem")
        content message.
Proof.
  rewrite handler_cases. cbv zeta. rewrite Hfilled.
  destruct darfs as [|darf darfs]; [contradiction|]. cbn [fst].
  do 2 eexists. f_equal. f_equal. rewrite Hiso.
  pose proof Hdigits as Hall. rewrite !forallb_app in Hdigits.
  apply andb_prop in Hdigits as [Hy Hdigits].
  apply andb_prop in Hdigits as [Hmo Hdigits].
  apply andb_prop in Hdigits as [Hd Hdigits].
  apply andb_prop in Hdigits as [Hh Hdigits].
  apply andb_prop in Hdigits as [Hmi Hs].
  rewrite !filter_app.
  rewrite (isDigit_not_separator y Hy), (isDigit_not_separator mo Hmo),
    (isDigit_not_separator d Hd), (isDigit_not_separator h Hh),
    (isDigit_not_separator mi Hmi), (isDigit_not_separator s Hs).
  change (filter (fun c => negb (Page.isStampSeparator c)) (js "-")) with (@nil char16).
  change (filter (fun c => negb (Page.isStampSeparator c)) (js "T")) with (@nil char16).
  change (filter (fun c => negb (Page.isStampSeparator c)) (js ":")) with (@nil char16).
  cbn [app].
  replace (y ++ mo ++ d ++ h ++ mi ++ s ++ filter _ rest)
    with ((y ++ mo ++ d ++ h ++ mi ++ s) ++ filter (fun c => negb (Page.isStampSeparator c)) rest)
    by (now rewrite <- !app_assoc).
  rewrite firstn_app, Hlen, Nat.sub_diag, firstn_O.
  rewrite firstn_all2 by (rewrite Hlen; lia).
  now rewrite app_nil_r, <- !app_assoc.
Qed.

Lemma download_name_witness :
  exists content message,
    fst (Page.handleGenerateRemittance sampleHost sampleISO completeCompany scenario 0)
    = Page.Downloaded (js "REM_20240315103045.rem") content message.
Proof.
  assert (Hfilled : filled completeCompany = true) by reflexivity.
  assert (Hdarfs : scenario <> []) by discriminate.
  assert (Hiso : sampleISO (now sampleHost
                   (snd (generateSantanderRemittance sampleHost completeCompany scenario 0)))
                 = js "2024" ++ js "-" ++ js "03" ++ js "-" ++ js "15" ++ js "T"
                   ++ js "10" ++ js ":" ++ js "30" ++ js ":" ++ js "45" ++ js ".123Z")
    by reflexivity.
  assert (Hdigits : forallb isDigit (js "2024" ++ js "03" ++ js "15" ++ js "10"
                                     ++ js "30" ++ js "45") = true) by reflexivity.
  assert (Hlen : length (js "2024" ++ js "03" ++ js "15" ++ js "10"
                         ++ js "30" ++ js "45") = 14%nat) by reflexivity.
  exact (download_name sampleHost sampleISO completeCompany scenario 0
           (js "2024") (js "03") (js "15") (js "10") (js "30") (js "45") (js ".123Z")
           Hfilled Hdarfs Hiso Hdigits Hlen).
Defined.

(** ** The route *)


(** ** Quantifiers that give back *)

Section Backtracking.







End Backtracking.

(** ** Field lines without a colon *)

Section Unseparated.




Variables (gap label more tail : jsstring) (w : char16).

Hypothesis Hgap : forallb isSpace gap = true.
Hypothesis Hlabel : forallb isLabelChar label = true.
Hypothesis Hhead : match label with
                   | [] => False
                   | c :: _ => isSpace c = false
                   end.
Hypothesis Hw : isSpace w = true.
Hypothesis Hmore : forallb isLabelChar more = true.
Hypothesis Hword : forallb (fun c => negb (isSpace c)) more = true.
Hypothesis Htail : match tail with
                   | [] => True
                   | c :: _ => isLabelChar c = false /\ isDashColon c = false
                   end.
Hypothesis Hvalue : forallb (fun c => negb (isLineTerminator c)) tail = true.






End Unseparated.



(** ** A guide of ten fields *)

Section Guide.

Variable randomUUID : nat -> jsstring.





End Guide.


